(** * Codex agent: event normalisation, thread lifecycle, thinking levels,
      credential file and session titles

    A shallow embedding of the TypeScript sources

    - [agent/thinking-levels.ts]   (thinking-level normalisation),
    - [codex-auth.ts]              (credential file reader),
    - [title-generator.ts]         (session title generation),
    - [agent/codex-agent.ts]       (the [CodexAgent] class: thread options,
                                    field extractors, tool-result and MCP
                                    name normalisation, the [chat] generator),

    followed by the properties proved about them.

    Conventions of the embedding.

    - An upstream event is an untyped JavaScript value as produced by
      [JSON.parse]: [JsVal].  Numbers are the integers ([Z]) below
      10^21 in absolute value; objects are association lists read by
      first match, and are plain (no own [toString]).
    - A JavaScript string is a Rocq [string]; one character of the model
      is one code unit of the source string (units below 256).
    - [a ?? b], truthiness, [typeof], property reads and [String(v)] are
      written out as functions on [JsVal].
    - Code that may throw returns [Exc]; an async generator becomes the
      list of events it yields together with the way it ends. *)

From stdpp Require Import gmap strings list fin_maps pretty countable.
From Stdlib Require Import ZArith Ascii String Bool Lia.

Open Scope string_scope.
Open Scope list_scope.

(* ===================================================================== *)
(** * JavaScript values and primitive operations                          *)
(* ===================================================================== *)

Module JS.

(** ** Strings *)

(** [s.startsWith(p)] *)
Definition startsWith (p s : string) : bool := String.prefix p s.

(** [s.includes(needle)] *)
Fixpoint includes (needle s : string) : bool :=
  String.prefix needle s ||
  match s with
  | EmptyString => false
  | String _ s' => includes needle s'
  end.

(** [s.split(sep)] for a one-character separator: never the empty list. *)
Fixpoint split (sep : ascii) (s : string) : list string :=
  match s with
  | EmptyString => [EmptyString]
  | String c s' =>
      if Ascii.eqb c sep then EmptyString :: split sep s'
      else match split sep s' with
           | [] => [String c EmptyString]
           | p :: ps => String c p :: ps
           end
  end.

(** [s.replaceAll(c, '')] for a one-character pattern. *)
Fixpoint removeAll (c : ascii) (s : string) : string :=
  match s with
  | EmptyString => EmptyString
  | String d s' =>
      if Ascii.eqb d c then removeAll c s' else String d (removeAll c s')
  end.

(** Lower-casing of one code unit below 256: [A-Z] and the upper-case
    letters of Latin-1 ([U+00C0]..[U+00DE] without the sign [U+00D7]). *)
Definition lowerUnit (c : ascii) : ascii :=
  let n := N_of_ascii c in
  if ((65 <=? n) && (n <=? 90))%N then ascii_of_N (n + 32)
  else if ((192 <=? n) && (n <=? 222) && negb (n =? 215))%N
       then ascii_of_N (n + 32)
  else c.

(** [s.toLowerCase()] *)
Fixpoint toLowerCase (s : string) : string :=
  match s with
  | EmptyString => EmptyString
  | String c s' => String (lowerUnit c) (toLowerCase s')
  end.

(** White space and line terminators stripped by [trim], below 256:
    TAB, LF, VT, FF, CR, SPACE and NBSP. *)
Definition isTrimUnit (c : ascii) : bool :=
  let n := N_of_ascii c in
  (((9 <=? n) && (n <=? 13)) || (n =? 32) || (n =? 160))%N.

Fixpoint trimStart (s : string) : string :=
  match s with
  | EmptyString => EmptyString
  | String c s' => if isTrimUnit c then trimStart s' else s
  end.

(** Drops the trailing white space: a character is kept when it is not
    white space or when something is kept after it. *)
Fixpoint trimEnd (s : string) : string :=
  match s with
  | EmptyString => EmptyString
  | String c s' =>
      match trimEnd s' with
      | EmptyString => if isTrimUnit c then EmptyString else String c EmptyString
      | r => String c r
      end
  end.

(** [s.trim()] *)
Definition trim (s : string) : string := trimEnd (trimStart s).

(** [s.slice(0, n)] *)
Fixpoint slice0 (n : nat) (s : string) : string :=
  match n, s with
  | O, _ => EmptyString
  | _, EmptyString => EmptyString
  | S n', String c s' => String c (slice0 n' s')
  end.

(** [parts.join(sep)] *)
Fixpoint join (sep : string) (parts : list string) : string :=
  match parts with
  | [] => EmptyString
  | [p] => p
  | p :: ps => p +:+ sep +:+ join sep ps
  end.

(** The line feed, for the ['\n'] of the source. *)
Definition LF : string := String (ascii_of_N 10) EmptyString.

(** ** Values *)

Unset Elimination Schemes.
Inductive JsVal : Type :=
  | JUndef
  | JNull
  | JBool (b : bool)
  | JNum (n : Z)
  | JStr (s : string)
  | JArr (items : list JsVal)
  | JObj (fields : list (string * JsVal)).
Set Elimination Schemes.

(** Induction over a value, with the hypothesis on every element of an
    array and on every property value of an object. *)
Fixpoint JsVal_nested_ind (P : JsVal -> Prop)
    (Hundef : P JUndef) (Hnull : P JNull)
    (Hbool : forall b, P (JBool b)) (Hnum : forall n, P (JNum n))
    (Hstr : forall s, P (JStr s))
    (Harr : forall items, Forall P items -> P (JArr items))
    (Hobj : forall fields, Forall (fun kv => P (snd kv)) fields -> P (JObj fields))
    (v : JsVal) : P v :=
  let rec := JsVal_nested_ind P Hundef Hnull Hbool Hnum Hstr Harr Hobj in
  match v with
  | JUndef => Hundef
  | JNull => Hnull
  | JBool b => Hbool b
  | JNum n => Hnum n
  | JStr s => Hstr s
  | JArr items =>
      Harr items
        ((fix all (l : list JsVal) : Forall P l :=
            match l with
            | [] => Forall_nil P
            | x :: l' => Forall_cons P x l' (rec x) (all l')
            end) items)
  | JObj fields =>
      Hobj fields
        ((fix all (l : list (string * JsVal)) : Forall (fun kv => P (snd kv)) l :=
            match l with
            | [] => Forall_nil _
            | kv :: l' => Forall_cons _ kv l' (rec (snd kv)) (all l')
            end) fields)
  end.

(** Structural equality of values is decidable. *)
Fixpoint JsVal_eqb (a b : JsVal) : bool :=
  match a, b with
  | JUndef, JUndef => true
  | JNull, JNull => true
  | JBool x, JBool y => Bool.eqb x y
  | JNum x, JNum y => (x =? y)%Z
  | JStr x, JStr y => String.eqb x y
  | JArr xs, JArr ys =>
      (fix go (l1 l2 : list JsVal) : bool :=
         match l1, l2 with
         | [], [] => true
         | x :: l1', y :: l2' => JsVal_eqb x y && go l1' l2'
         | _, _ => false
         end) xs ys
  | JObj xs, JObj ys =>
      (fix go (l1 l2 : list (string * JsVal)) : bool :=
         match l1, l2 with
         | [], [] => true
         | (k1, x) :: l1', (k2, y) :: l2' =>
             String.eqb k1 k2 && JsVal_eqb x y && go l1' l2'
         | _, _ => false
         end) xs ys
  | _, _ => false
  end.

Lemma JsVal_eqb_spec (a b : JsVal) : JsVal_eqb a b = true <-> a = b.
Proof.
  revert b. induction a as [| | x | x | x | xs IH | xs IH] using JsVal_nested_ind;
    intros [| | y | y | y | ys | ys];
    simpl; try (split; [discriminate | intros E; discriminate E]); try tauto.
  - rewrite Bool.eqb_true_iff. split; congruence.
  - rewrite Z.eqb_eq. split; congruence.
  - rewrite String.eqb_eq. split; congruence.
  - revert ys. induction IH as [| x xs Hx _ IHxs]; intros [| y ys];
      try (split; [discriminate | intros E; discriminate E]); try tauto.
    rewrite andb_true_iff, Hx.
    specialize (IHxs ys). split.
    + intros [-> H]. apply IHxs in H. congruence.
    + intros E. injection E as -> E. split; [reflexivity |].
      apply IHxs. congruence.
  - revert ys. induction IH as [| [k x] xs Hx _ IHxs]; intros [| [k' y] ys];
      try (split; [discriminate | intros E; discriminate E]); try tauto.
    simpl in Hx. rewrite !andb_true_iff, Hx, String.eqb_eq.
    specialize (IHxs ys). split.
    + intros [[-> ->] H]. apply IHxs in H. congruence.
    + intros E. injection E as -> -> E. repeat split.
      apply IHxs. congruence.
Qed.

#[global] Instance JsVal_eq_dec : EqDecision JsVal.
Proof.
  intros a b. destruct (JsVal_eqb a b) eqn:E.
  - left. apply JsVal_eqb_spec, E.
  - right. intros H. apply JsVal_eqb_spec in H. congruence.
Defined.

(** Values are countable, so that they can key a finite map: a value is
    coded as a tree over its atoms. *)
Fixpoint JsVal_to_tree (v : JsVal) : gen_tree (bool + Z + string) :=
  match v with
  | JUndef => GenNode 0 []
  | JNull => GenNode 1 []
  | JBool b => GenLeaf (inl (inl b))
  | JNum n => GenLeaf (inl (inr n))
  | JStr s => GenLeaf (inr s)
  | JArr items => GenNode 2 (map JsVal_to_tree items)
  | JObj fields =>
      GenNode 3
        (map (fun kv => GenNode 4 [GenLeaf (inr (fst kv)); JsVal_to_tree (snd kv)])
             fields)
  end.

Fixpoint JsVal_of_tree (t : gen_tree (bool + Z + string)) : JsVal :=
  match t with
  | GenNode 0 _ => JUndef
  | GenNode 1 _ => JNull
  | GenLeaf (inl (inl b)) => JBool b
  | GenLeaf (inl (inr n)) => JNum n
  | GenLeaf (inr s) => JStr s
  | GenNode 2 ts => JArr (map JsVal_of_tree ts)
  | GenNode 3 ts =>
      JObj
        (map (fun t' =>
                match t' with
                | GenNode 4 [GenLeaf (inr k); tv] => (k, JsVal_of_tree tv)
                | _ => (EmptyString, JUndef)
                end) ts)
  | GenNode _ _ => JUndef
  end.

Lemma JsVal_of_to_tree (v : JsVal) : JsVal_of_tree (JsVal_to_tree v) = v.
Proof.
  induction v as [| | b | n | s | items IH | fields IH] using JsVal_nested_ind;
    simpl; try reflexivity.
  - f_equal. induction IH as [| x xs Hx _ IHxs]; simpl; [reflexivity |].
    now rewrite Hx, IHxs.
  - f_equal. induction IH as [| [k x] xs Hx _ IHxs]; simpl; [reflexivity |].
    simpl in Hx. now rewrite Hx, IHxs.
Qed.

#[global] Instance JsVal_countable : Countable JsVal :=
  inj_countable' JsVal_to_tree JsVal_of_tree JsVal_of_to_tree.

(** Own property of a plain object, first match. *)
Fixpoint lookupField (k : string) (fields : list (string * JsVal)) : JsVal :=
  match fields with
  | [] => JUndef
  | (k', v) :: rest => if String.eqb k k' then v else lookupField k rest
  end.

(** [v.k] and [v?.k] for the property names the sources probe: none of
    them is inherited by a primitive, an array or a plain object, so the
    read is [undefined] unless [v] is an object that owns [k]. *)
Definition prop (v : JsVal) (k : string) : JsVal :=
  match v with
  | JObj fields => lookupField k fields
  | _ => JUndef
  end.

(** [a ?? b] *)
Definition coalesce (a b : JsVal) : JsVal :=
  match a with
  | JUndef | JNull => b
  | _ => a
  end.

(** [Boolean(v)], the truthiness that [!v], [if (v)], [a && b] and
    [a || b] test. *)
Definition truthy (v : JsVal) : bool :=
  match v with
  | JUndef | JNull => false
  | JBool b => b
  | JNum n => negb (n =? 0)%Z
  | JStr s => negb (String.eqb s "")
  | JArr _ | JObj _ => true
  end.

(** [!v || typeof v !== 'object'] fails exactly on objects and arrays. *)
Definition isObjectLike (v : JsVal) : bool :=
  match v with
  | JObj _ | JArr _ => true
  | _ => false
  end.

(** [typeof v === 'string' ? v : null] *)
Definition asString (v : JsVal) : option string :=
  match v with
  | JStr s => Some s
  | _ => None
  end.

(** [typeof v === 'string' && v.length > 0 ? v : null] *)
Definition asNonEmptyString (v : JsVal) : option string :=
  match v with
  | JStr s => if String.eqb s "" then None else Some s
  | _ => None
  end.

(** [v === lit] for a string literal. *)
Definition strictEqStr (v : JsVal) (lit : string) : bool :=
  match v with
  | JStr s => String.eqb s lit
  | _ => false
  end.

(** [String(v)] and the conversion of a template literal [`${v}`], on
    the values of the embedding: an object is plain (with an own
    [toString] that is not callable the source throws a [TypeError]) and
    an integer has fewer than 22 digits (from 10^21 on the source prints
    the exponent form). *)
Fixpoint ToString (v : JsVal) : string :=
  match v with
  | JUndef => "undefined"
  | JNull => "null"
  | JBool true => "true"
  | JBool false => "false"
  | JNum n => pretty n
  | JStr s => s
  | JArr items =>
      join ","
        (map (fun x => match x with
                       | JUndef | JNull => ""
                       | _ => ToString x
                       end) items)
  | JObj _ => "[object Object]"
  end.

(** ** Errors *)

Inductive JsError : Type :=
  | ReferenceError (name : string)
  | TypeError (what : string)
  | OtherError (what : string).

(** Result of code that returns or throws. *)
Inductive Exc (A : Type) : Type :=
  | Ok (a : A)
  | Throw (e : JsError).
Arguments Ok {A} a.
Arguments Throw {A} e.

Definition bindExc {A B} (m : Exc A) (k : A -> Exc B) : Exc B :=
  match m with
  | Ok a => k a
  | Throw e => Throw e
  end.

End JS.

(* ===================================================================== *)
(** * agent/thinking-levels.ts                                            *)
(* ===================================================================== *)

Module ThinkingLevels.

(** [type ThinkingLevel = 'off' | 'think' | 'max' | 'low' | 'medium' |
    'high' | 'xhigh'] *)
Inductive ThinkingLevel : Type :=
  | Off | Think | Max | Low | Medium | High | XHigh.

#[global] Instance ThinkingLevel_eq_dec : EqDecision ThinkingLevel.
Proof. solve_decision. Defined.

(** The string each level is in the source. *)
Definition levelName (l : ThinkingLevel) : string :=
  match l with
  | Off => "off" | Think => "think" | Max => "max" | Low => "low"
  | Medium => "medium" | High => "high" | XHigh => "xhigh"
  end.

(** [normalizeThinkingLevelForClaude] *)
Definition normalizeThinkingLevelForClaude (level : ThinkingLevel) : ThinkingLevel :=
  match level with
  | Off | Think | Max => level
  | Low => Off
  | Medium => Think
  | _ => Max
  end.

(** [!!modelId && modelId.includes('codex-mini')], for an optional id. *)
Definition isMini (modelId : option string) : bool :=
  match modelId with
  | None => false
  | Some m => negb (String.eqb m "") && JS.includes "codex-mini" m
  end.

(** [normalizeThinkingLevelForCodex]: the first [if] chain computes
    [normalized], the second block narrows it for a mini model. *)
Definition normalizeThinkingLevelForCodex
    (level : ThinkingLevel) (modelId : option string) : ThinkingLevel :=
  let normalized :=
    match level with
    | Low | Medium | High | XHigh => level
    | Off => Low
    | Think => Medium
    | _ => High
    end in
  if isMini modelId then
    match normalized with
    | Low => Medium
    | XHigh => High
    | _ => normalized
    end
  else normalized.

(** ** Display tables, token budgets and validation *)

(** [ThinkingLevelDefinition] *)
Record ThinkingLevelDefinition : Type := {
  level_id : ThinkingLevel;
  level_name : string;
  level_description : string
}.

(** [THINKING_LEVELS] *)
Definition THINKING_LEVELS : list ThinkingLevelDefinition :=
  [ {| level_id := Off; level_name := "No Thinking";
       level_description := "Fastest responses, no reasoning" |};
    {| level_id := Think; level_name := "Thinking";
       level_description := "Balanced speed and reasoning" |};
    {| level_id := Max; level_name := "Max Thinking";
       level_description := "Deepest reasoning for complex tasks" |};
    {| level_id := Low; level_name := "Low";
       level_description := "Light reasoning" |};
    {| level_id := Medium; level_name := "Medium";
       level_description := "Balanced reasoning depth" |};
    {| level_id := High; level_name := "High";
       level_description := "Deeper reasoning" |};
    {| level_id := XHigh; level_name := "Ultra High";
       level_description := "Deepest reasoning depth" |} ].

(** [CLAUDE_THINKING_LEVELS] *)
Definition CLAUDE_THINKING_LEVELS : list ThinkingLevelDefinition :=
  [ {| level_id := Off; level_name := "No Thinking";
       level_description := "Fastest responses, no reasoning" |};
    {| level_id := Think; level_name := "Thinking";
       level_description := "Balanced speed and reasoning" |};
    {| level_id := Max; level_name := "Max Thinking";
       level_description := "Deepest reasoning for complex tasks" |} ].

(** [CODEX_THINKING_LEVELS] *)
Definition CODEX_THINKING_LEVELS : list ThinkingLevelDefinition :=
  [ {| level_id := Low; level_name := "Low";
       level_description := "Light reasoning" |};
    {| level_id := Medium; level_name := "Medium";
       level_description := "Balanced reasoning depth" |};
    {| level_id := High; level_name := "High";
       level_description := "Deeper reasoning" |};
    {| level_id := XHigh; level_name := "Ultra High";
       level_description := "Deepest reasoning depth" |} ].

(** [CODEX_MINI_THINKING_LEVELS] *)
Definition CODEX_MINI_THINKING_LEVELS : list ThinkingLevelDefinition :=
  [ {| level_id := Medium; level_name := "Medium";
       level_description := "Balanced reasoning depth" |};
    {| level_id := High; level_name := "High";
       level_description := "Deeper reasoning" |} ].

(** [DEFAULT_THINKING_LEVEL] *)
Definition DEFAULT_THINKING_LEVEL : ThinkingLevel := Think.

(** One family of [TOKEN_BUDGETS]: an object with the keys [off],
    [think] and [max]. *)
Definition Budgets : Type := list (ThinkingLevel * Z).

(** [TOKEN_BUDGETS.haiku] *)
Definition TOKEN_BUDGETS_haiku : Budgets :=
  [ (Off, 0%Z); (Think, 4000%Z); (Max, 8000%Z) ].

(** [TOKEN_BUDGETS.default] *)
Definition TOKEN_BUDGETS_default : Budgets :=
  [ (Off, 0%Z); (Think, 10000%Z); (Max, 32000%Z) ].

(** [budgets[key]]: [None] is the [undefined] of a key the object does
    not have. *)
Fixpoint budgetAt (key : ThinkingLevel) (budgets : Budgets) : option Z :=
  match budgets with
  | [] => None
  | (k, tokens) :: rest =>
      if decide (k = key) then Some tokens else budgetAt key rest
  end.

(** [getThinkingTokens] *)
Definition getThinkingTokens (level : ThinkingLevel) (modelId : string) : option Z :=
  let isHaiku := JS.includes "haiku" (JS.toLowerCase modelId) in
  let budgets := if isHaiku then TOKEN_BUDGETS_haiku else TOKEN_BUDGETS_default in
  let normalized := normalizeThinkingLevelForClaude level in
  budgetAt normalized budgets.

(** [levels.find((l) => l.id === level)] *)
Fixpoint findLevel (level : ThinkingLevel) (levels : list ThinkingLevelDefinition)
    : option ThinkingLevelDefinition :=
  match levels with
  | [] => None
  | l :: rest => if decide (level_id l = level) then Some l else findLevel level rest
  end.

(** [getThinkingLevelName] *)
Definition getThinkingLevelName (level : ThinkingLevel) : string :=
  match findLevel level THINKING_LEVELS with
  | Some def => level_name def
  | None => levelName level
  end.

(** [isValidThinkingLevel], on any value. *)
Definition isValidThinkingLevel (value : JS.JsVal) : bool :=
  JS.strictEqStr value "off"
  || JS.strictEqStr value "think"
  || JS.strictEqStr value "max"
  || JS.strictEqStr value "low"
  || JS.strictEqStr value "medium"
  || JS.strictEqStr value "high"
  || JS.strictEqStr value "xhigh".

(** [getThinkingLevelsForModel(authType, modelId)]; [None] is a [null]
    or missing argument. *)
Definition getThinkingLevelsForModel (authType modelId : option string)
    : list ThinkingLevelDefinition :=
  let isCodex := match authType with
                 | Some a => String.eqb a "codex_oauth"
                 | None => false
                 end in
  if isCodex then
    if match modelId with
       | Some m => JS.includes "codex-mini" m
       | None => false
       end
    then CODEX_MINI_THINKING_LEVELS
    else CODEX_THINKING_LEVELS
  else CLAUDE_THINKING_LEVELS.

End ThinkingLevels.

(* ===================================================================== *)
(** * codex-auth.ts                                                       *)
(* ===================================================================== *)

Module CodexAuth.
Import JS.

(** What the reader sees of the file system: [existsSync], which never
    throws, and [readFileSync(path, 'utf-8')], which returns the text or
    throws. *)
Record FileSystem : Type := {
  existsSync : string -> bool;
  readFileSync : string -> Exc string
}.

(** One call of [debug(message, error)]. *)
Record DebugLine : Type := { debug_message : string; debug_error : JsError }.

Section Reader.

(** [JSON.parse]: the parsed value, or a throw on malformed text. *)
Variable JSON_parse : string -> Exc JsVal.

(** [join(homedir(), '.codex', 'auth.json')], fixed when the module loads. *)
Variable CODEX_AUTH_PATH : string.

(** Modelled from the spec: [debug] of [utils/debug.ts], a diagnostics
    logger: it records its arguments and returns. *)
Definition debug (message : string) (error : JsError) : list DebugLine :=
  [ {| debug_message := message; debug_error := error |} ].

(** The body of the [try] block. *)
Definition readCodexAuthFile_try (fs : FileSystem) : Exc JsVal :=
  if negb (existsSync fs CODEX_AUTH_PATH) then Ok JNull
  else bindExc (readFileSync fs CODEX_AUTH_PATH) (fun raw => JSON_parse raw).

(** [readCodexAuthFile]: the value returned or the error raised to the
    caller, and the diagnostics written. *)
Definition readCodexAuthFile (fs : FileSystem) : Exc JsVal * list DebugLine :=
  match readCodexAuthFile_try fs with
  | Ok v => (Ok v, [])
  | Throw error =>
      (Ok JNull,
       debug ("[codex-auth] Failed to read " +:+ CODEX_AUTH_PATH +:+ ":") error)
  end.

End Reader.

Section Status.

Variable JSON_parse : string -> Exc JsVal.
Variable CODEX_AUTH_PATH : string.

(** [CodexAuthStatus]: the four token fields are cast unchecked, so they
    hold whatever the file holds, or [null]. *)
Record CodexAuthStatus : Type := {
  hasToken : bool;
  accessToken : JsVal;
  refreshToken : JsVal;
  accountId : JsVal;
  lastRefresh : JsVal
}.

(** The status computed from what [readCodexAuthFile] returned. *)
Definition statusOfFile (file : JsVal) : CodexAuthStatus :=
  let tokens := coalesce (prop file "tokens") JNull in
  let accessToken := coalesce (prop tokens "access_token") JNull in
  let refreshToken := coalesce (prop tokens "refresh_token") JNull in
  let accountId := coalesce (prop tokens "account_id") JNull in
  let lastRefresh := coalesce (prop file "last_refresh") JNull in
  {| hasToken := truthy accessToken;
     accessToken := accessToken;
     refreshToken := refreshToken;
     accountId := accountId;
     lastRefresh := lastRefresh |}.

(** [getCodexAuthStatus] *)
Definition getCodexAuthStatus (fs : FileSystem) : Exc CodexAuthStatus * list DebugLine :=
  let '(file, log) := readCodexAuthFile JSON_parse CODEX_AUTH_PATH fs in
  (bindExc file (fun file => Ok (statusOfFile file)), log).

(** [getCodexAccessToken] *)
Definition getCodexAccessToken (fs : FileSystem) : Exc JsVal * list DebugLine :=
  let '(status, log) := getCodexAuthStatus fs in
  (bindExc status (fun status => Ok (accessToken status)), log).

(** [getCodexAuthFilePath] *)
Definition getCodexAuthFilePath : string := CODEX_AUTH_PATH.

End Status.

End CodexAuth.

(* ===================================================================== *)
(** * title-generator.ts                                                  *)
(* ===================================================================== *)

Module TitleGenerator.
Import JS.

(** A content block of an assistant message of the Claude SDK. *)
Record ContentBlock : Type := { block_type : string; block_text : string }.

(** A message yielded by [query()]: its [type] and, for an assistant
    message, [message.content]. *)
Record SDKMessage : Type := {
  message_type : string;
  message_content : list ContentBlock
}.

(** The collaborators of the title generator.
    - [getAuthType ()];
    - [codexRun prompt]: loading the Codex SDK, starting the summarisation
      thread and [await thread.run(prompt)]: the run result, or the error
      any of these steps throws;
    - [query prompt]: building the options and iterating
      [query({ prompt, options })]: the messages yielded and, when the
      iteration (or the set-up before it) throws, the error. *)
Record Env : Type := {
  getAuthType : string;
  codexRun : string -> Exc JsVal;
  query : string -> list SDKMessage * option JsError
}.

(** A double quote. *)
Definition DQ : string := String (ascii_of_N 34) EmptyString.

Definition quoted (s : string) : string := DQ +:+ s +:+ DQ.

Definition examplesLine : string :=
  "Examples: " +:+ quoted "Fix authentication bug" +:+ ", " +:+
  quoted "Add dark mode" +:+ ", " +:+ quoted "Refactor API layer" +:+ ", " +:+
  quoted "Explain codebase structure".

(** The guard that ends each of the three functions:
    [if (trimmed && trimmed.length > 0 && trimmed.length < 100) return trimmed;
     return null;] *)
Definition acceptTitle (trimmed : string) : option string :=
  if negb (String.eqb trimmed "")
     && (0 <? String.length trimmed)%nat
     && (String.length trimmed <? 100)%nat
  then Some trimmed
  else None.

(** [generateTitleWithCodex]: [(result?.finalResponse ?? '').trim()] throws
    when the response is not a string; every throw is caught and gives
    [null]. *)
Definition generateTitleWithCodex (env : Env) (prompt : string) : option string :=
  let attempt : Exc (option string) :=
    bindExc (codexRun env prompt) (fun result =>
      match coalesce (prop result "finalResponse") (JStr "") with
      | JStr response => Ok (acceptTitle (trim response))
      | _ => Throw (TypeError "trim is not a function")
      end) in
  match attempt with
  | Ok r => r
  | Throw _ => None
  end.

(** The text of one message: the [text] blocks of an assistant message. *)
Definition messageText (m : SDKMessage) : string :=
  if String.eqb (message_type m) "assistant" then
    fold_left
      (fun acc b =>
         if String.eqb (block_type b) "text" then acc +:+ block_text b else acc)
      (message_content m) ""
  else "".

(** The [for await] loop: [title] after all messages. *)
Definition collectTitle (messages : list SDKMessage) : string :=
  fold_left (fun title m => title +:+ messageText m) messages "".

Definition sessionPrompt (userMessage : string) : string :=
  join LF
    [ "What is the user trying to do? Reply with ONLY a short task description (2-5 words).";
      "Start with a verb. Use plain text only - no markdown.";
      examplesLine;
      "";
      "User: " +:+ slice0 500 userMessage;
      "";
      "Task:" ].

(** [generateSessionTitle] *)
Definition generateSessionTitle (env : Env) (userMessage : string) : option string :=
  let prompt := sessionPrompt userMessage in
  if String.eqb (getAuthType env) "codex_oauth" then
    generateTitleWithCodex env prompt
  else
    match query env prompt with
    | (messages, None) => acceptTitle (trim (collectTitle messages))
    | (_, Some _) => None
    end.

Definition regeneratePrompt
    (recentUserMessages : list string) (lastAssistantResponse : string) : string :=
  let userContext := join (LF +:+ LF) (map (slice0 300) recentUserMessages) in
  let assistantSnippet := slice0 500 lastAssistantResponse in
  join LF
    [ "Based on these recent messages, what is the current focus of this conversation?";
      "Reply with ONLY a short task description (2-5 words).";
      "Start with a verb. Use plain text only - no markdown.";
      examplesLine;
      "";
      "Recent user messages:";
      userContext;
      "";
      "Latest assistant response:";
      assistantSnippet;
      "";
      "Current focus:" ].

(** [regenerateSessionTitle] *)
Definition regenerateSessionTitle (env : Env)
    (recentUserMessages : list string) (lastAssistantResponse : string)
    : option string :=
  let prompt := regeneratePrompt recentUserMessages lastAssistantResponse in
  if String.eqb (getAuthType env) "codex_oauth" then
    generateTitleWithCodex env prompt
  else
    match query env prompt with
    | (messages, None) => acceptTitle (trim (collectTitle messages))
    | (_, Some _) => None
    end.

End TitleGenerator.

(* ===================================================================== *)
(** * agent/codex-agent.ts                                                *)
(* ===================================================================== *)

Module CodexAgent.
Import JS ThinkingLevels.

Notation "v ~> k" := (prop v k) (at level 40, left associativity).
Notation "a ?? b" := (coalesce a b) (at level 45, left associativity).

(** ** Thread options and the SDK's thread handle *)

(** The options object of [buildThreadOptions]: a key is absent when its
    field is [None]. *)
Record ThreadOptions : Type := {
  opt_model : option string;
  opt_workingDirectory : option string;
  opt_skipGitRepoCheck : bool;
  opt_modelReasoningEffort : option ThinkingLevel
}.

(** Modelled from the spec: the thread handle of the Codex SDK, as far as
    the agent reads it: its external id ([id?: string | null]) and the
    options it was made with. *)
Record CodexThread : Type := {
  thread_id : option string;
  thread_options : ThreadOptions
}.

(** Modelled from the spec: [codex.resumeThread(id, options)] returns a
    handle on the external thread [id]. *)
Definition resumeThread (id : string) (options : ThreadOptions) : CodexThread :=
  {| thread_id := Some id; thread_options := options |}.

(** Modelled from the spec: [codex.startThread(options)] returns a handle
    whose id is assigned by the first run. *)
Definition startThread (options : ThreadOptions) : CodexThread :=
  {| thread_id := None; thread_options := options |}.

(** The connection object made from [codexInit]. *)
Record Codex : Type := { codexPathOverride : string }.

(** The fields of a [CodexAgent] that the modelled methods read or write.
    [sdkSessionId] is [config.session?.sdkSessionId]; [sdkSessionIdUpdates]
    lists the arguments [config.onSdkSessionIdUpdate] was called with. *)
Record Agent : Type := {
  sdkSessionId : option string;
  codex : option Codex;
  thread : option CodexThread;
  model : option string;
  thinkingLevel : ThinkingLevel;
  ultrathinkOverride : bool;
  workingDirectory : option string;
  sdkSessionIdUpdates : list string
}.

Definition withModel (m : option string) (a : Agent) : Agent :=
  {| sdkSessionId := sdkSessionId a; codex := codex a; thread := thread a;
     model := m; thinkingLevel := thinkingLevel a;
     ultrathinkOverride := ultrathinkOverride a;
     workingDirectory := workingDirectory a;
     sdkSessionIdUpdates := sdkSessionIdUpdates a |}.

Definition withThinkingLevel (l : ThinkingLevel) (a : Agent) : Agent :=
  {| sdkSessionId := sdkSessionId a; codex := codex a; thread := thread a;
     model := model a; thinkingLevel := l;
     ultrathinkOverride := ultrathinkOverride a;
     workingDirectory := workingDirectory a;
     sdkSessionIdUpdates := sdkSessionIdUpdates a |}.

Definition withUltrathinkOverride (b : bool) (a : Agent) : Agent :=
  {| sdkSessionId := sdkSessionId a; codex := codex a; thread := thread a;
     model := model a; thinkingLevel := thinkingLevel a;
     ultrathinkOverride := b;
     workingDirectory := workingDirectory a;
     sdkSessionIdUpdates := sdkSessionIdUpdates a |}.

Definition withThread (t : option CodexThread) (a : Agent) : Agent :=
  {| sdkSessionId := sdkSessionId a; codex := codex a; thread := t;
     model := model a; thinkingLevel := thinkingLevel a;
     ultrathinkOverride := ultrathinkOverride a;
     workingDirectory := workingDirectory a;
     sdkSessionIdUpdates := sdkSessionIdUpdates a |}.

Definition withCodex (c : option Codex) (a : Agent) : Agent :=
  {| sdkSessionId := sdkSessionId a; codex := c; thread := thread a;
     model := model a; thinkingLevel := thinkingLevel a;
     ultrathinkOverride := ultrathinkOverride a;
     workingDirectory := workingDirectory a;
     sdkSessionIdUpdates := sdkSessionIdUpdates a |}.

Definition withSdkSessionIdUpdate (id : string) (a : Agent) : Agent :=
  {| sdkSessionId := sdkSessionId a; codex := codex a; thread := thread a;
     model := model a; thinkingLevel := thinkingLevel a;
     ultrathinkOverride := ultrathinkOverride a;
     workingDirectory := workingDirectory a;
     sdkSessionIdUpdates := sdkSessionIdUpdates a ++ [id] |}.

(** An optional string that is truthy: present and not empty. *)
Definition truthyString (s : option string) : option string :=
  match s with
  | Some x => if String.eqb x "" then None else Some x
  | None => None
  end.

(** [buildThreadOptions].  [thinkingLevel] is one of seven non-empty
    strings, so the test [ultrathinkOverride || thinkingLevel] succeeds. *)
Definition buildThreadOptions (a : Agent) : ThreadOptions :=
  let level := if ultrathinkOverride a then XHigh else thinkingLevel a in
  {| opt_model := truthyString (model a);
     opt_workingDirectory := truthyString (workingDirectory a);
     opt_skipGitRepoCheck := true;
     opt_modelReasoningEffort :=
       Some (normalizeThinkingLevelForCodex level (model a)) |}.

(** [this.thread?.id], when truthy. *)
Definition knownThreadId (a : Agent) : option string :=
  match thread a with
  | Some t => truthyString (thread_id t)
  | None => None
  end.

(** [setModel] *)
Definition setModel (m : string) (a : Agent) : Agent :=
  let a := withModel (Some m) a in
  match knownThreadId a, codex a with
  | Some id, Some _ => withThread (Some (resumeThread id (buildThreadOptions a))) a
  | _, _ => withThread None a
  end.

(** [setThinkingLevel] *)
Definition setThinkingLevel (level : ThinkingLevel) (a : Agent) : Agent :=
  let a := withThinkingLevel level a in
  match knownThreadId a, codex a with
  | Some id, Some _ => withThread (Some (resumeThread id (buildThreadOptions a))) a
  | _, _ => withThread None a
  end.

(** [setUltrathinkOverride]: the [if] has no [else]. *)
Definition setUltrathinkOverride (enabled : bool) (a : Agent) : Agent :=
  let a := withUltrathinkOverride enabled a in
  match knownThreadId a, codex a with
  | Some id, Some _ => withThread (Some (resumeThread id (buildThreadOptions a))) a
  | _, _ => a
  end.

(** [ensureCodex], given what loading the SDK and constructing the
    connection gives. *)
Definition ensureCodex (create : Exc Codex) (a : Agent) : Exc Codex * Agent :=
  match codex a with
  | Some c => (Ok c, a)
  | None =>
      match create with
      | Ok c => (Ok c, withCodex (Some c) a)
      | Throw e => (Throw e, a)
      end
  end.

(** [ensureThread] *)
Definition ensureThread (create : Exc Codex) (a : Agent) : Exc CodexThread * Agent :=
  match thread a with
  | Some t => (Ok t, a)
  | None =>
      match ensureCodex create a with
      | (Throw e, a) => (Throw e, a)
      | (Ok _, a) =>
          let threadOptions := buildThreadOptions a in
          let t := match truthyString (sdkSessionId a) with
                   | Some existingId => resumeThread existingId threadOptions
                   | None => startThread threadOptions
                   end in
          let a := withThread (Some t) a in
          let a := match truthyString (thread_id t) with
                   | Some id => withSdkSessionIdUpdate id a
                   | None => a
                   end in
          (Ok t, a)
      end
  end.

(** ** Field extractors *)

(** [extractTextDelta] *)
Definition extractTextDelta (event : JsVal) : option string :=
  if negb (isObjectLike event) then None else
  let data := event in
  let params := data ~> "params" in
  let delta := data ~> "delta" ?? params ~> "delta" in
  let item := data ~> "item" ?? params ~> "item" in
  let text :=
    delta ~> "text" ??
    params ~> "text" ??
    data ~> "text" ??
    data ~> "output_text" ??
    data ~> "outputText" ??
    item ~> "text" ??
    item ~> "content" in
  asNonEmptyString text.

(** [extractTextComplete] *)
Definition extractTextComplete (event : JsVal) : option string :=
  if negb (isObjectLike event) then None else
  let data := event in
  let params := data ~> "params" in
  let item := data ~> "item" ?? params ~> "item" in
  let text :=
    params ~> "text" ??
    data ~> "text" ??
    data ~> "output_text" ??
    data ~> "outputText" ??
    item ~> "text" ??
    item ~> "content" in
  asNonEmptyString text.

(** [{ toolName, toolUseId, input }]: the casts of the source are not
    checked, so the fields hold whatever the event holds. *)
Record ToolInfo : Type := {
  toolName : JsVal;
  toolUseId : JsVal;
  input : JsVal
}.

(** [extractToolInfo] *)
Definition extractToolInfo (event : JsVal) : option ToolInfo :=
  if negb (isObjectLike event) then None else
  let data := event in
  let params := data ~> "params" in
  let item := data ~> "item" ?? params ~> "item" in
  let toolName :=
    data ~> "tool_name" ??
    data ~> "toolName" ??
    data ~> "tool" ~> "name" ??
    item ~> "name" ??
    data ~> "name" in
  let toolUseId :=
    data ~> "tool_call_id" ??
    data ~> "toolUseId" ??
    data ~> "id" ??
    data ~> "tool" ~> "id" ??
    item ~> "id" ??
    params ~> "itemId" in
  let input :=
    data ~> "input" ??
    data ~> "arguments" ??
    data ~> "tool" ~> "input" ??
    item ~> "input" in
  if negb (truthy toolName) || negb (truthy toolUseId) then None
  else Some {| toolName := toolName; toolUseId := toolUseId; input := input |}.

(** [extractParentToolUseId(event) ?? undefined]: the parent when truthy. *)
Definition extractParentToolUseId (event : JsVal) : option JsVal :=
  if negb (isObjectLike event) then None else
  let data := event in
  let params := data ~> "params" in
  let item := data ~> "item" ?? params ~> "item" in
  let parent :=
    data ~> "parent_tool_use_id" ??
    data ~> "parentToolUseId" ??
    data ~> "parent_id" ??
    params ~> "parent_item_id" ??
    params ~> "parentItemId" ??
    item ~> "parent_id" ??
    item ~> "parentId" in
  if truthy parent then Some parent else None.

(** [extractIntentDisplayName(input, event, item)]; an argument left out
    is [JUndef]. *)
Definition extractIntentDisplayName (input event item : JsVal)
    : option string * option string :=
  let intent :=
    input ~> "_intent" ?? event ~> "intent" ?? item ~> "intent" ??
    event ~> "tool_intent" in
  let displayName :=
    input ~> "_displayName" ?? event ~> "displayName" ??
    item ~> "_displayName" ?? item ~> "displayName" in
  (asString intent, asString displayName).

(** [extractEventType] *)
Definition extractEventType (event : JsVal) : option string :=
  if negb (isObjectLike event) then None else
  let data := event in
  asString (data ~> "type" ?? data ~> "event" ?? data ~> "method").

(** [isItemEvent] *)
Definition isItemEvent (type : string) : bool :=
  includes "item." type || includes "item/" type || includes "item_" type.

(** [getItemType] *)
Definition getItemType (event : JsVal) : option string :=
  if negb (isObjectLike event) then None else
  let data := event in
  let params := data ~> "params" in
  let item := data ~> "item" ?? params ~> "item" in
  asString (item ~> "type" ?? data ~> "item_type" ?? data ~> "itemType").

(** [itemType?.replaceAll('_', '')?.replaceAll('-', '')?.toLowerCase()] *)
Definition normalizeItemType (itemType : option string) : option string :=
  match itemType with
  | Some t => Some (toLowerCase (removeAll "-" (removeAll "_" t)))
  | None => None
  end.

(** [normalizedItemType === lit] *)
Definition itemTypeIs (normalizedItemType : option string) (lit : string) : bool :=
  match normalizedItemType with
  | Some t => String.eqb t lit
  | None => false
  end.

(** ** Tool results *)

Record ToolResult : Type := {
  tr_toolUseId : JsVal;
  tr_result : string;
  tr_isError : bool
}.

(** [typeof v === 'number'] *)
Definition isNumber (v : JsVal) : bool :=
  match v with
  | JNum _ => true
  | _ => false
  end.

(** [typeof exitCode === 'number' && exitCode !== 0] *)
Definition nonZeroExit (exitCode : JsVal) : bool :=
  match exitCode with
  | JNum n => negb (n =? 0)%Z
  | _ => false
  end.

(** [normalizeToolResult].  In the operand of [Boolean(...)] the
    comparison [item?.status === 'failed'] binds tighter than [??]: the
    chain is
    [is_error ?? isError ?? (status === 'failed') ?? error ?? (exit test)],
    written here operand by operand. *)
Definition normalizeToolResult (event : JsVal) : option ToolResult :=
  if negb (isObjectLike event) then None else
  let data := event in
  let params := data ~> "params" in
  let item := data ~> "item" ?? params ~> "item" in
  let stderr :=
    data ~> "stderr" ?? params ~> "stderr" ?? item ~> "stderr" ?? item ~> "error" in
  let exitCode :=
    data ~> "exit_code" ?? data ~> "exitCode" ?? params ~> "exit_code" ??
    params ~> "exitCode" ?? item ~> "exit_code" ?? item ~> "exitCode" in
  let result :=
    data ~> "result" ??
    data ~> "output" ??
    params ~> "output" ??
    params ~> "delta" ??
    item ~> "output" ??
    item ~> "result" ??
    item ~> "aggregatedOutput" in
  let toolUseId :=
    data ~> "tool_call_id" ?? data ~> "toolUseId" ?? data ~> "id" ??
    item ~> "id" ?? params ~> "itemId" in
  let isError :=
    truthy (data ~> "is_error" ??
            data ~> "isError" ??
            JBool (strictEqStr (item ~> "status") "failed") ??
            item ~> "error" ??
            JBool (nonZeroExit exitCode)) in
  match result with
  | JUndef => None
  | _ =>
      if negb (truthy toolUseId) then None
      else
        let resultWithMeta :=
          if truthy stderr
          then ToString result +:+ LF +:+ LF +:+ "[stderr]" +:+ LF +:+ ToString stderr
          else ToString result in
        Some {| tr_toolUseId := toolUseId;
                tr_result := resultWithMeta;
                tr_isError := isError |}
  end.

(** ** Items mapped to tool calls *)

(** [mapCommandItemToTool] *)
Definition mapCommandItemToTool (item : JsVal) : option ToolInfo :=
  let command :=
    item ~> "command" ?? item ~> "cmd" ?? item ~> "shell" ?? item ~> "input" in
  let id := item ~> "id" in
  if negb (truthy id) then None
  else Some {| toolName := JStr "bash";
               toolUseId := id;
               input := JObj [("command", command)] |}.

(** [parts[i]] of a split, inside a template literal. *)
Definition part (i : nat) (parts : list string) : string :=
  match parts !! i with
  | Some p => p
  | None => "undefined"
  end.

(** [normalizeMcpToolName(toolName, item)] *)
Definition normalizeMcpToolName (toolName : string) (item : JsVal) : string :=
  if startsWith "mcp__" toolName then toolName else
  let sourceHint :=
    item ~> "source" ?? item ~> "provider" ?? item ~> "mcp" ??
    item ~> "server" ?? item ~> "client" in
  let dotParts := split "." toolName in
  if (List.length dotParts =? 3)%nat && String.eqb (part 0 dotParts) "mcp" then
    "mcp__" +:+ part 1 dotParts +:+ "__" +:+ part 2 dotParts
  else if (List.length dotParts =? 2)%nat then
    "mcp__" +:+ part 0 dotParts +:+ "__" +:+ part 1 dotParts
  else
  let colonParts := split ":" toolName in
  if (List.length colonParts =? 2)%nat then
    "mcp__" +:+ part 0 colonParts +:+ "__" +:+ part 1 colonParts
  else
  let slashParts := split "/" toolName in
  if (List.length slashParts =? 2)%nat then
    "mcp__" +:+ part 0 slashParts +:+ "__" +:+ part 1 slashParts
  else
  if truthy sourceHint then
    "mcp__" +:+ ToString sourceHint +:+ "__" +:+ toolName
  else toolName.

(** [mapMcpItemToTool]: the name is cast to [string] unchecked, and
    [normalizeMcpToolName] calls [startsWith] on it: a truthy name that is
    not a string throws. *)
Definition mapMcpItemToTool (item : JsVal) : Exc (option ToolInfo) :=
  let toolName :=
    item ~> "tool_name" ?? item ~> "toolName" ?? item ~> "tool" ?? item ~> "name" in
  let id := item ~> "id" in
  let input := item ~> "input" ?? item ~> "arguments" in
  if negb (truthy toolName) || negb (truthy id) then Ok None
  else
    match toolName with
    | JStr name =>
        Ok (Some {| toolName := JStr (normalizeMcpToolName name item);
                    toolUseId := id;
                    input := input |})
    | _ => Throw (TypeError "toolName.startsWith is not a function")
    end.

(** ** The chat generator *)

(** The events [chat] yields ([AgentEvent]). *)
Inductive AgentEvent : Type :=
  | info (message : string)
  | text_delta (text : string)
  | text_complete (text : string)
  | tool_start (toolName toolUseId input : JsVal)
               (intent displayName : option string)
               (parentToolUseId : option JsVal)
  | tool_result (toolUseId : JsVal) (result : string) (isError : bool)
  | parent_update (toolUseId parentToolUseId : JsVal)
  | complete.

(** What a turn reads and writes while it runs: the local [finalText],
    the agent's [toolParents] map and the calls of
    [config.onSdkSessionIdUpdate].  The keys of the map are compared by
    value, as [Map] compares strings (the declared type of an id),
    numbers and booleans.  An object or array used as an id, which [Map]
    compares by identity, is compared by structure here: for such an id
    the model can find an entry where the source finds none, so what is
    stated about the entry of an id is stated for the ids compared by
    value. *)
Record ChatState : Type := {
  finalText : string;
  toolParents : gmap JsVal JsVal;
  sessionIdUpdates : list string
}.

Definition withFinalText (t : string) (st : ChatState) : ChatState :=
  {| finalText := t; toolParents := toolParents st;
     sessionIdUpdates := sessionIdUpdates st |}.

(** [this.toolParents.set(child, parent)] *)
Definition setToolParent (child parent : JsVal) (st : ChatState) : ChatState :=
  {| finalText := finalText st;
     toolParents := <[child := parent]> (toolParents st);
     sessionIdUpdates := sessionIdUpdates st |}.

(** [this.config.onSdkSessionIdUpdate?.(threadId)] *)
Definition notifySessionId (threadId : string) (st : ChatState) : ChatState :=
  {| finalText := finalText st; toolParents := toolParents st;
     sessionIdUpdates := sessionIdUpdates st ++ [threadId] |}.

(** [if (parentToolUseId) this.toolParents.set(id, parentToolUseId)] *)
Definition recordParent (id : JsVal) (parentToolUseId : option JsVal)
    (st : ChatState) : ChatState :=
  match parentToolUseId with
  | Some parent => setToolParent id parent st
  | None => st
  end.

(** [this.toolParents.has(id)] *)
Definition hasToolParent (id : JsVal) (st : ChatState) : bool :=
  match toolParents st !! id with
  | Some _ => true
  | None => false
  end.

(** One iteration of a loop: the state after it, the events it yields and
    the error it throws, if any. *)
Definition Step : Type := ChatState * list AgentEvent * option JsError.

Definition continue (st : ChatState) (yielded : list AgentEvent) : Step :=
  (st, yielded, None).

(** [x] when the test holds: the shape [x && test] of the rules. *)
Definition when {A} (test : bool) (x : option A) : option A :=
  if test then x else None.

(** The [tool_start] event of a mapped or generic tool call. *)
Definition toolStartEvent (t : ToolInfo) (fields : option string * option string)
    (parentToolUseId : option JsVal) : AgentEvent :=
  tool_start (toolName t) (toolUseId t) (input t ?? JObj [])
             (fst fields) (snd fields) parentToolUseId.

Definition toolResultEvent (r : ToolResult) : AgentEvent :=
  tool_result (tr_toolUseId r) (tr_result r) (tr_isError r).

(** The tool-result rule, shared by the streamed loop and the async
    fallback loop: a [parent_update] first when the parent of this id is
    seen for the first time. *)
Definition yieldToolResult (toolResult : ToolResult)
    (parentToolUseId : option JsVal) (st : ChatState) : Step :=
  match parentToolUseId with
  | Some parent =>
      if negb (hasToolParent (tr_toolUseId toolResult) st) then
        continue (setToolParent (tr_toolUseId toolResult) parent st)
                 [parent_update (tr_toolUseId toolResult) parent;
                  toolResultEvent toolResult]
      else continue st [toolResultEvent toolResult]
  | None => continue st [toolResultEvent toolResult]
  end.

(** Lines 788-793: a [thread.started] event reports its thread id; the
    event is then checked against the other rules like any other. *)
Definition onThreadStarted (type : string) (event : JsVal) (st : ChatState)
    : ChatState :=
  if String.eqb type "thread.started" then
    match asNonEmptyString (event ~> "thread_id") with
    | Some threadId => notifySessionId threadId st
    | None => st
    end
  else st.

(** The body of [for await (const event of events)] on the streamed
    path (lines 787-902). *)
Definition streamedStep (st : ChatState) (event : JsVal) : Step :=
  let type := default "" (extractEventType event) in
  let st := onThreadStarted type event st in
  let textDelta := extractTextDelta event in
  let textComplete := extractTextComplete event in
  let toolInfo := extractToolInfo event in
  let itemType := getItemType event in
  let normalizedItemType := normalizeItemType itemType in
  let parentToolUseId := extractParentToolUseId event in
  match when (includes "delta" type || itemTypeIs normalizedItemType "agentmessage")
             textDelta with
  | Some textDelta =>
      continue (withFinalText (finalText st +:+ textDelta) st) [text_delta textDelta]
  | None =>
  if String.eqb type "item/commandExecution/outputDelta" then
    match normalizeToolResult event with
    | Some toolResult => continue st [toolResultEvent toolResult]
    | None => continue st []
    end
  else
  if String.eqb type "item/fileChange/outputDelta" then
    match normalizeToolResult event with
    | Some toolResult => continue st [toolResultEvent toolResult]
    | None => continue st []
    end
  else
  if isItemEvent type && itemTypeIs normalizedItemType "commandexecution" then
    let item := event ~> "item" ?? event ~> "params" ~> "item" in
    if truthy item then
      match mapCommandItemToTool item with
      | Some mapped =>
          let fields := extractIntentDisplayName (input mapped) event item in
          continue (recordParent (toolUseId mapped) parentToolUseId st)
                   [toolStartEvent mapped fields parentToolUseId]
      | None => continue st []
      end
    else continue st []
  else
  if isItemEvent type && itemTypeIs normalizedItemType "mcptoolcall" then
    let item := event ~> "item" ?? event ~> "params" ~> "item" in
    if truthy item then
      match mapMcpItemToTool item with
      | Throw e => (st, [], Some e)
      | Ok (Some mapped) =>
          let fields := extractIntentDisplayName (input mapped) event item in
          continue (recordParent (toolUseId mapped) parentToolUseId st)
                   [toolStartEvent mapped fields parentToolUseId]
      | Ok None => continue st []
      end
    else continue st []
  else
  match when (includes "tool" type) toolInfo with
  | Some toolInfo =>
      let fields := extractIntentDisplayName (input toolInfo) event JUndef in
      continue (recordParent (toolUseId toolInfo) parentToolUseId st)
               [toolStartEvent toolInfo fields parentToolUseId]
  | None =>
  match when (includes "completed" type || String.eqb type "item/completed")
             (normalizeToolResult event) with
  | Some toolResult => yieldToolResult toolResult parentToolUseId st
  | None =>
  match when (includes "completed" type || itemTypeIs normalizedItemType "agentmessage")
             textComplete with
  | Some textComplete =>
      continue (withFinalText textComplete st) [text_complete textComplete]
  | None => continue st []
  end end end end.

(** The body of the fallback loop over an async-iterable event collection
    (lines 912-954). *)
Definition asyncFallbackStep (st : ChatState) (event : JsVal) : Step :=
  let type := default "" (extractEventType event) in
  let textDelta := extractTextDelta event in
  let textComplete := extractTextComplete event in
  let toolInfo := extractToolInfo event in
  let parentToolUseId := extractParentToolUseId event in
  match textDelta with
  | Some textDelta =>
      continue (withFinalText (finalText st +:+ textDelta) st) [text_delta textDelta]
  | None =>
  match when (includes "tool" type) toolInfo with
  | Some toolInfo =>
      let fields := extractIntentDisplayName (input toolInfo) event JUndef in
      continue (recordParent (toolUseId toolInfo) parentToolUseId st)
               [toolStartEvent toolInfo fields parentToolUseId]
  | None =>
  match when (includes "completed" type) (normalizeToolResult event) with
  | Some toolResult => yieldToolResult toolResult parentToolUseId st
  | None =>
  match textComplete with
  | Some textComplete =>
      continue (withFinalText textComplete st) [text_complete textComplete]
  | None => continue st []
  end end end end.

(** The body of the fallback loop over a sync-iterable event collection
    (lines 958-962). *)
Definition syncFallbackStep (st : ChatState) (event : JsVal) : Step :=
  match extractTextDelta event with
  | Some textDelta =>
      continue (withFinalText (finalText st +:+ textDelta) st) [text_delta textDelta]
  | None => continue st []
  end.

(** A loop over a finite event source: the bodies in order, until one
    throws. *)
Fixpoint runLoop (body : ChatState -> JsVal -> Step)
    (st : ChatState) (events : list JsVal) : Step :=
  match events with
  | [] => continue st []
  | event :: rest =>
      match body st event with
      | (st', yielded, Some e) => (st', yielded, Some e)
      | (st', yielded, None) =>
          let '(st'', later, r) := runLoop body st' rest in
          (st'', yielded ++ later, r)
      end
  end.

(** [runResult.events], through its declared type
    [AsyncIterable<unknown> | Iterable<unknown>]: absent (or falsy), an
    async iterable, or a sync iterable, each with the events it
    delivers. *)
Inductive RunEvents : Type :=
  | NoEvents
  | AsyncEvents (events : list JsVal)
  | SyncEvents (events : list JsVal).

(** The thread handle as [chat] uses it: [runStreamed], when the handle
    has it, gives the events of the stream ([streamed.events ?? streamed]);
    [run] gives the run result: its plain fields and its event
    collection.  Both take the message. *)
Record ThreadRuns : Type := {
  runStreamed : option (string -> list JsVal);
  run : string -> JsVal * RunEvents
}.

(** [FileAttachment], as far as [chat] reads it: it only counts them. *)
Record FileAttachment : Type := { attachment_path : string }.

(** The fallback path (lines 905-969): [resultText] lives in this block
    only.  Reading [events] off a run result that is [null] or
    [undefined] throws. *)
Definition fallbackPath (st : ChatState) (runResult : JsVal) (events : RunEvents)
    : Step :=
  let resultText := extractTextComplete runResult in
  match runResult with
  | JUndef | JNull => (st, [], Some (TypeError "Cannot read properties (reading 'events')"))
  | _ =>
      let '(st, yielded, thrown) :=
        match events with
        | NoEvents => continue st []
        | AsyncEvents events => runLoop asyncFallbackStep st events
        | SyncEvents events => runLoop syncFallbackStep st events
        end in
      match thrown with
      | Some e => (st, yielded, Some e)
      | None =>
          match when (String.eqb (finalText st) "") resultText with
          | Some resultText => continue (withFinalText resultText st) yielded
          | None => continue st yielded
          end
      end
  end.

(** How a turn ends: the generator returns, or an error reaches the
    consumer after the events yielded so far. *)
Inductive Outcome : Type :=
  | Returned
  | Threw (e : JsError).

Record ChatRun : Type := {
  yielded : list AgentEvent;
  outcome : Outcome;
  finalState : ChatState
}.

(** Lines 972-981, after the two paths.  The test on line 973 reads
    [resultText], a [const] of the [else] block that closed on line 970:
    the name is not bound here, so evaluating it throws a
    [ReferenceError].  [&&] evaluates it only when
    [finalText.length === 0]. *)
Definition finishTurn (st : ChatState) : list AgentEvent * Outcome :=
  if String.eqb (finalText st) "" then
    ([], Threw (ReferenceError "resultText"))
  else
    ([text_complete (finalText st); complete], Returned).

(** Lines 782-970 of [chat]: the streamed loop when the handle has
    [runStreamed], the fallback path otherwise, from an empty
    [finalText]. *)
Definition chatLoop (thread : ThreadRuns) (parents : gmap JsVal JsVal)
    (message : string) : Step :=
  let st := {| finalText := ""; toolParents := parents; sessionIdUpdates := [] |} in
  match runStreamed thread with
  | Some runStreamed => runLoop streamedStep st (runStreamed message)
  | None =>
      let '(runResult, events) := run thread message in
      fallbackPath st runResult events
  end.

(** [chat(message, attachments)], on the thread [ensureThread] gave and
    with the agent's parent map: the events yielded in order, how the
    turn ended, and the state left. *)
Definition chat (thread : ThreadRuns) (parents : gmap JsVal JsVal)
    (message : string) (attachments : option (list FileAttachment)) : ChatRun :=
  let notice :=
    match attachments with
    | Some (_ :: _) => [info "Codex SDK currently ignores file attachments."]
    | _ => []
    end in
  let '(st, fromLoop, thrown) := chatLoop thread parents message in
  match thrown with
  | Some e =>
      {| yielded := notice ++ fromLoop; outcome := Threw e; finalState := st |}
  | None =>
      let '(last, how) := finishTurn st in
      {| yielded := notice ++ fromLoop ++ last; outcome := how; finalState := st |}
  end.


(** ** Construction and run options *)

(** [CodexAgentConfig], as far as the constructor reads it;
    [cfg_sdkSessionId] and [cfg_workingDirectory] are the fields of
    [config.session]. *)
Record CodexAgentConfig : Type := {
  cfg_sdkSessionId : option string;
  cfg_workingDirectory : option string;
  cfg_model : option string;
  cfg_thinkingLevel : option ThinkingLevel;
  cfg_proxyUrl : option string;
  cfg_authType : option string
}.

(** The fields the constructor gives a new [CodexAgent] (lines 404-431);
    [thinkingLevel] is [config.thinkingLevel ?? 'think']. *)
Definition newAgent (config : CodexAgentConfig) : Agent :=
  {| sdkSessionId := cfg_sdkSessionId config;
     codex := None;
     thread := None;
     model := cfg_model config;
     thinkingLevel := default Think (cfg_thinkingLevel config);
     ultrathinkOverride := false;
     workingDirectory := cfg_workingDirectory config;
     sdkSessionIdUpdates := [] |}.

(** [getSessionId]: [this.thread?.id ?? null] *)
Definition getSessionId (a : Agent) : option string :=
  match thread a with
  | Some t => thread_id t
  | None => None
  end.

(** [getModel] *)
Definition getModel (a : Agent) : option string := model a.

(** [updateWorkingDirectory] *)
Definition updateWorkingDirectory (path : string) (a : Agent) : Agent :=
  {| sdkSessionId := sdkSessionId a; codex := codex a; thread := thread a;
     model := model a; thinkingLevel := thinkingLevel a;
     ultrathinkOverride := ultrathinkOverride a;
     workingDirectory := Some path;
     sdkSessionIdUpdates := sdkSessionIdUpdates a |}.

End CodexAgent.

(* ===================================================================== *)
(** * config/models.ts                                                    *)
(* ===================================================================== *)

Module Models.

(** [ModelDefinition] *)
Record ModelDefinition : Type := {
  model_id : string;
  model_name : string;
  model_shortName : string;
  model_description : string;
  model_contextWindow : option Z
}.

(** [MODELS] *)
Definition MODELS : list ModelDefinition :=
  [ {| model_id := "claude-opus-4-5-20251101"; model_name := "Opus 4.5";
       model_shortName := "Opus"; model_description := "Most capable";
       model_contextWindow := Some 200000%Z |};
    {| model_id := "claude-sonnet-4-5-20250929"; model_name := "Sonnet 4.5";
       model_shortName := "Sonnet"; model_description := "Balanced";
       model_contextWindow := Some 200000%Z |};
    {| model_id := "claude-haiku-4-5-20251001"; model_name := "Haiku 4.5";
       model_shortName := "Haiku"; model_description := "Fast & efficient";
       model_contextWindow := Some 200000%Z |} ].

(** [CODEX_MODELS] *)
Definition CODEX_MODELS : list ModelDefinition :=
  [ {| model_id := "gpt-5.2-codex"; model_name := "GPT-5.2 Codex";
       model_shortName := "5.2 Codex";
       model_description := "Most advanced agentic coding";
       model_contextWindow := None |};
    {| model_id := "gpt-5.2"; model_name := "GPT-5.2";
       model_shortName := "5.2";
       model_description := "Best general agentic model";
       model_contextWindow := None |};
    {| model_id := "gpt-5.1-codex-max"; model_name := "GPT-5.1 Codex Max";
       model_shortName := "5.1 Max";
       model_description := "Long-horizon coding tasks";
       model_contextWindow := None |};
    {| model_id := "gpt-5.1-codex-mini"; model_name := "GPT-5.1 Codex Mini";
       model_shortName := "5.1 Mini";
       model_description := "Cost-effective coding model";
       model_contextWindow := None |} ].

Definition DEFAULT_MODEL : string := "claude-sonnet-4-5-20250929".
Definition EXTRACTION_MODEL : string := "claude-opus-4-5-20251101".
Definition SUMMARIZATION_MODEL : string := "claude-haiku-4-5-20251001".
Definition INSTRUCTION_UPDATE_MODEL : string := "claude-opus-4-5-20251101".
Definition DEFAULT_CODEX_MODEL : string := "gpt-5.2-codex".
Definition EXTRACTION_CODEX_MODEL : string := "gpt-5.2-codex".
Definition SUMMARIZATION_CODEX_MODEL : string := "gpt-5.1-codex-mini".
Definition INSTRUCTION_UPDATE_CODEX_MODEL : string := "gpt-5.2-codex".

(** [getSelectableModels(authType)]; [None] is a [null] or missing
    argument. *)
Definition getSelectableModels (authType : option string) : list ModelDefinition :=
  match authType with
  | Some a => if String.eqb a "codex_oauth" then CODEX_MODELS else MODELS
  | None => MODELS
  end.

(** [models.find(m => m.id === modelId)] *)
Fixpoint findModel (modelId : string) (models : list ModelDefinition)
    : option ModelDefinition :=
  match models with
  | [] => None
  | m :: rest => if String.eqb (model_id m) modelId then Some m else findModel modelId rest
  end.

(** [MODELS.find(...) || CODEX_MODELS.find(...)] *)
Definition findInCatalogs (modelId : string) : option ModelDefinition :=
  match findModel modelId MODELS with
  | Some m => Some m
  | None => findModel modelId CODEX_MODELS
  end.

(** [s.slice(n)] *)
Fixpoint dropUnits (n : nat) (s : string) : string :=
  match n, s with
  | O, _ => s
  | S _, EmptyString => EmptyString
  | S n', String _ s' => dropUnits n' s'
  end.

(** [s.replace(pattern, '')] for a string pattern: the first occurrence
    is removed. *)
Fixpoint removeFirst (pattern s : string) : string :=
  if String.prefix pattern s then dropUnits (String.length pattern) s
  else match s with
       | EmptyString => EmptyString
       | String c s' => String c (removeFirst pattern s')
       end.

(** [\d] *)
Definition isDigit (c : ascii) : bool :=
  let n := N_of_ascii c in ((48 <=? n) && (n <=? 57))%N.

Fixpoint allUnits (test : ascii -> bool) (s : string) : bool :=
  match s with
  | EmptyString => true
  | String c s' => test c && allUnits test s'
  end.

(** [s] is a hyphen and eight digits: what [/-\d{8}$/] matches, the match
    reaching the end of the text. *)
Definition isDateSuffix (s : string) : bool :=
  match s with
  | String c digits =>
      Ascii.eqb c "-" && (String.length digits =? 8)%nat && allUnits isDigit digits
  | EmptyString => false
  end.

(** [s.replace(/-\d{8}$/, '')]: the only place the pattern can match is
    the last nine units. *)
Fixpoint stripDateSuffix (s : string) : string :=
  if isDateSuffix s then EmptyString
  else match s with
       | EmptyString => EmptyString
       | String c s' => String c (stripDateSuffix s')
       end.

(** [[\d.-]] *)
Definition isVersionUnit (c : ascii) : bool :=
  isDigit c || Ascii.eqb c "." || Ascii.eqb c "-".

(** [s] is a hyphen and one or more digits, dots and hyphens: what
    [/-[\d.-]+$/] matches at the start of [s], the match reaching the
    end of the text. *)
Definition isVersionSuffix (s : string) : bool :=
  match s with
  | String c rest =>
      Ascii.eqb c "-" && negb (String.eqb rest "") && allUnits isVersionUnit rest
  | EmptyString => false
  end.

(** [s.replace(/-[\d.-]+$/, '')]: the leftmost place where the pattern
    matches is cut off. *)
Fixpoint stripVersionSuffix (s : string) : string :=
  if isVersionSuffix s then EmptyString
  else match s with
       | EmptyString => EmptyString
       | String c s' => String c (stripVersionSuffix s')
       end.

(** [getModelDisplayName] *)
Definition getModelDisplayName (modelId : string) : string :=
  match findInCatalogs modelId with
  | Some model => model_name model
  | None => stripDateSuffix (removeFirst "claude-" modelId)
  end.

(** [parts.pop()]: the last element. *)
Definition lastPart (parts : list string) : option string := List.last (map Some parts) None.

(** [getModelShortName] *)
Definition getModelShortName (modelId : string) : string :=
  match findInCatalogs modelId with
  | Some model => model_shortName model
  | None =>
      if JS.includes "/" modelId then
        match lastPart (JS.split "/" modelId) with
        | Some p => if String.eqb p "" then modelId else p
        | None => modelId
        end
      else stripVersionSuffix (removeFirst "claude-" modelId)
  end.

(** [getModelContextWindow]: [??] falls through to the Codex catalog
    when the model is not in [MODELS] or has no window there. *)
Definition getModelContextWindow (modelId : string) : option Z :=
  match match findModel modelId MODELS with
        | Some m => model_contextWindow m
        | None => None
        end with
  | Some w => Some w
  | None =>
      match findModel modelId CODEX_MODELS with
      | Some m => model_contextWindow m
      | None => None
      end
  end.

(** [isOpusModel] *)
Definition isOpusModel (modelId : string) : bool := JS.includes "opus" modelId.

(** [isClaudeModel] *)
Definition isClaudeModel (modelId : string) : bool :=
  let lower := JS.toLowerCase modelId in
  JS.startsWith "claude-" lower || JS.includes "/claude" lower.

(** [isCodexModel]: [CODEX_MODELS.some(m => m.id === modelId)] *)
Definition isCodexModel (modelId : string) : bool :=
  existsb (fun m => String.eqb (model_id m) modelId) CODEX_MODELS.

End Models.

(* ===================================================================== *)
(** * Locating the executable and preparing its environment               *)
(* ===================================================================== *)

Module CodexSetup.
Import JS.

(** What the set-up code reads of the machine: [process.env] (the
    variables that are defined), [process.platform], [existsSync],
    [execSync(command, { encoding: 'utf8', ... })] (the output, or a throw
    when the command fails) and [homedir()]. *)
Record Host : Type := {
  processEnv : gmap string string;
  platform : string;
  existsSync : string -> bool;
  execSync : string -> Exc string;
  homedir : string
}.

Section Resolve.

(** [path.join] of Node. *)
Variable join : list string -> string.

(** [a || b] on two optional strings. *)
Definition orElse (a b : option string) : option string :=
  match a with
  | Some x => if String.eqb x "" then b else Some x
  | None => b
  end.

(** The well-known installation places, in the order they are tried. *)
Definition candidates (h : Host) : list string :=
  [ join ["/opt/homebrew/bin"; "codex"];
    join ["/usr/local/bin"; "codex"];
    join [homedir h; ".local/bin"; "codex"] ].

(** [output.split('\n')[0]?.trim()] *)
Definition firstLine (output : string) : string :=
  match split (ascii_of_N 10) output with
  | line :: _ => trim line
  | [] => ""
  end.

(** The [try] block: the first line of the PATH query when it names a
    file that exists; a failing query is ignored. *)
Definition lookupOnPath (h : Host) : option string :=
  let command :=
    if String.eqb (platform h) "win32" then "where codex" else "command -v codex" in
  match execSync h command with
  | Ok out =>
      let output := firstLine out in
      if negb (String.eqb output "") && existsSync h output then Some output else None
  | Throw _ => None
  end.

(** Lines 16-19: the override from the environment, when it names a
    file that exists. *)
Definition fromEnvironment (h : Host) : option string :=
  match orElse (processEnv h !! "CODEX_PATH") (processEnv h !! "CODEX_CLI_PATH") with
  | Some envPath =>
      if negb (String.eqb envPath "") && existsSync h envPath then Some envPath
      else None
  | None => None
  end.

(** [resolveCodexExecutable], the same function in [title-generator.ts]
    and in [codex-agent.ts]. *)
Definition resolveCodexExecutable (h : Host) : option string :=
  match fromEnvironment h with
  | Some envPath => Some envPath
  | None =>
      match lookupOnPath h with
      | Some output => Some output
      | None => List.find (existsSync h) (candidates h)
      end
  end.

(** [resolveCodexExecutable() ?? 'codex'] *)
Definition codexPathOverride (h : Host) : string :=
  default "codex" (resolveCodexExecutable h).

End Resolve.

(** The variables removed so that the Codex CLI uses [~/.codex/auth.json],
    in the order of the [delete] statements. *)
Definition inheritedCredentials : list string :=
  [ "OPENAI_API_KEY"; "CODEX_API_KEY"; "OPENAI_BASE_URL"; "OPENAI_API_BASE";
    "ANTHROPIC_API_KEY"; "CLAUDE_CODE_OAUTH_TOKEN" ].

(** The six [delete env.X] statements. *)
Definition deleteCredentials (env : gmap string string) : gmap string string :=
  delete "CLAUDE_CODE_OAUTH_TOKEN"
    (delete "ANTHROPIC_API_KEY"
       (delete "OPENAI_API_BASE"
          (delete "OPENAI_BASE_URL"
             (delete "CODEX_API_KEY"
                (delete "OPENAI_API_KEY" env))))).

(** [env.HTTP_PROXY = url; env.HTTPS_PROXY = url; env.ALL_PROXY = url] *)
Definition setProxy (url : string) (env : gmap string string) : gmap string string :=
  <["ALL_PROXY" := url]> (<["HTTPS_PROXY" := url]> (<["HTTP_PROXY" := url]> env)).

(** An optional string that is set and not empty. *)
Definition truthyOption (s : option string) : option string :=
  match s with
  | Some x => if String.eqb x "" then None else Some x
  | None => None
  end.

(** The environment built by the constructor of [CodexAgent]
    (lines 407-426): the defined variables are copied, the proxy is set
    when [config.proxyUrl] is truthy, the credentials are removed when
    [config.authType === 'codex_oauth']. *)
Definition agentEnv (env : gmap string string) (proxyUrl authType : option string)
    : gmap string string :=
  let env := match truthyOption proxyUrl with
             | Some url => setProxy url env
             | None => env
             end in
  match authType with
  | Some a => if String.eqb a "codex_oauth" then deleteCredentials env else env
  | None => env
  end.

(** The environment built by [generateTitleWithCodex] (lines 51-72): the
    credentials are removed first, then the proxy is set when
    [getProxyEnabled()] holds and [getProxyUrl()] is truthy. *)
Definition titleEnv (env : gmap string string) (proxyEnabled : bool)
    (proxyUrl : option string) : gmap string string :=
  let env := deleteCredentials env in
  match (if proxyEnabled then truthyOption proxyUrl else None) with
  | Some url => setProxy url env
  | None => env
  end.

End CodexSetup.

(* ===================================================================== *)
(** * Properties: thinking levels                                         *)
(* ===================================================================== *)

Section ThinkingLevelProperties.
Import ThinkingLevels.

(** The mapping of the seven levels onto the four native ones, before
    the narrowing for a mini model. *)
Lemma normalizeThinkingLevelForCodex_full (level : ThinkingLevel) (modelId : option string) :
  isMini modelId = false ->
  normalizeThinkingLevelForCodex level modelId =
    match level with
    | Off => Low
    | Think => Medium
    | Max => High
    | native => native
    end.
Proof.
  intros Hmini. unfold normalizeThinkingLevelForCodex. rewrite Hmini.
  destruct level; reflexivity.
Qed.

Lemma normalizeThinkingLevelForCodex_mini (level : ThinkingLevel) (modelId : option string) :
  isMini modelId = true ->
  normalizeThinkingLevelForCodex level modelId =
    match level with
    | Off | Low | Think | Medium => Medium
    | Max | High | XHigh => High
    end.
Proof.
  intros Hmini. unfold normalizeThinkingLevelForCodex. rewrite Hmini.
  destruct level; reflexivity.
Qed.

(** C8.  For each of the seven thinking levels and every model id,
    [normalizeThinkingLevelForCodex] returns one of low, medium, high and
    xhigh: the four native values pass through, off gives low, think gives
    medium and max gives high; for a model id that names a mini variant
    (it contains "codex-mini") low becomes medium and xhigh becomes high,
    so neither low nor xhigh is returned. *)
Theorem normalizeThinkingLevelForCodex_range
    (level : ThinkingLevel) (modelId : option string) :
  let r := normalizeThinkingLevelForCodex level modelId in
  let mapped := match level with
                | Off => Low
                | Think => Medium
                | Max => High
                | native => native
                end in
  r ∈ [Low; Medium; High; XHigh] /\
  (isMini modelId = false -> r = mapped) /\
  (isMini modelId = true ->
     r = match mapped with Low => Medium | XHigh => High | other => other end /\
     r <> Low /\ r <> XHigh).
Proof.
  cbv zeta. split; [| split].
  - unfold normalizeThinkingLevelForCodex.
    destruct (isMini modelId), level; simpl; set_solver.
  - intros Hmini. now apply normalizeThinkingLevelForCodex_full.
  - intros Hmini. rewrite (normalizeThinkingLevelForCodex_mini _ _ Hmini).
    destruct level; repeat split; discriminate.
Qed.

Lemma normalizeThinkingLevelForCodex_range_witness :
  normalizeThinkingLevelForCodex Off (Some "gpt-5.1-codex-mini") = Medium /\
  normalizeThinkingLevelForCodex XHigh (Some "gpt-5.1-codex-mini") = High /\
  normalizeThinkingLevelForCodex Off (Some "gpt-5.2-codex") = Low.
Proof.
  pose proof (normalizeThinkingLevelForCodex_range Off (Some "gpt-5.1-codex-mini")) as [_ [_ H1]].
  pose proof (normalizeThinkingLevelForCodex_range XHigh (Some "gpt-5.1-codex-mini")) as [_ [_ H2]].
  pose proof (normalizeThinkingLevelForCodex_range Off (Some "gpt-5.2-codex")) as [_ [H3 _]].
  split; [| split].
  - exact (proj1 (H1 eq_refl)).
  - exact (proj1 (H2 eq_refl)).
  - exact (H3 eq_refl).
Defined.

(** For each of the seven thinking levels
    [normalizeThinkingLevelForClaude] returns one of off, think and max:
    these three pass through, low gives off, medium gives think, high and
    xhigh give max. *)
Theorem normalizeThinkingLevelForClaude_range (level : ThinkingLevel) :
  normalizeThinkingLevelForClaude level ∈ [Off; Think; Max] /\
  normalizeThinkingLevelForClaude level =
    match level with
    | Low => Off
    | Medium => Think
    | High | XHigh => Max
    | native => native
    end.
Proof.
  split.
  - destruct level; cbn; set_solver.
  - now destruct level.
Qed.

End ThinkingLevelProperties.

(* ===================================================================== *)
(** * Properties: MCP names, tool results, configuration setters          *)
(* ===================================================================== *)

Section NormalisationProperties.
Import JS CodexAgent ThinkingLevels.

(** A name that carries the prefix is returned as it is. *)
Lemma normalizeMcpToolName_prefixed (rest : string) (item : JsVal) :
  normalizeMcpToolName ("mcp__" +:+ rest) item = "mcp__" +:+ rest.
Proof.
  unfold normalizeMcpToolName.
  replace (startsWith "mcp__" ("mcp__" +:+ rest)) with true; [reflexivity |].
  unfold startsWith. cbn. now destruct rest.
Qed.

(** Whatever the name, the result is either the name itself or a name
    with the canonical prefix. *)
Lemma normalizeMcpToolName_cases (name : string) (item : JsVal) :
  normalizeMcpToolName name item = name \/
  exists rest, normalizeMcpToolName name item = "mcp__" +:+ rest.
Proof.
  unfold normalizeMcpToolName.
  repeat match goal with
         | |- context [if ?c then _ else _] => destruct c
         end; eauto.
Qed.

(** Normalising twice, with the same item, is normalising once. *)
Lemma normalizeMcpToolName_idempotent (name : string) (item : JsVal) :
  normalizeMcpToolName (normalizeMcpToolName name item) item =
  normalizeMcpToolName name item.
Proof.
  destruct (normalizeMcpToolName_cases name item) as [E | [rest E]]; rewrite E.
  - exact E.
  - apply normalizeMcpToolName_prefixed.
Qed.

(** ** The separated shapes in general *)

(** The code unit [c] occurs in [s]. *)
Fixpoint hasUnit (c : ascii) (s : string) : bool :=
  match s with
  | EmptyString => false
  | String d s' => Ascii.eqb d c || hasUnit c s'
  end.

Lemma hasUnit_app (c : ascii) (a b : string) :
  hasUnit c (a +:+ b) = hasUnit c a || hasUnit c b.
Proof.
  induction a as [| d a IH]; simpl; [reflexivity |].
  now rewrite IH, orb_assoc.
Qed.

Lemma split_without (c : ascii) (s : string) :
  hasUnit c s = false -> split c s = [s].
Proof.
  induction s as [| d s IH]; simpl; [reflexivity |].
  intros H. apply orb_false_elim in H as [Hd Hs].
  now rewrite Hd, (IH Hs).
Qed.

Lemma split_once (c : ascii) (a b : string) :
  hasUnit c a = false -> hasUnit c b = false ->
  split c (a +:+ String c EmptyString +:+ b) = [a; b].
Proof.
  intros Ha Hb. change (String c EmptyString +:+ b) with (String c b).
  induction a as [| d a IH]; simpl.
  - now rewrite Ascii.eqb_refl, (split_without c b Hb).
  - simpl in Ha. apply orb_false_elim in Ha as [Hd Ha].
    now rewrite Hd, (IH Ha).
Qed.

(** The shape [source.tool] *)
Lemma normalizeMcpToolName_dot (source tool : string) (item : JsVal) :
  hasUnit "." source = false -> hasUnit "." tool = false ->
  startsWith "mcp__" (source +:+ "." +:+ tool) = false ->
  normalizeMcpToolName (source +:+ "." +:+ tool) item =
    "mcp__" +:+ source +:+ "__" +:+ tool.
Proof.
  intros Hds Hdt Hpre. unfold normalizeMcpToolName.
  rewrite Hpre, (split_once "." source tool Hds Hdt). reflexivity.
Qed.

(** The shape [mcp.source.tool] *)
Lemma normalizeMcpToolName_mcp_dot (source tool : string) (item : JsVal) :
  hasUnit "." source = false -> hasUnit "." tool = false ->
  normalizeMcpToolName ("mcp." +:+ source +:+ "." +:+ tool) item =
    "mcp__" +:+ source +:+ "__" +:+ tool.
Proof.
  intros Hds Hdt. unfold normalizeMcpToolName.
  replace (startsWith "mcp__" ("mcp." +:+ source +:+ "." +:+ tool)) with false
    by reflexivity.
  replace (split "." ("mcp." +:+ source +:+ "." +:+ tool))
    with ["mcp"; source; tool]; [reflexivity |].
  simpl.
  change ("" +:+ source +:+ "." +:+ tool) with (source +:+ "." +:+ tool).
  now rewrite (split_once "." source tool Hds Hdt).
Qed.

(** The shape [source:tool] *)
Lemma normalizeMcpToolName_colon (source tool : string) (item : JsVal) :
  hasUnit "." source = false -> hasUnit "." tool = false ->
  hasUnit ":" source = false -> hasUnit ":" tool = false ->
  startsWith "mcp__" (source +:+ ":" +:+ tool) = false ->
  normalizeMcpToolName (source +:+ ":" +:+ tool) item =
    "mcp__" +:+ source +:+ "__" +:+ tool.
Proof.
  intros Hds Hdt Hcs Hct Hpre. unfold normalizeMcpToolName. rewrite Hpre.
  rewrite (split_without "." (source +:+ ":" +:+ tool)).
  - cbn [List.length Nat.eqb andb].
    now rewrite (split_once ":" source tool Hcs Hct).
  - now rewrite !hasUnit_app, Hds, Hdt.
Qed.

(** The shape [source/tool] *)
Lemma normalizeMcpToolName_slash (source tool : string) (item : JsVal) :
  hasUnit "." source = false -> hasUnit "." tool = false ->
  hasUnit ":" source = false -> hasUnit ":" tool = false ->
  hasUnit "/" source = false -> hasUnit "/" tool = false ->
  startsWith "mcp__" (source +:+ "/" +:+ tool) = false ->
  normalizeMcpToolName (source +:+ "/" +:+ tool) item =
    "mcp__" +:+ source +:+ "__" +:+ tool.
Proof.
  intros Hds Hdt Hcs Hct Hss Hst Hpre. unfold normalizeMcpToolName. rewrite Hpre.
  rewrite (split_without "." (source +:+ "/" +:+ tool)).
  - cbn [List.length Nat.eqb andb].
    rewrite (split_without ":" (source +:+ "/" +:+ tool)).
    + cbn [List.length Nat.eqb].
      now rewrite (split_once "/" source tool Hss Hst).
    + now rewrite !hasUnit_app, Hcs, Hct.
  - now rewrite !hasUnit_app, Hds, Hdt.
Qed.

(** C7.  [normalizeMcpToolName] leaves a canonical name unchanged -- every
    name with the prefix [mcp__], and so "mcp__a__b" -- and rewrites the
    listed shapes: "mcp.a.b", "a.b", "a:b" and "a/b" give "mcp__a__b", and
    so does every name of one of these shapes, [a] and [b] being any two
    parts that hold none of the separators tried before and at their own
    place (a name that already starts with [mcp__] apart); applying the
    function to its own result changes nothing. *)
Theorem normalizeMcpToolName_canonical (item : JsVal) :
  (forall rest, normalizeMcpToolName ("mcp__" +:+ rest) item = "mcp__" +:+ rest) /\
  normalizeMcpToolName "mcp__a__b" item = "mcp__a__b" /\
  normalizeMcpToolName "mcp.a.b" item = "mcp__a__b" /\
  normalizeMcpToolName "a.b" item = "mcp__a__b" /\
  normalizeMcpToolName "a:b" item = "mcp__a__b" /\
  normalizeMcpToolName "a/b" item = "mcp__a__b" /\
  (forall a b,
     hasUnit "." a = false -> hasUnit "." b = false ->
     normalizeMcpToolName ("mcp." +:+ a +:+ "." +:+ b) item =
       "mcp__" +:+ a +:+ "__" +:+ b /\
     (startsWith "mcp__" (a +:+ "." +:+ b) = false ->
      normalizeMcpToolName (a +:+ "." +:+ b) item = "mcp__" +:+ a +:+ "__" +:+ b) /\
     (hasUnit ":" a = false -> hasUnit ":" b = false ->
      startsWith "mcp__" (a +:+ ":" +:+ b) = false ->
      normalizeMcpToolName (a +:+ ":" +:+ b) item = "mcp__" +:+ a +:+ "__" +:+ b) /\
     (hasUnit ":" a = false -> hasUnit ":" b = false ->
      hasUnit "/" a = false -> hasUnit "/" b = false ->
      startsWith "mcp__" (a +:+ "/" +:+ b) = false ->
      normalizeMcpToolName (a +:+ "/" +:+ b) item = "mcp__" +:+ a +:+ "__" +:+ b)) /\
  (forall name,
     normalizeMcpToolName (normalizeMcpToolName name item) item =
     normalizeMcpToolName name item).
Proof.
  split; [intros rest; apply normalizeMcpToolName_prefixed |].
  split; [apply (normalizeMcpToolName_prefixed "a__b") |].
  repeat (split; [reflexivity |]).
  split; [| intros name; apply normalizeMcpToolName_idempotent].
  intros a b Hda Hdb. split; [| split; [| split]].
  - now apply normalizeMcpToolName_mcp_dot.
  - now apply normalizeMcpToolName_dot.
  - intros Hca Hcb. now apply normalizeMcpToolName_colon.
  - intros Hca Hcb Hsa Hsb. now apply normalizeMcpToolName_slash.
Qed.

Lemma normalizeMcpToolName_canonical_witness :
  normalizeMcpToolName "mcp.linear.get_issue" JUndef = "mcp__linear__get_issue" /\
  normalizeMcpToolName "linear.get_issue" JUndef = "mcp__linear__get_issue" /\
  normalizeMcpToolName "linear:get_issue" JUndef = "mcp__linear__get_issue" /\
  normalizeMcpToolName "linear/get_issue" JUndef = "mcp__linear__get_issue".
Proof.
  destruct (normalizeMcpToolName_canonical JUndef) as (_ & _ & _ & _ & _ & _ & Hshapes & _).
  destruct (Hshapes "linear" "get_issue" eq_refl eq_refl)
    as (Hmcp & Hdot & Hcolon & Hslash).
  split; [exact Hmcp |].
  split; [exact (Hdot eq_refl) |].
  split; [exact (Hcolon eq_refl eq_refl eq_refl) |].
  exact (Hslash eq_refl eq_refl eq_refl eq_refl eq_refl).
Defined.

(** A name [source.tool], [source:tool] or [source/tool], or
    [mcp.source.tool], whose two parts hold none of the separators
    tried before and at its own place, is rewritten to
    [mcp__source__tool] (a name that already starts with [mcp__] apart). *)
Theorem normalizeMcpToolName_separated (source tool : string) (item : JsVal) :
  hasUnit "." source = false -> hasUnit "." tool = false ->
  (startsWith "mcp__" (source +:+ "." +:+ tool) = false ->
   normalizeMcpToolName (source +:+ "." +:+ tool) item =
     "mcp__" +:+ source +:+ "__" +:+ tool) /\
  normalizeMcpToolName ("mcp." +:+ source +:+ "." +:+ tool) item =
    "mcp__" +:+ source +:+ "__" +:+ tool /\
  (hasUnit ":" source = false -> hasUnit ":" tool = false ->
   startsWith "mcp__" (source +:+ ":" +:+ tool) = false ->
   normalizeMcpToolName (source +:+ ":" +:+ tool) item =
     "mcp__" +:+ source +:+ "__" +:+ tool) /\
  (hasUnit ":" source = false -> hasUnit ":" tool = false ->
   hasUnit "/" source = false -> hasUnit "/" tool = false ->
   startsWith "mcp__" (source +:+ "/" +:+ tool) = false ->
   normalizeMcpToolName (source +:+ "/" +:+ tool) item =
     "mcp__" +:+ source +:+ "__" +:+ tool).
Proof.
  intros Hds Hdt. split; [| split; [| split]].
  - now apply normalizeMcpToolName_dot.
  - now apply normalizeMcpToolName_mcp_dot.
  - intros Hcs Hct. now apply normalizeMcpToolName_colon.
  - intros Hcs Hct Hss Hst. now apply normalizeMcpToolName_slash.
Qed.

Lemma normalizeMcpToolName_separated_witness :
  normalizeMcpToolName "github:create_issue" JUndef = "mcp__github__create_issue".
Proof.
  destruct (normalizeMcpToolName_separated "github" "create_issue" JUndef eq_refl eq_refl)
    as [_ [_ [Hcolon _]]].
  exact (Hcolon eq_refl eq_refl eq_refl).
Defined.

(** The event of the tool-result example: an exit code of 1, an output
    and an error stream. *)
Definition failedCommandResult : JsVal :=
  JObj [("id", JStr "t1"); ("exit_code", JNum 1);
        ("result", JStr "out"); ("stderr", JStr "err")].

(** A [JBool] is never nullish: the operands after it in a [??] chain are
    not read. *)
Lemma coalesce_bool_absorbs (a : JsVal) (b : bool) (rest1 rest2 : JsVal) :
  truthy (a ?? JBool b ?? rest1 ?? rest2) = truthy (a ?? JBool b).
Proof. destruct a; reflexivity. Qed.

(** The error flag of a tool result is decided by the explicit markers
    and the item status alone: the [error] field and the exit code stand
    after the status comparison in the chain and are never reached. *)
Lemma normalizeToolResult_isError (event : JsVal) (r : ToolResult) :
  normalizeToolResult event = Some r ->
  tr_isError r =
    truthy (event ~> "is_error" ?? event ~> "isError" ??
            JBool (strictEqStr ((event ~> "item" ?? event ~> "params" ~> "item") ~> "status")
                               "failed")).
Proof.
  unfold normalizeToolResult.
  destruct (negb (isObjectLike event)); [discriminate |].
  rewrite coalesce_bool_absorbs.
  repeat match goal with
         | |- context [match ?x with _ => _ end] => destruct x eqn:?
         end; intros H; inversion H; reflexivity.
Qed.

(** C1.  On the event [{id: "t1", exit_code: 1, result: "out", stderr:
    "err"}] [normalizeToolResult] returns the text "out", a blank line,
    the label [stderr] and "err", for the id "t1", and does not flag the
    result as an error: the non-zero exit code is not consulted. *)
Theorem normalizeToolResult_exit_code_unflagged :
  normalizeToolResult failedCommandResult =
    Some {| tr_toolUseId := JStr "t1";
            tr_result := "out" +:+ LF +:+ LF +:+ "[stderr]" +:+ LF +:+ "err";
            tr_isError := false |}.
Proof.
  unfold normalizeToolResult, failedCommandResult.
  cbn [isObjectLike negb].
  vm_compute. reflexivity.
Qed.

End NormalisationProperties.

Section SetterProperties.
Import JS CodexAgent ThinkingLevels.

(** With a thread id known and a connection made, [setModel] resumes the
    thread under the same id with options built after the change. *)
Lemma setModel_resumes (m : string) (a : Agent) (id : string) (c : Codex) :
  knownThreadId a = Some id -> codex a = Some c ->
  thread (setModel m a) =
    Some (resumeThread id (buildThreadOptions (withModel (Some m) a))) /\
  knownThreadId (setModel m a) = Some id /\
  model (setModel m a) = Some m.
Proof.
  intros Hid Hc. unfold setModel.
  assert (Hid' : knownThreadId (withModel (Some m) a) = Some id) by exact Hid.
  rewrite Hid'. cbn [codex withModel]. rewrite Hc.
  repeat split.
  unfold knownThreadId in *. cbn.
  destruct (thread a) as [t |]; [| discriminate]. cbn in Hid.
  destruct (thread_id t) as [i |]; [| discriminate]. cbn in Hid.
  destruct (String.eqb i "") eqn:E; [discriminate |].
  injection Hid as ->. now rewrite E.
Qed.

(** With no thread id known, [setModel] drops the cached handle. *)
Lemma setModel_invalidates (m : string) (a : Agent) :
  knownThreadId a = None -> thread (setModel m a) = None.
Proof.
  intros Hid. unfold setModel.
  assert (Hid' : knownThreadId (withModel (Some m) a) = None) by exact Hid.
  now rewrite Hid'.
Qed.

Lemma setThinkingLevel_resumes (l : ThinkingLevel) (a : Agent) (id : string) (c : Codex) :
  knownThreadId a = Some id -> codex a = Some c ->
  thread (setThinkingLevel l a) =
    Some (resumeThread id (buildThreadOptions (withThinkingLevel l a))).
Proof.
  intros Hid Hc. unfold setThinkingLevel.
  assert (Hid' : knownThreadId (withThinkingLevel l a) = Some id) by exact Hid.
  rewrite Hid'. cbn [codex withThinkingLevel]. now rewrite Hc.
Qed.

Lemma setThinkingLevel_invalidates (l : ThinkingLevel) (a : Agent) :
  knownThreadId a = None -> thread (setThinkingLevel l a) = None.
Proof.
  intros Hid. unfold setThinkingLevel.
  assert (Hid' : knownThreadId (withThinkingLevel l a) = None) by exact Hid.
  now rewrite Hid'.
Qed.

Lemma setUltrathinkOverride_resumes (b : bool) (a : Agent) (id : string) (c : Codex) :
  knownThreadId a = Some id -> codex a = Some c ->
  thread (setUltrathinkOverride b a) =
    Some (resumeThread id (buildThreadOptions (withUltrathinkOverride b a))).
Proof.
  intros Hid Hc. unfold setUltrathinkOverride.
  assert (Hid' : knownThreadId (withUltrathinkOverride b a) = Some id) by exact Hid.
  rewrite Hid'. cbn [codex withUltrathinkOverride]. now rewrite Hc.
Qed.

(** With no thread id known, [setUltrathinkOverride] leaves the cached
    handle where it is. *)
Lemma setUltrathinkOverride_keeps (b : bool) (a : Agent) :
  knownThreadId a = None -> thread (setUltrathinkOverride b a) = thread a.
Proof.
  intros Hid. unfold setUltrathinkOverride.
  assert (Hid' : knownThreadId (withUltrathinkOverride b a) = None) by exact Hid.
  now rewrite Hid'.
Qed.

(** With a thread id known and the connection made, each of the three
    setters resumes the thread under that id with options built after the
    change, so the id stays known; with no id known, [setModel] and
    [setThinkingLevel] drop the cached handle. *)
Theorem setters_resume_known_thread (a : Agent) :
  (forall id c m l b,
     knownThreadId a = Some id -> codex a = Some c ->
     thread (setModel m a) =
       Some (resumeThread id (buildThreadOptions (withModel (Some m) a))) /\
     thread (setThinkingLevel l a) =
       Some (resumeThread id (buildThreadOptions (withThinkingLevel l a))) /\
     thread (setUltrathinkOverride b a) =
       Some (resumeThread id (buildThreadOptions (withUltrathinkOverride b a))) /\
     knownThreadId (setModel m a) = Some id) /\
  (forall m l,
     knownThreadId a = None ->
     thread (setModel m a) = None /\ thread (setThinkingLevel l a) = None).
Proof.
  split.
  - intros id c m l b Hid Hc.
    destruct (setModel_resumes m a id c Hid Hc) as [Hm [Hk _]].
    repeat split; try assumption.
    + now apply (setThinkingLevel_resumes l a id c).
    + now apply (setUltrathinkOverride_resumes b a id c).
  - intros m l Hid. split.
    + now apply setModel_invalidates.
    + now apply setThinkingLevel_invalidates.
Qed.

(** An agent whose thread "th_1" is known, on a made connection. *)
Definition runningAgent : Agent :=
  {| sdkSessionId := None; codex := Some {| codexPathOverride := "codex" |};
     thread := Some (resumeThread "th_1"
                       {| opt_model := None; opt_workingDirectory := None;
                          opt_skipGitRepoCheck := true;
                          opt_modelReasoningEffort := Some Medium |});
     model := Some "gpt-5.2-codex"; thinkingLevel := Think;
     ultrathinkOverride := false; workingDirectory := None;
     sdkSessionIdUpdates := [] |}.

Lemma setters_resume_known_thread_witness :
  option_map thread_id (thread (setUltrathinkOverride true runningAgent)) =
    Some (Some "th_1") /\
  option_map (fun t => opt_modelReasoningEffort (thread_options t))
    (thread (setUltrathinkOverride true runningAgent)) = Some (Some XHigh).
Proof.
  destruct (setters_resume_known_thread runningAgent) as [Hknown _].
  destruct (Hknown "th_1" {| codexPathOverride := "codex" |} "gpt-5.2" High true
              eq_refl eq_refl) as [_ [_ [Hu _]]].
  rewrite Hu. split; reflexivity.
Defined.

(** An agent after its first [ensureThread] on a new session: the
    connection is made and the handle of a started thread is cached; the
    SDK assigns the id during the first run, so none is known yet. *)
Definition freshAgent : Agent :=
  snd (ensureThread (Ok {| codexPathOverride := "codex" |})
         {| sdkSessionId := None; codex := None; thread := None;
            model := Some "gpt-5.2-codex"; thinkingLevel := Think;
            ultrathinkOverride := false; workingDirectory := None;
            sdkSessionIdUpdates := [] |}).

(** C5.  On an agent whose cached thread has no id yet, [setModel] and
    [setThinkingLevel] set the handle to null, and [setUltrathinkOverride]
    does not: the handle made before the change stays cached, with the
    reasoning effort it was started with (medium, not xhigh), and the next
    [ensureThread] returns it. *)
Theorem setUltrathinkOverride_keeps_stale_thread :
  knownThreadId freshAgent = None /\
  thread (setModel "gpt-5.2" freshAgent) = None /\
  thread (setThinkingLevel High freshAgent) = None /\
  thread (setUltrathinkOverride true freshAgent) = thread freshAgent /\
  thread freshAgent = Some (startThread (buildThreadOptions freshAgent)) /\
  opt_modelReasoningEffort (buildThreadOptions freshAgent) = Some Medium /\
  opt_modelReasoningEffort
    (buildThreadOptions (setUltrathinkOverride true freshAgent)) = Some XHigh /\
  fst (ensureThread (Throw (OtherError "unused"))
         (setUltrathinkOverride true freshAgent)) =
    Ok (startThread (buildThreadOptions freshAgent)).
Proof.
  assert (Hid : knownThreadId freshAgent = None) by reflexivity.
  split; [exact Hid |].
  split; [apply setModel_invalidates, Hid |].
  split; [apply setThinkingLevel_invalidates, Hid |].
  split; [apply setUltrathinkOverride_keeps, Hid |].
  repeat split.
Qed.

End SetterProperties.

(* ===================================================================== *)
(** * Properties: credential file                                         *)
(* ===================================================================== *)

Section CredentialProperties.
Import JS CodexAuth.

Variable JSON_parse : string -> Exc JsVal.
Variable CODEX_AUTH_PATH : string.

(** A throw inside the [try] block is turned into [null] and one line
    of diagnostics. *)
Lemma readCodexAuthFile_catches (fs : FileSystem) (e : JsError) :
  readCodexAuthFile_try JSON_parse CODEX_AUTH_PATH fs = Throw e ->
  fst (readCodexAuthFile JSON_parse CODEX_AUTH_PATH fs) = Ok JNull /\
  List.length (snd (readCodexAuthFile JSON_parse CODEX_AUTH_PATH fs)) = 1%nat.
Proof.
  intros H. unfold readCodexAuthFile. rewrite H. split; reflexivity.
Qed.

(** C9.  Whatever the file system holds and however [JSON.parse] behaves,
    [readCodexAuthFile] returns a value and raises nothing: it returns
    null when the file is missing, when reading it throws and when parsing
    it throws, and otherwise the parsed value. *)
Theorem readCodexAuthFile_never_throws (fs : FileSystem) :
  exists v,
    fst (readCodexAuthFile JSON_parse CODEX_AUTH_PATH fs) = Ok v /\
    (existsSync fs CODEX_AUTH_PATH = false -> v = JNull) /\
    (forall e, readFileSync fs CODEX_AUTH_PATH = Throw e -> v = JNull) /\
    (forall raw e,
       readFileSync fs CODEX_AUTH_PATH = Ok raw ->
       JSON_parse raw = Throw e -> v = JNull) /\
    (forall raw parsed,
       existsSync fs CODEX_AUTH_PATH = true ->
       readFileSync fs CODEX_AUTH_PATH = Ok raw ->
       JSON_parse raw = Ok parsed -> v = parsed).
Proof.
  unfold readCodexAuthFile, readCodexAuthFile_try.
  destruct (existsSync fs CODEX_AUTH_PATH) eqn:Hex; cbn [negb].
  - destruct (readFileSync fs CODEX_AUTH_PATH) as [raw | e] eqn:Hread; cbn [bindExc].
    + destruct (JSON_parse raw) as [parsed | e] eqn:Hparse; cbn [fst].
      * exists parsed. split; [reflexivity |].
        split; [discriminate |]. split; [discriminate |].
        split; intros raw'; intros; simplify_eq; congruence.
      * exists JNull. split; [reflexivity |].
        split; [reflexivity |]. split; [reflexivity |].
        split; [reflexivity |]. intros raw' parsed _ Hr Hp.
        simplify_eq. congruence.
    + exists JNull. cbn [fst]. split; [reflexivity |].
      split; [reflexivity |]. split; [reflexivity |].
      split; [reflexivity |]. discriminate.
  - exists JNull. cbn [fst]. split; [reflexivity |].
    split; [reflexivity |]. split; [reflexivity |].
    split; [reflexivity |]. discriminate.
Qed.

End CredentialProperties.

(** A parser that refuses every text, for a file that exists and cannot
    be parsed. *)
Definition refusingParser (raw : string) : JS.Exc JS.JsVal :=
  JS.Throw (JS.OtherError "Unexpected token").

Definition malformedAuthFile : CodexAuth.FileSystem :=
  {| CodexAuth.existsSync := fun _ => true;
     CodexAuth.readFileSync := fun _ => JS.Ok "{" |}.

Lemma readCodexAuthFile_never_throws_witness :
  fst (CodexAuth.readCodexAuthFile refusingParser "/home/u/.codex/auth.json"
         malformedAuthFile) = JS.Ok JS.JNull.
Proof.
  destruct (readCodexAuthFile_never_throws refusingParser "/home/u/.codex/auth.json"
              malformedAuthFile) as [v [Hv [_ [_ [Hparse _]]]]].
  rewrite Hv. f_equal. exact (Hparse "{" _ eq_refl eq_refl).
Defined.

(* ===================================================================== *)
(** * Properties: session titles                                          *)
(* ===================================================================== *)

Section TitleProperties.
Import JS TitleGenerator.

(** The final response of the Codex run: [result?.finalResponse ?? ''],
    when the run returns and the response is a string. *)
Definition codexOutput (env : Env) (prompt : string) : option string :=
  match codexRun env prompt with
  | Ok result =>
      match coalesce (prop result "finalResponse") (JStr "") with
      | JStr response => Some response
      | _ => None
      end
  | Throw _ => None
  end.

(** The text the model produced for a prompt, before trimming: the final
    response of the Codex run under [codex_oauth], the text blocks of the
    assistant messages otherwise; nothing when the call failed. *)
Definition modelOutput (env : Env) (prompt : string) : option string :=
  if String.eqb (getAuthType env) "codex_oauth" then codexOutput env prompt
  else
    match query env prompt with
    | (messages, None) => Some (collectTitle messages)
    | (_, Some _) => None
    end.

(** A title the guard lets through is the text it was given, is not
    empty and has fewer than 100 characters. *)
Lemma acceptTitle_Some (trimmed t : string) :
  acceptTitle trimmed = Some t ->
  t = trimmed /\ (0 < String.length t < 100)%nat.
Proof.
  unfold acceptTitle. intros H.
  destruct (negb (String.eqb trimmed "")); [| discriminate].
  destruct (0 <? String.length trimmed)%nat eqn:Hlo; [| discriminate].
  destruct (String.length trimmed <? 100)%nat eqn:Hhi; [| discriminate].
  cbn in H. injection H as <-.
  apply Nat.ltb_lt in Hlo, Hhi. auto.
Qed.

(** A text of 100 characters or more, and the empty text, are refused. *)
Lemma acceptTitle_None (trimmed : string) :
  (String.length trimmed = 0 \/ 100 <= String.length trimmed)%nat ->
  acceptTitle trimmed = None.
Proof.
  unfold acceptTitle. intros [H | H].
  - destruct trimmed; [reflexivity | discriminate].
  - apply Nat.ltb_ge in H. rewrite H. now rewrite andb_false_r.
Qed.

Lemma generateTitleWithCodex_output (env : Env) (prompt : string) :
  generateTitleWithCodex env prompt =
    match codexOutput env prompt with
    | Some out => acceptTitle (trim out)
    | None => None
    end.
Proof.
  unfold generateTitleWithCodex, codexOutput.
  destruct (codexRun env prompt) as [result | e]; cbn [bindExc]; [| reflexivity].
  now destruct (coalesce (prop result "finalResponse") (JStr "")).
Qed.

Lemma generateSessionTitle_output (env : Env) (userMessage : string) :
  generateSessionTitle env userMessage =
    match modelOutput env (sessionPrompt userMessage) with
    | Some out => acceptTitle (trim out)
    | None => None
    end.
Proof.
  unfold generateSessionTitle, modelOutput. cbv zeta.
  destruct (String.eqb (getAuthType env) "codex_oauth").
  - apply generateTitleWithCodex_output.
  - now destruct (query env (sessionPrompt userMessage)) as [messages [e |]].
Qed.

Lemma regenerateSessionTitle_output (env : Env)
    (recent : list string) (last : string) :
  regenerateSessionTitle env recent last =
    match modelOutput env (regeneratePrompt recent last) with
    | Some out => acceptTitle (trim out)
    | None => None
    end.
Proof.
  unfold regenerateSessionTitle, modelOutput. cbv zeta.
  destruct (String.eqb (getAuthType env) "codex_oauth").
  - apply generateTitleWithCodex_output.
  - now destruct (query env (regeneratePrompt recent last)) as [messages [e |]].
Qed.

(** What the three entry points have in common: a result that is not
    null is the trimmed model output, not empty and shorter than 100
    characters. *)
Definition titleWithinBound (output result : option string) : Prop :=
  forall t, result = Some t ->
    (exists out, output = Some out /\ t = trim out) /\
    (0 < String.length t < 100)%nat.

(** A trimmed output that is empty or has 100 characters or more gives
    null. *)
Definition longTitleDiscarded (output result : option string) : Prop :=
  forall out, output = Some out ->
    (String.length (trim out) = 0 \/ 100 <= String.length (trim out))%nat ->
    result = None.

Lemma output_titleWithinBound (output : option string) :
  titleWithinBound output
    match output with
    | Some out => acceptTitle (trim out)
    | None => None
    end.
Proof.
  intros t H. destruct output as [out |]; [| discriminate].
  apply acceptTitle_Some in H as [-> Hlen]. eauto.
Qed.

Lemma output_longTitleDiscarded (output : option string) :
  longTitleDiscarded output
    match output with
    | Some out => acceptTitle (trim out)
    | None => None
    end.
Proof.
  intros out -> Hlen. now apply acceptTitle_None.
Qed.

(** C10.  Each of [generateSessionTitle], [regenerateSessionTitle] and
    [generateTitleWithCodex] returns null unless the trimmed model output
    is not empty and has fewer than 100 characters: a result is that
    trimmed output, and a trimmed output of 100 characters or more is
    dropped. *)
Theorem titles_shorter_than_100 (env : Env) :
  (forall userMessage,
     titleWithinBound (modelOutput env (sessionPrompt userMessage))
       (generateSessionTitle env userMessage) /\
     longTitleDiscarded (modelOutput env (sessionPrompt userMessage))
       (generateSessionTitle env userMessage)) /\
  (forall recent last,
     titleWithinBound (modelOutput env (regeneratePrompt recent last))
       (regenerateSessionTitle env recent last) /\
     longTitleDiscarded (modelOutput env (regeneratePrompt recent last))
       (regenerateSessionTitle env recent last)) /\
  (forall prompt,
     titleWithinBound (codexOutput env prompt) (generateTitleWithCodex env prompt) /\
     longTitleDiscarded (codexOutput env prompt) (generateTitleWithCodex env prompt)).
Proof.
  split; [| split].
  - intros userMessage. rewrite generateSessionTitle_output.
    split; [apply output_titleWithinBound | apply output_longTitleDiscarded].
  - intros recent last. rewrite regenerateSessionTitle_output.
    split; [apply output_titleWithinBound | apply output_longTitleDiscarded].
  - intros prompt. rewrite generateTitleWithCodex_output.
    split; [apply output_titleWithinBound | apply output_longTitleDiscarded].
Qed.

(** A Claude session whose model answers with one block of text. *)
Definition answering (text : string) : Env :=
  {| getAuthType := "api_key";
     codexRun := fun _ => Throw (OtherError "not used");
     query := fun _ =>
       ([ {| message_type := "assistant";
             message_content := [ {| block_type := "text"; block_text := text |} ] |} ],
        None) |}.

(** One hundred characters. *)
Definition hundred : string :=
  Eval cbv in
    (let ten := "abcdefghij" in
     ten +:+ ten +:+ ten +:+ ten +:+ ten +:+ ten +:+ ten +:+ ten +:+ ten +:+ ten).

Lemma titles_shorter_than_100_witness :
  generateSessionTitle (answering hundred) "rename the module" = None.
Proof.
  destruct (titles_shorter_than_100 (answering hundred)) as [Hsession _].
  destruct (Hsession "rename the module") as [_ Hlong].
  apply (Hlong hundred).
  - reflexivity.
  - right. vm_compute. lia.
Defined.

End TitleProperties.

(* ===================================================================== *)
(** * Properties: the chat generator                                      *)
(* ===================================================================== *)

Section ChatProperties.
Import JS CodexAgent.

(** ** What one iteration can do *)

(** Two states with the same text and the same parent map. *)
Definition sameTurn (st st1 : ChatState) : Prop :=
  finalText st1 = finalText st /\ toolParents st1 = toolParents st.

(** Every iteration of the three loops has one of seven shapes; [st1] is
    the state after the thread-started notice, if any. *)
Inductive StepShape (st : ChatState) : Step -> Prop :=
  | shape_skip st1 :
      sameTurn st st1 -> StepShape st (st1, [], None)
  | shape_throw st1 e :
      sameTurn st st1 -> StepShape st (st1, [], Some e)
  | shape_text_delta st1 d :
      sameTurn st st1 ->
      StepShape st (withFinalText (finalText st1 +:+ d) st1, [text_delta d], None)
  | shape_text_complete st1 t :
      sameTurn st st1 ->
      StepShape st (withFinalText t st1, [text_complete t], None)
  | shape_tool_start st1 t fields parent :
      sameTurn st st1 ->
      StepShape st (recordParent (toolUseId t) parent st1,
                    [toolStartEvent t fields parent], None)
  | shape_tool_result st1 r :
      sameTurn st st1 ->
      StepShape st (st1, [toolResultEvent r], None)
  | shape_parent_update st1 r parent :
      sameTurn st st1 ->
      toolParents st1 !! tr_toolUseId r = None ->
      StepShape st (setToolParent (tr_toolUseId r) parent st1,
                    [parent_update (tr_toolUseId r) parent; toolResultEvent r], None).

Lemma sameTurn_refl (st : ChatState) : sameTurn st st.
Proof. split; reflexivity. Qed.

Lemma sameTurn_onThreadStarted (type : string) (event : JsVal) (st : ChatState) :
  sameTurn st (onThreadStarted type event st).
Proof.
  unfold onThreadStarted.
  destruct (String.eqb type "thread.started"); [| apply sameTurn_refl].
  destruct (asNonEmptyString (event ~> "thread_id")); split; reflexivity.
Qed.

Lemma hasToolParent_false (id : JsVal) (st : ChatState) :
  hasToolParent id st = false -> toolParents st !! id = None.
Proof. unfold hasToolParent. now destruct (toolParents st !! id). Qed.

Lemma yieldToolResult_shape (st st1 : ChatState) (r : ToolResult) (parent : option JsVal) :
  sameTurn st st1 -> StepShape st (yieldToolResult r parent st1).
Proof.
  intros Hsame. unfold yieldToolResult, continue.
  destruct parent as [p |]; [| now apply shape_tool_result].
  destruct (hasToolParent (tr_toolUseId r) st1) eqn:Hhas; cbn [negb].
  - now apply shape_tool_result.
  - apply shape_parent_update; [exact Hsame | now apply hasToolParent_false].
Qed.

Create HintDb shapes.
#[local] Hint Resolve sameTurn_refl sameTurn_onThreadStarted yieldToolResult_shape : shapes.
#[local] Hint Constructors StepShape : shapes.

(** Splits the goal along the tests of a loop body. *)
Ltac split_rules :=
  repeat match goal with
         | |- context [match ?x with _ => _ end] =>
             lazymatch x with
             | context [match _ with _ => _ end] => fail
             | _ => destruct x eqn:?
             end
         end.

Lemma streamedStep_shape (st : ChatState) (event : JsVal) :
  StepShape st (streamedStep st event).
Proof.
  unfold streamedStep, continue. cbv zeta.
  pose proof (sameTurn_onThreadStarted (default "" (extractEventType event)) event st)
    as Hsame.
  set (st1 := onThreadStarted _ event st) in *. clearbody st1.
  split_rules; eauto with shapes.
Qed.

Lemma asyncFallbackStep_shape (st : ChatState) (event : JsVal) :
  StepShape st (asyncFallbackStep st event).
Proof.
  unfold asyncFallbackStep, continue. cbv zeta.
  split_rules; eauto with shapes.
Qed.

Lemma syncFallbackStep_shape (st : ChatState) (event : JsVal) :
  StepShape st (syncFallbackStep st event).
Proof.
  unfold syncFallbackStep, continue.
  split_rules; eauto with shapes.
Qed.

(** A loop body all of whose iterations have one of the shapes. *)
Definition Shaped (body : ChatState -> JsVal -> Step) : Prop :=
  forall st event, StepShape st (body st event).

(** The three loop bodies of [chat]. *)
Definition loopBodies : list (ChatState -> JsVal -> Step) :=
  [streamedStep; asyncFallbackStep; syncFallbackStep].

Lemma loopBodies_Shaped (body : ChatState -> JsVal -> Step) :
  In body loopBodies -> Shaped body.
Proof.
  intros [<- | [<- | [<- | []]]] st event.
  - apply streamedStep_shape.
  - apply asyncFallbackStep_shape.
  - apply syncFallbackStep_shape.
Qed.

(** ** The text buffer follows the text events *)

(** [finalText] after an event was yielded: a delta is appended, a
    complete text replaces the buffer. *)
Definition textAfter (text : string) (e : AgentEvent) : string :=
  match e with
  | text_delta d => text +:+ d
  | text_complete t => t
  | _ => text
  end.

Definition textAfterAll (text : string) (out : list AgentEvent) : string :=
  fold_left textAfter out text.

Lemma StepShape_text (st st' : ChatState) (out : list AgentEvent) (r : option JsError) :
  StepShape st (st', out, r) -> finalText st' = textAfterAll (finalText st) out.
Proof.
  intros H. inversion H as
    [st1 [Ht _] | st1 e [Ht _] | st1 d [Ht _] | st1 t [Ht _]
    | st1 t fields parent [Ht _] | st1 tr [Ht _] | st1 tr parent [Ht _] _];
    subst; cbn; try congruence.
  now destruct parent.
Qed.

Lemma runLoop_text (body : ChatState -> JsVal -> Step) (Hbody : Shaped body)
    (events : list JsVal) :
  forall st st' out r,
    runLoop body st events = (st', out, r) ->
    finalText st' = textAfterAll (finalText st) out.
Proof.
  induction events as [| event rest IH]; intros st st' out r Hrun; cbn in Hrun.
  - unfold continue in Hrun. now simplify_eq.
  - pose proof (Hbody st event) as Hshape.
    destruct (body st event) as [[st1 first] [e |]].
    + simplify_eq. now apply StepShape_text in Hshape.
    + destruct (runLoop body st1 rest) as [[st2 later] r2] eqn:Hrest.
      simplify_eq. apply IH in Hrest. apply StepShape_text in Hshape.
      unfold textAfterAll in *. rewrite fold_left_app. congruence.
Qed.

(** ** Counting the complete texts *)

Definition isTextComplete (e : AgentEvent) : bool :=
  match e with
  | text_complete _ => true
  | _ => false
  end.

Definition countTextComplete (out : list AgentEvent) : nat :=
  List.length (List.filter isTextComplete out).

Lemma countTextComplete_app (xs ys : list AgentEvent) :
  countTextComplete (xs ++ ys) = (countTextComplete xs + countTextComplete ys)%nat.
Proof. unfold countTextComplete. now rewrite List.filter_app, List.length_app. Qed.

(** ** The parent map *)

(** [e] is a [tool_start] for [child] that carries [parent]. *)
Definition startsUnder (child parent : JsVal) (e : AgentEvent) : Prop :=
  match e with
  | tool_start _ id _ _ _ (Some p) => id = child /\ p = parent
  | _ => False
  end.

(** What can have become of a mapping [child -> parent] once the events
    [out] were yielded: it is still there, or a [tool_start] for the child
    replaced the parent by the one it carries. *)
Definition keptOrRestarted (child parent : JsVal) (out : list AgentEvent)
    (m' : gmap JsVal JsVal) : Prop :=
  m' !! child = Some parent \/
  exists parent' e, In e out /\ startsUnder child parent' e /\ m' !! child = Some parent'.

Lemma StepShape_parents (st st' : ChatState) (out : list AgentEvent)
    (r : option JsError) (child parent : JsVal) :
  StepShape st (st', out, r) ->
  toolParents st !! child = Some parent ->
  keptOrRestarted child parent out (toolParents st').
Proof.
  intros H Hchild. inversion H as
    [st1 [_ Hp] | st1 e [_ Hp] | st1 d [_ Hp] | st1 t [_ Hp]
    | st1 t fields par [_ Hp] | st1 tr [_ Hp] | st1 tr par [_ Hp] Hnew];
    subst; cbn; try (left; congruence).
  - destruct par as [p |]; cbn; [| left; congruence].
    destruct (decide (toolUseId t = child)) as [<- | Hne].
    + right. exists p, (toolStartEvent t fields (Some p)).
      split; [now left |]. split; [split; reflexivity |]. apply lookup_insert_eq.
    + left. rewrite lookup_insert_ne by exact Hne. congruence.
  - left. rewrite lookup_insert_ne; [congruence |].
    intros Heq. rewrite Heq in Hnew. congruence.
Qed.

Lemma keptOrRestarted_later (child parent : JsVal) (first later : list AgentEvent)
    (m' : gmap JsVal JsVal) :
  keptOrRestarted child parent later m' ->
  keptOrRestarted child parent (first ++ later) m'.
Proof.
  intros [H | (p & e & Hin & Hs & Hm)]; [now left |].
  right. exists p, e. split; [apply in_or_app; now right | easy].
Qed.

Lemma keptOrRestarted_trans (child parent : JsVal) (first later : list AgentEvent)
    (m1 m2 : gmap JsVal JsVal) :
  keptOrRestarted child parent first m1 ->
  (forall p, m1 !! child = Some p -> keptOrRestarted child p later m2) ->
  keptOrRestarted child parent (first ++ later) m2.
Proof.
  intros [H1 | (p1 & e1 & Hin1 & Hs1 & Hm1)] H2.
  - now apply keptOrRestarted_later, H2.
  - destruct (H2 p1 Hm1) as [H | Hlater].
    + right. exists p1, e1. split; [apply in_or_app; now left | easy].
    + apply keptOrRestarted_later. right. exact Hlater.
Qed.

Lemma runLoop_parents (body : ChatState -> JsVal -> Step) (Hbody : Shaped body)
    (events : list JsVal) :
  forall st st' out r child parent,
    runLoop body st events = (st', out, r) ->
    toolParents st !! child = Some parent ->
    keptOrRestarted child parent out (toolParents st').
Proof.
  induction events as [| event rest IH]; intros st st' out r child parent Hrun Hchild;
    cbn in Hrun.
  - unfold continue in Hrun. simplify_eq. now left.
  - pose proof (Hbody st event) as Hshape.
    destruct (body st event) as [[st1 first] [e |]].
    + simplify_eq. eapply StepShape_parents; eauto.
    + destruct (runLoop body st1 rest) as [[st2 later] r2] eqn:Hrest.
      simplify_eq.
      eapply keptOrRestarted_trans.
      * eapply StepShape_parents; eauto.
      * intros p Hp. eapply IH; eauto.
Qed.

(** ** The two paths of a turn *)

(** The loop of the fallback path, by the kind of event collection. *)
Definition fallbackLoop (st : ChatState) (events : RunEvents) : Step :=
  match events with
  | NoEvents => continue st []
  | AsyncEvents events => runLoop asyncFallbackStep st events
  | SyncEvents events => runLoop syncFallbackStep st events
  end.

Definition nullish (v : JsVal) : bool :=
  match v with
  | JUndef | JNull => true
  | _ => false
  end.

Lemma fallbackPath_unfold (st : ChatState) (runResult : JsVal) (events : RunEvents) :
  fallbackPath st runResult events =
    if nullish runResult
    then (st, [], Some (TypeError "Cannot read properties (reading 'events')"))
    else
      let '(st2, out, thrown) := fallbackLoop st events in
      match thrown with
      | Some e => (st2, out, Some e)
      | None =>
          match when (String.eqb (finalText st2) "") (extractTextComplete runResult) with
          | Some resultText => (withFinalText resultText st2, out, None)
          | None => (st2, out, None)
          end
      end.
Proof. destruct runResult; reflexivity. Qed.

Lemma fallbackLoop_text (st st' : ChatState) (events : RunEvents)
    (out : list AgentEvent) (r : option JsError) :
  fallbackLoop st events = (st', out, r) ->
  finalText st' = textAfterAll (finalText st) out.
Proof.
  destruct events as [| events | events]; cbn; intros H.
  - unfold continue in H. now simplify_eq.
  - eapply runLoop_text; [| exact H]. intros ? ?. apply asyncFallbackStep_shape.
  - eapply runLoop_text; [| exact H]. intros ? ?. apply syncFallbackStep_shape.
Qed.

Lemma fallbackLoop_parents (st st' : ChatState) (events : RunEvents)
    (out : list AgentEvent) (r : option JsError) (child parent : JsVal) :
  fallbackLoop st events = (st', out, r) ->
  toolParents st !! child = Some parent ->
  keptOrRestarted child parent out (toolParents st').
Proof.
  destruct events as [| events | events]; cbn; intros H Hchild.
  - unfold continue in H. simplify_eq. now left.
  - eapply runLoop_parents; [| exact H | exact Hchild].
    intros ? ?. apply asyncFallbackStep_shape.
  - eapply runLoop_parents; [| exact H | exact Hchild].
    intros ? ?. apply syncFallbackStep_shape.
Qed.

(** The text a turn ends with, read off what its loop yielded: the text
    events folded from the empty text and, on the fallback path when
    that is empty, the text of the run result. *)
Definition finalTextOf (thread : ThreadRuns) (message : string)
    (fromLoop : list AgentEvent) : string :=
  let text := textAfterAll "" fromLoop in
  match runStreamed thread with
  | Some _ => text
  | None =>
      if String.eqb text ""
      then default "" (extractTextComplete (fst (run thread message)))
      else text
  end.

Lemma chatLoop_text (thread : ThreadRuns) (parents : gmap JsVal JsVal)
    (message : string) (st : ChatState) (fromLoop : list AgentEvent) :
  chatLoop thread parents message = (st, fromLoop, None) ->
  finalText st = finalTextOf thread message fromLoop.
Proof.
  unfold chatLoop, finalTextOf. destruct (runStreamed thread) as [stream |].
  - intros H. eapply runLoop_text in H; [exact H |].
    intros ? ?. apply streamedStep_shape.
  - destruct (run thread message) as [runResult events]. cbn [fst].
    rewrite fallbackPath_unfold.
    destruct (nullish runResult); [discriminate |].
    destruct (fallbackLoop _ events) as [[st2 out] thrown] eqn:Hloop.
    apply fallbackLoop_text in Hloop. cbn in Hloop.
    destruct thrown; [discriminate |].
    unfold when. rewrite Hloop.
    destruct (String.eqb (textAfterAll "" out) "") eqn:Hempty.
    + destruct (extractTextComplete runResult) as [resultText |];
        intros H; simplify_eq; cbn.
      * now rewrite Hempty.
      * rewrite Hempty. cbn. rewrite Hloop. now apply String.eqb_eq.
    + intros H. simplify_eq. now rewrite Hempty.
Qed.

Lemma chatLoop_parents (thread : ThreadRuns) (parents : gmap JsVal JsVal)
    (message : string) (st : ChatState) (fromLoop : list AgentEvent)
    (thrown : option JsError) (child parent : JsVal) :
  chatLoop thread parents message = (st, fromLoop, thrown) ->
  parents !! child = Some parent ->
  keptOrRestarted child parent fromLoop (toolParents st).
Proof.
  unfold chatLoop. destruct (runStreamed thread) as [stream |].
  - intros H Hchild. eapply runLoop_parents; [| exact H | exact Hchild].
    intros ? ?. apply streamedStep_shape.
  - destruct (run thread message) as [runResult events].
    rewrite fallbackPath_unfold.
    destruct (nullish runResult).
    { intros H Hchild. simplify_eq. now left. }
    destruct (fallbackLoop _ events) as [[st2 out] thrown2] eqn:Hloop.
    intros H Hchild.
    eapply fallbackLoop_parents in Hloop; [| exact Hchild].
    destruct thrown2; [now simplify_eq |].
    destruct (when _ _); now simplify_eq.
Qed.

(** ** Threads for the examples *)

(** A thread with [runStreamed] that delivers the given events. *)
Definition streamOf (events : list JsVal) : ThreadRuns :=
  {| runStreamed := Some (fun _ => events);
     run := fun _ => (JUndef, NoEvents) |}.

(** A thread without [runStreamed] whose [run] gives the given result. *)
Definition resultOf (runResult : JsVal) (events : RunEvents) : ThreadRuns :=
  {| runStreamed := None; run := fun _ => (runResult, events) |}.

(** [{type: "turn.completed", text: "done"}] *)
Definition turnCompleted : JsVal :=
  JObj [("type", JStr "turn.completed"); ("text", JStr "done")].

(** [{type: "tool_call", tool_name: "Read", id: "t1", parent_id: parent}] *)
Definition toolCall (parent : string) : JsVal :=
  JObj [("type", JStr "tool_call"); ("tool_name", JStr "Read");
        ("id", JStr "t1"); ("parent_id", JStr parent)].

(** [{type: "tool.completed", id: "t1", result: "ok"}] *)
Definition toolCompleted : JsVal :=
  JObj [("type", JStr "tool.completed"); ("id", JStr "t1"); ("result", JStr "ok")].

(** ** Complete texts (C2) *)

(** The turn as a whole: the notice, what the loop yielded, and the
    trailing events. *)
Lemma chat_yielded (thread : ThreadRuns) (parents : gmap JsVal JsVal)
    (message : string) (attachments : option (list FileAttachment)) :
  forall st fromLoop thrown,
    chatLoop thread parents message = (st, fromLoop, thrown) ->
    exists notice trailing,
      yielded (chat thread parents message attachments) = notice ++ fromLoop ++ trailing /\
      finalState (chat thread parents message attachments) = st /\
      countTextComplete notice = 0%nat /\
      (thrown = None -> finalText st <> "" ->
         trailing = [text_complete (finalText st); complete] /\
         outcome (chat thread parents message attachments) = Returned) /\
      (thrown <> None \/ finalText st = "" ->
         trailing = [] /\
         outcome (chat thread parents message attachments) <> Returned).
Proof.
  intros st fromLoop thrown Hloop. unfold chat. rewrite Hloop.
  set (notice := match attachments with
                 | Some (_ :: _) => _
                 | _ => []
                 end).
  assert (Hnotice : countTextComplete notice = 0%nat).
  { subst notice. now destruct attachments as [[| ? ?] |]. }
  destruct thrown as [e |].
  - exists notice, []. rewrite app_nil_r. cbn.
    split; [reflexivity |]. split; [reflexivity |]. split; [exact Hnotice |].
    split; [discriminate |]. intros _. split; [reflexivity | discriminate].
  - unfold finishTurn. destruct (String.eqb (finalText st) "") eqn:Hempty.
    + exists notice, []. cbn. rewrite app_nil_r.
      apply String.eqb_eq in Hempty.
      split; [reflexivity |]. split; [reflexivity |]. split; [exact Hnotice |].
      split; [intros _ Hne; contradiction |].
      intros _. split; [reflexivity | discriminate].
    + exists notice, [text_complete (finalText st); complete]. cbn.
      apply String.eqb_neq in Hempty.
      split; [reflexivity |]. split; [reflexivity |]. split; [exact Hnotice |].
      split; [intros _ _; split; reflexivity |].
      intros [Hthrown | Htext]; [now contradiction Hthrown | contradiction].
Qed.

(** The claim as the specification states it: at most one complete text
    in the events of a turn. *)
Definition atMostOneTextComplete : Prop :=
  forall thread parents message attachments,
    (countTextComplete (yielded (chat thread parents message attachments)) <= 1)%nat.

(** C2, counterexample.  On the stream of the single event
    [{type: "turn.completed", text: "done"}] the loop yields a complete
    text and the turn then yields the trailing one as well: two complete
    texts. *)
Lemma chat_yields_two_text_complete :
  yielded (chat (streamOf [turnCompleted]) ∅ "hi" None) =
    [text_complete "done"; text_complete "done"; complete] /\
  ~ atMostOneTextComplete.
Proof.
  assert (H : yielded (chat (streamOf [turnCompleted]) ∅ "hi" None) =
              [text_complete "done"; text_complete "done"; complete])
    by (vm_compute; reflexivity).
  split; [exact H |].
  intros Hclaim.
  specialize (Hclaim (streamOf [turnCompleted]) ∅ "hi" None).
  rewrite H in Hclaim. cbn in Hclaim. lia.
Qed.

(** C2, amended.  A turn yields the complete texts of its loop, one for
    each upstream event that the complete-text rule dispatches, and at
    most one more, the trailing one.  The trailing one is yielded when
    the loop ended without an error and the final text -- the text events
    of the loop folded in order, or on the fallback path the text of the
    run result -- is not empty, whether or not the loop yielded a complete
    text; it carries the final text and only [complete] follows it.  When
    the loop ended with an error or the final text is empty no trailing
    complete text is yielded.  So a turn whose loop yielded no complete
    text yields at most one. *)
Theorem chat_trailing_text_complete (thread : ThreadRuns) (parents : gmap JsVal JsVal)
    (message : string) (attachments : option (list FileAttachment))
    (st : ChatState) (fromLoop : list AgentEvent) (thrown : option JsError) :
  chatLoop thread parents message = (st, fromLoop, thrown) ->
  exists notice trailing,
    yielded (chat thread parents message attachments) = notice ++ fromLoop ++ trailing /\
    countTextComplete notice = 0%nat /\
    (thrown = None -> finalText st = finalTextOf thread message fromLoop) /\
    (thrown = None -> finalText st <> "" ->
       trailing = [text_complete (finalText st); complete]) /\
    (thrown <> None \/ finalText st = "" -> countTextComplete trailing = 0%nat) /\
    (countTextComplete (yielded (chat thread parents message attachments)) <=
       countTextComplete fromLoop + 1)%nat /\
    (countTextComplete fromLoop = 0%nat ->
       (countTextComplete (yielded (chat thread parents message attachments)) <= 1)%nat).
Proof.
  intros Hloop.
  destruct (chat_yielded thread parents message attachments _ _ _ Hloop)
    as (notice & trailing & Hy & _ & Hnotice & Hsome & Hnone).
  exists notice, trailing.
  assert (Htrail : (countTextComplete trailing <= 1)%nat).
  { destruct thrown as [e |].
    - destruct Hnone as [-> _]; [left; discriminate | cbn; lia].
    - destruct (String.eqb (finalText st) "") eqn:Hempty.
      + apply String.eqb_eq in Hempty.
        destruct Hnone as [-> _]; [now right | cbn; lia].
      + apply String.eqb_neq in Hempty.
        destruct (Hsome eq_refl Hempty) as [-> _]. cbn. lia. }
  split; [exact Hy |]. split; [exact Hnotice |].
  split; [intros ->; eapply chatLoop_text; exact Hloop |].
  split; [intros Hn Ht; now destruct (Hsome Hn Ht) |].
  split; [intros H; now destruct (Hnone H) as [-> _] |].
  rewrite Hy, !countTextComplete_app, Hnotice.
  split; [lia | intros ->; lia].
Qed.

Lemma chat_trailing_text_complete_witness :
  exists notice trailing,
    yielded (chat (streamOf [turnCompleted]) ∅ "hi" None) =
      notice ++ [text_complete "done"] ++ trailing /\
    trailing = [text_complete "done"; complete].
Proof.
  destruct (chat_trailing_text_complete (streamOf [turnCompleted]) ∅ "hi" None
              {| finalText := "done"; toolParents := ∅; sessionIdUpdates := [] |}
              [text_complete "done"] None)
    as (notice & trailing & Hy & _ & _ & Htrail & _).
  - vm_compute. reflexivity.
  - exists notice, trailing. split; [exact Hy |].
    apply Htrail; [reflexivity | discriminate].
Defined.

(** ** The end of a turn (C3) *)

(** A turn whose loop ends without an error and with an empty final text
    does not reach [yield { type: 'complete' }]: the test on line 973
    throws first. *)
Lemma chat_without_text_throws (thread : ThreadRuns) (parents : gmap JsVal JsVal)
    (message : string) (attachments : option (list FileAttachment))
    (st : ChatState) (fromLoop : list AgentEvent) :
  chatLoop thread parents message = (st, fromLoop, None) ->
  finalText st = "" ->
  outcome (chat thread parents message attachments) = Threw (ReferenceError "resultText") /\
  exists notice,
    yielded (chat thread parents message attachments) = notice ++ fromLoop.
Proof.
  intros Hloop Htext. unfold chat. rewrite Hloop. unfold finishTurn.
  rewrite Htext. cbn. split; [reflexivity |].
  eexists. now rewrite app_nil_r.
Qed.

(** C3.  A turn with no upstream event and no returned text yields no
    event at all and ends with a [ReferenceError] for [resultText], on the
    streamed path and on the fallback path alike: [complete] is not
    yielded. *)
Theorem chat_empty_turn_throws (parents : gmap JsVal JsVal) (message : string) :
  yielded (chat (streamOf []) parents message None) = [] /\
  outcome (chat (streamOf []) parents message None) =
    Threw (ReferenceError "resultText") /\
  yielded (chat (resultOf (JObj []) NoEvents) parents message None) = [] /\
  outcome (chat (resultOf (JObj []) NoEvents) parents message None) =
    Threw (ReferenceError "resultText").
Proof.
  destruct (chat_without_text_throws (streamOf []) parents message None
              {| finalText := ""; toolParents := parents; sessionIdUpdates := [] |} [])
    as [Hs [n1 Hy1]]; [reflexivity | reflexivity |].
  destruct (chat_without_text_throws (resultOf (JObj []) NoEvents) parents message None
              {| finalText := ""; toolParents := parents; sessionIdUpdates := [] |} [])
    as [Hr [n2 Hy2]]; [reflexivity | reflexivity |].
  repeat split; try assumption; reflexivity.
Qed.

(** No iteration of a loop yields [complete]. *)
Lemma StepShape_no_complete (st st' : ChatState) (out : list AgentEvent)
    (r : option JsError) :
  StepShape st (st', out, r) -> ~ In complete out.
Proof.
  intros H Hin. inversion H; subst; cbn in Hin;
    repeat (destruct Hin as [Hin | Hin]; [discriminate Hin |]); exact Hin.
Qed.

Lemma runLoop_no_complete (body : ChatState -> JsVal -> Step) (Hbody : Shaped body)
    (events : list JsVal) :
  forall st st' out r,
    runLoop body st events = (st', out, r) -> ~ In complete out.
Proof.
  induction events as [| event rest IH]; intros st st' out r Hrun; cbn in Hrun.
  - unfold continue in Hrun. simplify_eq. intros [].
  - pose proof (Hbody st event) as Hshape.
    destruct (body st event) as [[st1 first] [e |]].
    + simplify_eq. now apply StepShape_no_complete in Hshape.
    + destruct (runLoop body st1 rest) as [[st2 later] r2] eqn:Hrest.
      simplify_eq. apply IH in Hrest. apply StepShape_no_complete in Hshape.
      intros Hin. apply in_app_or in Hin. tauto.
Qed.

Lemma chatLoop_no_complete (thread : ThreadRuns) (parents : gmap JsVal JsVal)
    (message : string) (st : ChatState) (fromLoop : list AgentEvent)
    (thrown : option JsError) :
  chatLoop thread parents message = (st, fromLoop, thrown) ->
  ~ In complete fromLoop.
Proof.
  unfold chatLoop. destruct (runStreamed thread) as [stream |].
  - intros H. eapply runLoop_no_complete; [| exact H].
    intros ? ?. apply streamedStep_shape.
  - destruct (run thread message) as [runResult events].
    rewrite fallbackPath_unfold.
    destruct (nullish runResult).
    { intros H. simplify_eq. intros []. }
    destruct (fallbackLoop _ events) as [[st2 out] thrown2] eqn:Hloop.
    assert (Hout : ~ In complete out).
    { destruct events as [| events | events]; cbn in Hloop.
      - unfold continue in Hloop. simplify_eq. intros [].
      - eapply runLoop_no_complete; [| exact Hloop].
        intros ? ?. apply asyncFallbackStep_shape.
      - eapply runLoop_no_complete; [| exact Hloop].
        intros ? ?. apply syncFallbackStep_shape. }
    destruct thrown2; [intros H; now simplify_eq |].
    destruct (when _ _); intros H; now simplify_eq.
Qed.

(** A turn that returns ends with one complete text and then [complete],
    and yields [complete] nowhere else: exactly one [complete], last. *)
Theorem chat_returned_ends_with_complete (thread : ThreadRuns)
    (parents : gmap JsVal JsVal) (message : string)
    (attachments : option (list FileAttachment)) :
  outcome (chat thread parents message attachments) = Returned ->
  exists before text,
    yielded (chat thread parents message attachments) =
      before ++ [text_complete text; complete] /\
    text <> "" /\
    ~ In complete before.
Proof.
  intros Hreturned.
  destruct (chatLoop thread parents message) as [[st fromLoop] thrown] eqn:Hloop.
  pose proof (chatLoop_no_complete _ _ _ _ _ _ Hloop) as Hnone.
  revert Hreturned. unfold chat. rewrite Hloop.
  destruct thrown as [e |]; [discriminate |].
  unfold finishTurn. destruct (String.eqb (finalText st) "") eqn:Hempty; [discriminate |].
  intros _. cbn [yielded].
  exists (match attachments with
          | Some (_ :: _) => [info "Codex SDK currently ignores file attachments."]
          | _ => []
          end ++ fromLoop), (finalText st).
  split; [now rewrite app_assoc |].
  split; [now apply String.eqb_neq |].
  intros Hin. apply in_app_or in Hin as [Hin | Hin]; [| contradiction].
  destruct attachments as [[| ? ?] |]; cbn in Hin; try contradiction.
  destruct Hin as [Hin | []]. discriminate Hin.
Qed.

Lemma chat_returned_ends_with_complete_witness :
  exists before text,
    yielded (chat (streamOf [turnCompleted]) ∅ "hi" None) =
      before ++ [text_complete text; complete] /\
    text <> "" /\
    ~ In complete before.
Proof.
  apply (chat_returned_ends_with_complete (streamOf [turnCompleted]) ∅ "hi" None).
  vm_compute. reflexivity.
Defined.

(** The events of a turn that runs one command and says nothing, as the
    Codex SDK delivers them. *)
Definition quietTurn : list JsVal :=
  [ JObj [("type", JStr "thread.started"); ("thread_id", JStr "th_1")];
    JObj [("type", JStr "turn.started")];
    JObj [("type", JStr "item.completed");
          ("item", JObj [("id", JStr "c1"); ("type", JStr "command_execution");
                         ("command", JStr "ls"); ("aggregated_output", JStr "");
                         ("exit_code", JNum 0); ("status", JStr "completed")])];
    JObj [("type", JStr "turn.completed")] ].

(** The turn reports the command and then throws: no [complete]. *)
Lemma chat_quiet_turn_throws :
  yielded (chat (streamOf quietTurn) ∅ "ls" None) =
    [tool_start (JStr "bash") (JStr "c1") (JObj [("command", JStr "ls")])
       None None None] /\
  outcome (chat (streamOf quietTurn) ∅ "ls" None) =
    Threw (ReferenceError "resultText") /\
  sessionIdUpdates (finalState (chat (streamOf quietTurn) ∅ "ls" None)) = ["th_1"].
Proof. repeat split; vm_compute; reflexivity. Qed.

(** ** The fallback loops (C4) *)

(** The sync loop yields text deltas and nothing else. *)
Lemma syncFallbackStep_yields_text_delta (st : ChatState) (event : JsVal) :
  forall e, In e (snd (fst (syncFallbackStep st event))) -> exists d, e = text_delta d.
Proof.
  unfold syncFallbackStep, continue. intros e.
  destruct (extractTextDelta event) as [d |]; cbn.
  - intros [<- | []]. now exists d.
  - intros [].
Qed.

(** The collection of the example: a tool call and its completion. *)
Definition toolEvents : list JsVal := [toolCall "p1"; toolCompleted].

(** C4.  The run result [{text: "done", events: [call, completion]}]: with
    an async-iterable collection the turn yields the [tool_start] and the
    [tool_result] of the two events; with the same events in a
    sync-iterable collection it yields neither. *)
Theorem sync_fallback_drops_tool_events :
  yielded (chat (resultOf (JObj [("text", JStr "done")]) (AsyncEvents toolEvents))
                ∅ "hi" None) =
    [tool_start (JStr "Read") (JStr "t1") (JObj []) None None (Some (JStr "p1"));
     tool_result (JStr "t1") "ok" false;
     text_complete "done"; complete] /\
  yielded (chat (resultOf (JObj [("text", JStr "done")]) (SyncEvents toolEvents))
                ∅ "hi" None) =
    [text_complete "done"; complete].
Proof.
  split.
  - unfold chat, chatLoop, resultOf. cbn [runStreamed run].
    vm_compute. reflexivity.
  - unfold chat, chatLoop, resultOf. cbn [runStreamed run].
    vm_compute. reflexivity.
Qed.

(** ** The parent map (C6) *)

(** The claim as the specification states it: an event never changes a
    mapping that is set. *)
Definition parentsNeverOverwritten : Prop :=
  forall st event child parent,
    toolParents st !! child = Some parent ->
    toolParents (fst (fst (streamedStep st event))) !! child = Some parent.

(** C6, counterexample.  Two [tool_call] events for the id "t1", the
    first under the parent "p1" and the second under "p2": after the first
    the map sends "t1" to "p1", after the second to "p2". *)
Lemma toolParents_overwritten_by_tool_start :
  toolParents (finalState (chat (streamOf [toolCall "p1"]) ∅ "hi" None))
    !! JStr "t1" = Some (JStr "p1") /\
  toolParents (finalState (chat (streamOf [toolCall "p1"; toolCall "p2"]) ∅ "hi" None))
    !! JStr "t1" = Some (JStr "p2") /\
  ~ parentsNeverOverwritten.
Proof.
  split; [vm_compute; reflexivity |].
  split; [vm_compute; reflexivity |].
  intros Hclaim.
  specialize (Hclaim {| finalText := ""; toolParents := {[ JStr "t1" := JStr "p1" ]};
                        sessionIdUpdates := [] |}
                     (toolCall "p2") (JStr "t1") (JStr "p1")).
  cbn [toolParents] in Hclaim. rewrite lookup_singleton_eq in Hclaim.
  specialize (Hclaim eq_refl).
  vm_compute in Hclaim. discriminate.
Qed.

(** Ids that [Map] compares by value: strings, numbers and booleans.
    The declared type of the map is [Map<string, string>]; an id that is
    an object or an array is compared by identity in the source, which a
    value cannot express, so the statements about the entry of an id are
    made for the ids compared by value. *)
Definition isPrimitive (v : JsVal) : bool :=
  match v with
  | JObj _ | JArr _ => false
  | _ => true
  end.

(** The map after one yielded event, as the events tell it: a
    [tool_start] that carries a parent and a [parent_update] write the
    entry of their id; no other event writes. *)
Definition parentsAfter (m : gmap JsVal JsVal) (e : AgentEvent) : gmap JsVal JsVal :=
  match e with
  | tool_start _ id _ _ _ (Some parent) => <[id := parent]> m
  | parent_update id parent => <[id := parent]> m
  | _ => m
  end.

Definition parentsAfterAll (m : gmap JsVal JsVal) (out : list AgentEvent)
    : gmap JsVal JsVal :=
  fold_left parentsAfter out m.

(** Every [parent_update] of [out] is yielded for an id that has no entry
    at that point, the map starting as [m]. *)
Fixpoint updatesOnFirstSight (m : gmap JsVal JsVal) (out : list AgentEvent) : Prop :=
  match out with
  | [] => True
  | e :: rest =>
      match e with
      | parent_update id _ => m !! id = None
      | _ => True
      end /\ updatesOnFirstSight (parentsAfter m e) rest
  end.

Lemma parentsAfterAll_app (m : gmap JsVal JsVal) (xs ys : list AgentEvent) :
  parentsAfterAll m (xs ++ ys) = parentsAfterAll (parentsAfterAll m xs) ys.
Proof. apply fold_left_app. Qed.

Lemma updatesOnFirstSight_app (xs ys : list AgentEvent) :
  forall m,
    updatesOnFirstSight m xs ->
    updatesOnFirstSight (parentsAfterAll m xs) ys ->
    updatesOnFirstSight m (xs ++ ys).
Proof.
  induction xs as [| e xs IH]; intros m Hxs Hys; [exact Hys |].
  destruct Hxs as [He Hxs]. split; [exact He |]. now apply IH.
Qed.

Lemma updatesOnFirstSight_split (before after : list AgentEvent)
    (child parent : JsVal) :
  forall m,
    updatesOnFirstSight m (before ++ parent_update child parent :: after) ->
    parentsAfterAll m before !! child = None.
Proof.
  induction before as [| e before IH]; intros m H.
  - now destruct H.
  - destruct H as [_ H]. now apply IH.
Qed.

(** What an iteration writes is what its events tell. *)
Lemma StepShape_written (st st' : ChatState) (out : list AgentEvent)
    (r : option JsError) :
  StepShape st (st', out, r) ->
  toolParents st' = parentsAfterAll (toolParents st) out /\
  updatesOnFirstSight (toolParents st) out.
Proof.
  intros H. inversion H as
    [st1 [_ Hp] | st1 e [_ Hp] | st1 d [_ Hp] | st1 t [_ Hp]
    | st1 t fields par [_ Hp] | st1 tr [_ Hp] | st1 tr par [_ Hp] Hnew];
    subst; try destruct par as [p |]; cbn; rewrite <- ?Hp; repeat split; easy.
Qed.

Lemma runLoop_written (body : ChatState -> JsVal -> Step) (Hbody : Shaped body)
    (events : list JsVal) :
  forall st st' out r,
    runLoop body st events = (st', out, r) ->
    toolParents st' = parentsAfterAll (toolParents st) out /\
    updatesOnFirstSight (toolParents st) out.
Proof.
  induction events as [| event rest IH]; intros st st' out r Hrun; cbn in Hrun.
  - unfold continue in Hrun. simplify_eq. split; [reflexivity | exact I].
  - pose proof (Hbody st event) as Hshape.
    destruct (body st event) as [[st1 first] [e |]].
    + simplify_eq. now apply StepShape_written in Hshape.
    + destruct (runLoop body st1 rest) as [[st2 later] r2] eqn:Hrest.
      simplify_eq. apply StepShape_written in Hshape as [Hmap1 Hfirst1].
      apply IH in Hrest as [Hmap2 Hfirst2]. rewrite Hmap1 in Hmap2, Hfirst2.
      split.
      * now rewrite parentsAfterAll_app.
      * now apply updatesOnFirstSight_app.
Qed.

Lemma chatLoop_written (thread : ThreadRuns) (parents : gmap JsVal JsVal)
    (message : string) (st : ChatState) (fromLoop : list AgentEvent)
    (thrown : option JsError) :
  chatLoop thread parents message = (st, fromLoop, thrown) ->
  toolParents st = parentsAfterAll parents fromLoop /\
  updatesOnFirstSight parents fromLoop.
Proof.
  unfold chatLoop. destruct (runStreamed thread) as [stream |].
  - intros H. eapply runLoop_written in H; [exact H |].
    intros ? ?. apply streamedStep_shape.
  - destruct (run thread message) as [runResult events].
    rewrite fallbackPath_unfold.
    destruct (nullish runResult).
    { intros H. simplify_eq. split; [reflexivity | exact I]. }
    destruct (fallbackLoop _ events) as [[st2 out] thrown2] eqn:Hloop.
    assert (Hout : toolParents st2 = parentsAfterAll parents out /\
                   updatesOnFirstSight parents out).
    { destruct events as [| events | events]; cbn in Hloop.
      - unfold continue in Hloop. simplify_eq. split; [reflexivity | exact I].
      - eapply runLoop_written in Hloop; [exact Hloop |].
        intros ? ?. apply asyncFallbackStep_shape.
      - eapply runLoop_written in Hloop; [exact Hloop |].
        intros ? ?. apply syncFallbackStep_shape. }
    destruct thrown2; [intros H; now simplify_eq |].
    destruct (when _ _); intros H; now simplify_eq.
Qed.

(** The map a turn leaves is the map it began with, written by the
    events it yielded, and every [parent_update] of the turn found no
    entry for its id. *)
Lemma chat_written (thread : ThreadRuns) (parents : gmap JsVal JsVal)
    (message : string) (attachments : option (list FileAttachment)) :
  toolParents (finalState (chat thread parents message attachments)) =
    parentsAfterAll parents (yielded (chat thread parents message attachments)) /\
  updatesOnFirstSight parents (yielded (chat thread parents message attachments)).
Proof.
  destruct (chatLoop thread parents message) as [[st fromLoop] thrown] eqn:Hloop.
  pose proof (chatLoop_written _ _ _ _ _ _ Hloop) as [Hmap Hfirst].
  unfold chat. rewrite Hloop.
  set (notice := match attachments with
                 | Some (_ :: _) => _
                 | _ => []
                 end).
  assert (Hnotice : notice = [] \/ exists text, notice = [info text]).
  { subst notice. destruct attachments as [[| ? ?] |]; eauto. }
  assert (Hstart : forall rest,
            parentsAfterAll parents (notice ++ rest) = parentsAfterAll parents rest /\
            (updatesOnFirstSight parents rest ->
             updatesOnFirstSight parents (notice ++ rest))).
  { intros rest. destruct Hnotice as [-> | [text ->]]; cbn; auto. }
  destruct thrown as [e |]; cbn [yielded finalState].
  - destruct (Hstart fromLoop) as [-> Hkeep]. auto.
  - unfold finishTurn.
    destruct (String.eqb (finalText st) ""); cbn [yielded finalState].
    + rewrite app_nil_r. destruct (Hstart fromLoop) as [-> Hkeep]. auto.
    + destruct (Hstart (fromLoop ++ [text_complete (finalText st); complete]))
        as [-> Hkeep].
      rewrite parentsAfterAll_app. split; [exact Hmap |].
      apply Hkeep, updatesOnFirstSight_app; [exact Hfirst | cbn; auto].
Qed.

(** [{type: "tool.completed", id: id, result: "ok", parent_id: parent}] *)
Definition toolCompletedUnder (id parent : string) : JsVal :=
  JObj [("type", JStr "tool.completed"); ("id", JStr id);
        ("result", JStr "ok"); ("parent_id", JStr parent)].

(** C6, amended.  For a child id that [Map] compares by value:

    - the map at the end of a turn is the map the turn began with,
      written by the yielded events in their order: a [tool_start] that
      carries a parent sets the entry of its id to that parent, replacing
      an earlier one, a [parent_update] sets the entry of its id, and no
      other event writes;
    - a [parent_update] is yielded for a child only where the map has no
      entry for it;
    - once the map sends the child to a parent, the later events of a
      loop -- and so a whole turn -- leave the child mapped: to the same
      parent, unless a later [tool_start] for that child carries a parent;
    - the tool-result rule, given a parent, writes the entry and yields
      the [parent_update] when the child has no entry, and otherwise
      yields the result alone and leaves the map as it is. *)
Theorem toolParents_replaced_only_by_tool_start (child : JsVal) :
  isPrimitive child = true ->
  (forall thread parents message attachments,
     toolParents (finalState (chat thread parents message attachments)) !! child =
       parentsAfterAll parents (yielded (chat thread parents message attachments))
         !! child) /\
  (forall thread parents message attachments before parent after,
     yielded (chat thread parents message attachments) =
       before ++ parent_update child parent :: after ->
     parentsAfterAll parents before !! child = None) /\
  (forall body st later st' out thrown parent,
     In body loopBodies ->
     toolParents st !! child = Some parent ->
     runLoop body st later = (st', out, thrown) ->
     keptOrRestarted child parent out (toolParents st')) /\
  (forall thread parents message attachments parent,
     parents !! child = Some parent ->
     keptOrRestarted child parent
       (yielded (chat thread parents message attachments))
       (toolParents (finalState (chat thread parents message attachments)))) /\
  (forall st toolResult parent,
     tr_toolUseId toolResult = child ->
     toolParents st !! child = None ->
     yieldToolResult toolResult (Some parent) st =
       (setToolParent child parent st,
        [parent_update child parent; toolResultEvent toolResult], None)) /\
  (forall st toolResult parent',
     is_Some (toolParents st !! child) ->
     toolParents (fst (fst (yieldToolResult toolResult parent' st))) !! child =
       toolParents st !! child /\
     (tr_toolUseId toolResult = child ->
      yieldToolResult toolResult parent' st = (st, [toolResultEvent toolResult], None))).
Proof.
  intros _.
  split; [| split; [| split; [| split; [| split]]]].
  - intros thread parents message attachments.
    now rewrite (proj1 (chat_written thread parents message attachments)).
  - intros thread parents message attachments before parent after Hsplit.
    pose proof (proj2 (chat_written thread parents message attachments)) as Hfirst.
    rewrite Hsplit in Hfirst. now apply updatesOnFirstSight_split in Hfirst.
  - intros body st later st' out thrown parent Hbody Hchild Hrun.
    eapply runLoop_parents; eauto using loopBodies_Shaped.
  - intros thread parents message attachments parent Hchild.
    destruct (chatLoop thread parents message) as [[st fromLoop] thrown] eqn:Hloop.
    destruct (chat_yielded thread parents message attachments _ _ _ Hloop)
      as (notice & trailing & -> & -> & _).
    pose proof (chatLoop_parents _ _ _ _ _ _ _ _ Hloop Hchild) as [H | (p & e & Hin & Hs & Hm)].
    + now left.
    + right. exists p, e. split; [| easy].
      apply in_or_app. right. apply in_or_app. now left.
  - intros st toolResult parent <- Hnone.
    unfold yieldToolResult, hasToolParent. now rewrite Hnone.
  - intros st toolResult parent' [p Hchild]. split.
    + unfold yieldToolResult, continue.
      destruct parent' as [q |]; [| reflexivity].
      destruct (hasToolParent (tr_toolUseId toolResult) st) eqn:Hhas; [reflexivity |].
      apply hasToolParent_false in Hhas. cbn.
      rewrite lookup_insert_ne; [reflexivity |].
      intros Heq. rewrite Heq in Hhas. congruence.
    + intros <-. unfold yieldToolResult, hasToolParent, continue. rewrite Hchild.
      now destruct parent'.
Qed.

Lemma toolParents_replaced_only_by_tool_start_witness :
  toolParents
    (finalState (chat (streamOf [toolCall "p1"; toolCompletedUnder "t2" "p9";
                                 toolCall "p2"; toolCompletedUnder "t2" "p8"])
                   ∅ "hi" None))
    !! JStr "t1" = Some (JStr "p2") /\
  parentsAfterAll ∅
    [tool_start (JStr "Read") (JStr "t1") (JObj []) None None (Some (JStr "p1"))]
    !! JStr "t2" = None.
Proof.
  split.
  - destruct (toolParents_replaced_only_by_tool_start (JStr "t1") eq_refl)
      as [Hwritten _].
    rewrite Hwritten. vm_compute. reflexivity.
  - destruct (toolParents_replaced_only_by_tool_start (JStr "t2") eq_refl)
      as [_ [Hfirst _]].
    apply (Hfirst (streamOf [toolCall "p1"; toolCompletedUnder "t2" "p9";
                             toolCall "p2"; toolCompletedUnder "t2" "p8"])
             ∅ "hi" None _ (JStr "p9")
             [tool_result (JStr "t2") "ok" false;
              tool_start (JStr "Read") (JStr "t1") (JObj []) None None (Some (JStr "p2"));
              tool_result (JStr "t2") "ok" false]).
    vm_compute. reflexivity.
Defined.

End ChatProperties.

(* ===================================================================== *)
(** * Properties: thinking-level tables and token budgets                 *)
(* ===================================================================== *)

Section ThinkingTableProperties.
Import JS ThinkingLevels.

(** Whatever the level and the model id, the budget table has an entry:
    the budget is between 0 and 32000 tokens, at most 8000 for a model id
    that contains "haiku" in any letter case, and it is 0 exactly for the
    levels off and low. *)
Theorem getThinkingTokens_budget (level : ThinkingLevel) (modelId : string) :
  exists tokens,
    getThinkingTokens level modelId = Some tokens /\
    (0 <= tokens <= 32000)%Z /\
    (includes "haiku" (toLowerCase modelId) = true -> (tokens <= 8000)%Z) /\
    (tokens = 0%Z <-> level = Off \/ level = Low).
Proof.
  unfold getThinkingTokens.
  destruct (includes "haiku" (toLowerCase modelId)), level; cbn;
    eexists; (split; [reflexivity |]);
    repeat split; intros; try lia; try easy; intuition (try discriminate; try lia).
Qed.

(** The rank of a level on its own scale: off, think, max for one
    provider and low, medium, high, xhigh for the other. *)
Definition depth (level : ThinkingLevel) : nat :=
  match level with
  | Off | Low => 0
  | Think | Medium => 1
  | Max | High => 2
  | XHigh => 3
  end.

(** The tokens of a level, 0 when the table has no entry. *)
Definition tokensOf (level : ThinkingLevel) (modelId : string) : Z :=
  default 0%Z (getThinkingTokens level modelId).

(** A deeper level never gets a smaller budget, and for the same level a
    haiku model never gets more than another model. *)
Theorem getThinkingTokens_monotone (shallow deep : ThinkingLevel) (modelId other : string) :
  (depth shallow <= depth deep)%nat ->
  (tokensOf shallow modelId <= tokensOf deep modelId)%Z /\
  (includes "haiku" (toLowerCase modelId) = true ->
   (tokensOf shallow modelId <= tokensOf shallow other)%Z).
Proof.
  unfold tokensOf, getThinkingTokens. intros Hdepth.
  destruct (includes "haiku" (toLowerCase modelId));
    destruct (includes "haiku" (toLowerCase other));
    destruct shallow, deep; cbn in *; split; intros; first [lia | discriminate].
Qed.

Lemma getThinkingTokens_monotone_witness :
  (tokensOf Medium "claude-haiku-4-5-20251001" <= tokensOf XHigh "claude-haiku-4-5-20251001")%Z /\
  (tokensOf Medium "claude-haiku-4-5-20251001" <= tokensOf Medium "claude-opus-4-5-20251101")%Z.
Proof.
  destruct (getThinkingTokens_monotone Medium XHigh "claude-haiku-4-5-20251001"
              "claude-opus-4-5-20251101") as [H1 H2].
  - cbn. lia.
  - split; [exact H1 | exact (H2 eq_refl)].
Defined.

(** The ids of a table of levels. *)
Definition levelIds (levels : list ThinkingLevelDefinition) : list ThinkingLevel :=
  map level_id levels.

(** The level a provider is given is always one of the levels the
    settings offer for that provider and model: the Codex normalisation
    lands in the list for [codex_oauth] (the two-level list for a mini
    model), the Claude normalisation in the list for any other
    authentication type. *)
Theorem normalized_level_is_offered (level : ThinkingLevel)
    (authType modelId : option string) :
  (authType = Some "codex_oauth" ->
   normalizeThinkingLevelForCodex level modelId
     ∈ levelIds (getThinkingLevelsForModel authType modelId)) /\
  (authType <> Some "codex_oauth" ->
   normalizeThinkingLevelForClaude level
     ∈ levelIds (getThinkingLevelsForModel authType modelId)).
Proof.
  split.
  - intros ->. unfold getThinkingLevelsForModel, normalizeThinkingLevelForCodex, isMini.
    cbn [String.eqb]. replace (String.eqb "codex_oauth" "codex_oauth") with true by reflexivity.
    destruct modelId as [m |].
    + destruct (includes "codex-mini" m) eqn:Hmini.
      * assert (String.eqb m "" = false) as ->.
        { destruct m; [discriminate Hmini | reflexivity]. }
        destruct level; cbn; set_solver.
      * rewrite andb_false_r. destruct level; cbn; set_solver.
    + destruct level; cbn; set_solver.
  - intros Hauth. unfold getThinkingLevelsForModel.
    assert (match authType with
            | Some a => String.eqb a "codex_oauth"
            | None => false
            end = false) as ->.
    { destruct authType as [a |]; [| reflexivity].
      destruct (String.eqb a "codex_oauth") eqn:E; [| reflexivity].
      apply String.eqb_eq in E. congruence. }
    destruct level; cbn; set_solver.
Qed.

Lemma normalized_level_is_offered_witness :
  normalizeThinkingLevelForCodex Off (Some "gpt-5.1-codex-mini")
    ∈ levelIds (getThinkingLevelsForModel (Some "codex_oauth") (Some "gpt-5.1-codex-mini")) /\
  normalizeThinkingLevelForClaude XHigh
    ∈ levelIds (getThinkingLevelsForModel (Some "api_key") None).
Proof.
  split.
  - exact (proj1 (normalized_level_is_offered Off (Some "codex_oauth")
                    (Some "gpt-5.1-codex-mini")) eq_refl).
  - apply (proj2 (normalized_level_is_offered XHigh (Some "api_key") None)).
    discriminate.
Defined.

(** [isValidThinkingLevel] accepts exactly the seven level names, as
    strings: no other string and no value of another type. *)
Theorem isValidThinkingLevel_iff (value : JsVal) :
  isValidThinkingLevel value = true <-> exists level, value = JStr (levelName level).
Proof.
  unfold isValidThinkingLevel, strictEqStr. split.
  - destruct value as [| | b | n | s | items | fields]; cbn; try discriminate.
    rewrite !orb_true_iff, !String.eqb_eq.
    intros [[[[[[-> | ->] | ->] | ->] | ->] | ->] | ->];
      [exists Off | exists Think | exists Max | exists Low
      | exists Medium | exists High | exists XHigh]; reflexivity.
  - intros [level ->]. now destruct level.
Qed.

Lemma findLevel_Some (level : ThinkingLevel) (levels : list ThinkingLevelDefinition)
    (def : ThinkingLevelDefinition) :
  findLevel level levels = Some def -> In def levels /\ level_id def = level.
Proof.
  induction levels as [| l rest IH]; cbn; [discriminate |].
  destruct (decide (level_id l = level)) as [Heq | Hne].
  - intros H. injection H as <-. auto.
  - intros H. destruct (IH H). auto.
Qed.

(** Every level has an entry in [THINKING_LEVELS], so
    [getThinkingLevelName] returns a label of the table and never the raw
    id; two levels never share a label. *)
Theorem getThinkingLevelName_label (level other : ThinkingLevel) :
  (exists def, In def THINKING_LEVELS /\ level_id def = level /\
               getThinkingLevelName level = level_name def) /\
  (getThinkingLevelName level = getThinkingLevelName other -> level = other).
Proof.
  split.
  - assert (Hfound : exists def, findLevel level THINKING_LEVELS = Some def)
      by (destruct level; cbn; eauto).
    destruct Hfound as [def Hdef]. exists def.
    unfold getThinkingLevelName. rewrite Hdef.
    destruct (findLevel_Some _ _ _ Hdef) as [Hin Hid]. auto.
  - destruct level, other; cbn; intros H; first [reflexivity | discriminate H].
Qed.

End ThinkingTableProperties.

(* ===================================================================== *)
(** * Properties: the model catalogs                                      *)
(* ===================================================================== *)

Section ModelProperties.
Import JS Models.

Lemma findModel_Some (modelId : string) (models : list ModelDefinition)
    (m : ModelDefinition) :
  findModel modelId models = Some m -> In m models /\ model_id m = modelId.
Proof.
  induction models as [| x rest IH]; cbn; [discriminate |].
  destruct (String.eqb (model_id x) modelId) eqn:E.
  - intros H. injection H as <-. apply String.eqb_eq in E. auto.
  - intros H. destruct (IH H). auto.
Qed.

Lemma findInCatalogs_Some (modelId : string) (m : ModelDefinition) :
  findInCatalogs modelId = Some m ->
  In m (MODELS ++ CODEX_MODELS) /\ model_id m = modelId.
Proof.
  unfold findInCatalogs.
  destruct (findModel modelId MODELS) as [x |] eqn:E.
  - intros H. injection H as <-. apply findModel_Some in E as [Hin Hid].
    split; [apply in_or_app; now left | exact Hid].
  - intros H. apply findModel_Some in H as [Hin Hid].
    split; [apply in_or_app; now right | exact Hid].
Qed.

(** Looking a catalog model up by its id gives that model back: the
    display name and the short name of every selectable model, whatever
    the authentication type, are the ones of its catalog entry, never
    the fallback computed from the id. *)
Theorem selectable_model_names (authType : option string) (m : ModelDefinition) :
  In m (getSelectableModels authType) ->
  findInCatalogs (model_id m) = Some m /\
  getModelDisplayName (model_id m) = model_name m /\
  getModelShortName (model_id m) = model_shortName m.
Proof.
  intros Hin.
  assert (Hall : In m (MODELS ++ CODEX_MODELS)).
  { unfold getSelectableModels in Hin. apply in_or_app.
    destruct authType as [a |]; [destruct (String.eqb a "codex_oauth") |]; auto. }
  cbn in Hall.
  repeat (destruct Hall as [<- | Hall]; [repeat split; reflexivity |]).
  contradiction.
Qed.

Lemma selectable_model_names_witness :
  getModelShortName "gpt-5.1-codex-mini" = "5.1 Mini".
Proof.
  refine (proj2 (proj2 (selectable_model_names (Some "codex_oauth")
    {| model_id := "gpt-5.1-codex-mini"; model_name := "GPT-5.1 Codex Mini";
       model_shortName := "5.1 Mini";
       model_description := "Cost-effective coding model";
       model_contextWindow := None |} _))).
  cbn. tauto.
Defined.

(** [isCodexModel] holds exactly for the ids of the models offered under
    [codex_oauth]; none of them is a Claude model, and every model
    offered otherwise is a Claude model and no Codex model. *)
Theorem isCodexModel_iff (modelId : string) :
  (isCodexModel modelId = true <->
   exists m, In m (getSelectableModels (Some "codex_oauth")) /\ model_id m = modelId) /\
  (isCodexModel modelId = true -> isClaudeModel modelId = false) /\
  (forall authType m,
     authType <> Some "codex_oauth" ->
     In m (getSelectableModels authType) ->
     isClaudeModel (model_id m) = true /\ isCodexModel (model_id m) = false).
Proof.
  assert (Hiff : isCodexModel modelId = true <->
                 exists m, In m CODEX_MODELS /\ model_id m = modelId).
  { unfold isCodexModel. rewrite existsb_exists.
    split; intros (m & Hin & H); exists m; split; auto.
    - now apply String.eqb_eq.
    - now apply String.eqb_eq. }
  split; [exact Hiff |]. split.
  - intros H. apply Hiff in H as (m & Hin & <-).
    cbn in Hin. repeat (destruct Hin as [<- | Hin]; [reflexivity |]). contradiction.
  - intros authType m Hauth Hin.
    assert (Hm : In m MODELS).
    { unfold getSelectableModels in Hin. destruct authType as [a |]; [| exact Hin].
      destruct (String.eqb a "codex_oauth") eqn:E; [| exact Hin].
      apply String.eqb_eq in E. congruence. }
    cbn in Hm. repeat (destruct Hm as [<- | Hm]; [split; reflexivity |]). contradiction.
Qed.

Lemma isCodexModel_iff_witness :
  isClaudeModel "gpt-5.2-codex" = false.
Proof.
  apply (proj1 (proj2 (isCodexModel_iff "gpt-5.2-codex"))). reflexivity.
Defined.

(** A context window is known exactly for the models of the Claude
    catalog, and it is 200000 tokens: the Codex models and every unknown
    id give [undefined]. *)
Theorem getModelContextWindow_known (modelId : string) (window : Z) :
  getModelContextWindow modelId = Some window <->
  window = 200000%Z /\ exists m, In m MODELS /\ model_id m = modelId.
Proof.
  unfold getModelContextWindow. split.
  - destruct (findModel modelId MODELS) as [m |] eqn:E.
    + apply findModel_Some in E as [Hin Hid].
      assert (Hwindow : model_contextWindow m = Some 200000%Z).
      { cbn in Hin.
        repeat (destruct Hin as [<- | Hin]; [reflexivity |]). contradiction. }
      rewrite Hwindow. intros H. injection H as <-.
      split; [reflexivity | now exists m].
    + destruct (findModel modelId CODEX_MODELS) as [m |] eqn:E2; [| discriminate].
      apply findModel_Some in E2 as [Hin <-]. cbn in Hin.
      repeat (destruct Hin as [<- | Hin]; [discriminate |]). contradiction.
  - intros [-> (m & Hin & <-)]. cbn in Hin.
    repeat (destruct Hin as [<- | Hin]; [reflexivity |]). contradiction.
Qed.

(** ** Names computed from the id *)

(** No id of the catalogs holds a slash. *)
Lemma findInCatalogs_no_slash (modelId : string) (m : ModelDefinition) :
  findInCatalogs modelId = Some m -> hasUnit "/" modelId = false.
Proof.
  intros H. apply findInCatalogs_Some in H as [Hin <-]. cbn in Hin.
  repeat (destruct Hin as [<- | Hin]; [reflexivity |]). contradiction.
Qed.

Lemma includes_unit (c : ascii) (s : string) :
  includes (String c EmptyString) s = hasUnit c s.
Proof.
  induction s as [| d s IH]; [reflexivity |].
  cbn [includes hasUnit]. rewrite IH. f_equal.
  cbn. destruct (ascii_dec c d) as [-> | Hne].
  - rewrite Ascii.eqb_refl. now destruct s.
  - symmetry. apply Ascii.eqb_neq. congruence.
Qed.

(** The parts of [provider/name], for a name without a slash, end with
    the name. *)
Lemma split_ends_with (c : ascii) (provider name : string) :
  hasUnit c name = false ->
  exists first others,
    split c (provider +:+ String c EmptyString +:+ name) = (first :: others) ++ [name].
Proof.
  intros Hname. change (String c EmptyString +:+ name) with (String c name).
  induction provider as [| d provider (first & others & IH)]; simpl.
  - rewrite Ascii.eqb_refl, (split_without c name Hname).
    now exists EmptyString, [].
  - destruct (Ascii.eqb d c).
    + rewrite IH. now exists EmptyString, (first :: others).
    + rewrite IH. cbn. now exists (String d first), others.
Qed.

Lemma lastPart_app (parts : list string) (p : string) :
  lastPart (parts ++ [p]) = Some p.
Proof.
  unfold lastPart. rewrite map_app. cbn. apply List.last_last.
Qed.

(** For an id with a provider prefix, [provider/name] with a name that
    is not empty and holds no slash, the short name is the name; for an
    id that ends with a slash it is the whole id. *)
Theorem getModelShortName_provider_prefix (provider name : string) :
  hasUnit "/" name = false ->
  getModelShortName (provider +:+ "/" +:+ name) =
    if String.eqb name "" then provider +:+ "/" +:+ name else name.
Proof.
  intros Hname. unfold getModelShortName.
  assert (Hslash : hasUnit "/" (provider +:+ "/" +:+ name) = true).
  { rewrite !hasUnit_app. cbn. now rewrite orb_true_r. }
  destruct (findInCatalogs (provider +:+ "/" +:+ name)) as [m |] eqn:E.
  { apply findInCatalogs_no_slash in E. congruence. }
  rewrite includes_unit, Hslash.
  destruct (split_ends_with "/" provider name Hname) as (first & others & ->).
  now rewrite lastPart_app.
Qed.

Lemma getModelShortName_provider_prefix_witness :
  getModelShortName "openai/gpt-5" = "gpt-5".
Proof.
  exact (getModelShortName_provider_prefix "openai" "gpt-5" eq_refl).
Defined.

Lemma removeFirst_at_start (pattern rest : string) :
  removeFirst pattern (pattern +:+ rest) = rest.
Proof.
  assert (Hdrop : dropUnits (String.length pattern) (pattern +:+ rest) = rest).
  { induction pattern as [| c p IH]; [reflexivity |].
    change (String c p +:+ rest) with (String c (p +:+ rest)). exact IH. }
  assert (Hprefix : String.prefix pattern (pattern +:+ rest) = true).
  { clear Hdrop. induction pattern as [| c p IH]; simpl; [now destruct rest |].
    destruct (ascii_dec c c); [exact IH | contradiction]. }
  destruct pattern as [| c p].
  - now destruct rest.
  - change (String c p +:+ rest) with (String c (p +:+ rest)) in *.
    cbn [removeFirst]. now rewrite Hprefix.
Qed.

Lemma isDateSuffix_length (s : string) :
  isDateSuffix s = true -> String.length s = 9%nat.
Proof.
  destruct s as [| c digits]; cbn; [discriminate |].
  rewrite !andb_true_iff. intros [[_ H] _]. apply Nat.eqb_eq in H. now rewrite H.
Qed.

Lemma length_append (a b : string) :
  String.length (a +:+ b) = (String.length a + String.length b)%nat.
Proof. induction a as [| c a IH]; simpl; [reflexivity | now rewrite IH]. Qed.

Lemma stripDateSuffix_date (base date : string) :
  isDateSuffix date = true -> stripDateSuffix (base +:+ date) = base.
Proof.
  intros Hdate. induction base as [| c base IH].
  - change (EmptyString +:+ date) with date.
    destruct date; [discriminate Hdate |].
    cbn [stripDateSuffix]. now rewrite Hdate.
  - change (String c base +:+ date) with (String c (base +:+ date)).
    cbn [stripDateSuffix].
    destruct (isDateSuffix (String c (base +:+ date))) eqn:E.
    + apply isDateSuffix_length in E. apply isDateSuffix_length in Hdate.
      cbn [String.length] in E. rewrite length_append in E. lia.
    + now rewrite IH.
Qed.

(** For an id outside the catalogs of the form [claude-<base>-<date>],
    the date being eight digits, the display name is the base: the
    prefix and the date are cut off, whatever the base holds. *)
Theorem getModelDisplayName_strips (base digits : string) :
  String.length digits = 8%nat ->
  allUnits isDigit digits = true ->
  findInCatalogs ("claude-" +:+ base +:+ "-" +:+ digits) = None ->
  getModelDisplayName ("claude-" +:+ base +:+ "-" +:+ digits) = base.
Proof.
  intros Hlen Hdigits Hnew. unfold getModelDisplayName. rewrite Hnew.
  rewrite removeFirst_at_start.
  apply stripDateSuffix_date.
  change ("-" +:+ digits) with (String "-"%char digits). cbn.
  rewrite Hdigits. apply Nat.eqb_eq in Hlen. now rewrite Hlen.
Qed.

Lemma getModelDisplayName_strips_witness :
  getModelDisplayName "claude-sonnet-4-20250514" = "sonnet-4".
Proof.
  exact (getModelDisplayName_strips "sonnet-4" "20250514" eq_refl eq_refl eq_refl).
Defined.

End ModelProperties.

(* ===================================================================== *)
(** * Properties: the authentication status                               *)
(* ===================================================================== *)

Section StatusProperties.
Import JS CodexAuth.

Variable JSON_parse : string -> Exc JsVal.
Variable CODEX_AUTH_PATH : string.

(** The status of a file that is missing, unreadable or malformed. *)
Definition noCredentials : CodexAuthStatus :=
  {| hasToken := false; accessToken := JNull; refreshToken := JNull;
     accountId := JNull; lastRefresh := JNull |}.

Lemma coalesce_null_defined (v : JsVal) : coalesce v JNull <> JUndef.
Proof. now destruct v. Qed.

(** [getCodexAuthStatus] always returns a status, whatever the file
    system holds: its four fields are a value of the file or null, never
    undefined, and [hasToken] says whether the access token is truthy.
    A file that is missing, cannot be read or cannot be parsed gives the
    status without credentials, and [getCodexAccessToken] returns the
    access token of the status. *)
Theorem getCodexAuthStatus_total (fs : FileSystem) :
  exists status,
    fst (getCodexAuthStatus JSON_parse CODEX_AUTH_PATH fs) = Ok status /\
    fst (getCodexAccessToken JSON_parse CODEX_AUTH_PATH fs) = Ok (accessToken status) /\
    hasToken status = truthy (accessToken status) /\
    (accessToken status <> JUndef /\ refreshToken status <> JUndef /\
     accountId status <> JUndef /\ lastRefresh status <> JUndef) /\
    (readCodexAuthFile_try JSON_parse CODEX_AUTH_PATH fs = Ok JNull \/
     (exists e, readCodexAuthFile_try JSON_parse CODEX_AUTH_PATH fs = Throw e) ->
     status = noCredentials).
Proof.
  unfold getCodexAccessToken, getCodexAuthStatus, readCodexAuthFile.
  destruct (readCodexAuthFile_try JSON_parse CODEX_AUTH_PATH fs) as [file | e];
    cbn [fst bindExc].
  - exists (statusOfFile file). repeat split; try apply coalesce_null_defined.
    intros [H | [e H]]; [| discriminate]. now injection H as ->.
  - exists noCredentials. repeat split; discriminate.
Qed.

(** The access token of a file is read from [tokens.access_token]: a
    string that is not empty gives [hasToken] and that token; when the
    field is missing, null or the empty string, or [tokens] itself is
    missing, [hasToken] is false. *)
Theorem statusOfFile_access_token (file : JsVal) :
  (forall token,
     prop (prop file "tokens") "access_token" = JStr token -> token <> "" ->
     hasToken (statusOfFile file) = true /\
     accessToken (statusOfFile file) = JStr token) /\
  (truthy (prop (prop file "tokens") "access_token") = false ->
   hasToken (statusOfFile file) = false).
Proof.
  unfold statusOfFile. cbn [hasToken accessToken].
  assert (Htokens : forall k,
            prop (coalesce (prop file "tokens") JNull) k = prop (prop file "tokens") k).
  { intros k. now destruct (prop file "tokens"). }
  rewrite Htokens. split.
  - intros token -> Hne. cbn. split; [| reflexivity].
    destruct (String.eqb token "") eqn:E; [| reflexivity].
    apply String.eqb_eq in E. contradiction.
  - now destruct (prop (prop file "tokens") "access_token").
Qed.

End StatusProperties.

(** The file of the documentation, with the tokens shortened. *)
Definition observedAuthFile : JS.JsVal :=
  JS.JObj [ ("OPENAI_API_KEY", JS.JNull);
            ("tokens", JS.JObj [ ("id_token", JS.JStr "idt");
                                 ("access_token", JS.JStr "act");
                                 ("refresh_token", JS.JStr "rft");
                                 ("account_id", JS.JStr "acc") ]);
            ("last_refresh", JS.JStr "2026-01-28T06:22:00.802674Z") ].

Lemma statusOfFile_access_token_witness :
  CodexAuth.hasToken (CodexAuth.statusOfFile observedAuthFile) = true /\
  CodexAuth.accessToken (CodexAuth.statusOfFile observedAuthFile) = JS.JStr "act".
Proof.
  apply (proj1 (statusOfFile_access_token observedAuthFile) "act").
  - reflexivity.
  - discriminate.
Defined.

(* ===================================================================== *)
(** * Properties: the executable and its environment                      *)
(* ===================================================================== *)

Section SetupProperties.
Import JS CodexSetup.

Variable join : list string -> string.

Lemma fromEnvironment_exists (h : Host) (p : string) :
  fromEnvironment h = Some p -> existsSync h p = true.
Proof.
  unfold fromEnvironment.
  destruct (orElse _ _) as [envPath |]; [| discriminate].
  destruct (negb (String.eqb envPath "") && existsSync h envPath) eqn:E; [| discriminate].
  intros H. injection H as <-. now apply andb_true_iff in E as [_ E].
Qed.

Lemma lookupOnPath_exists (h : Host) (p : string) :
  lookupOnPath h = Some p -> existsSync h p = true.
Proof.
  unfold lookupOnPath. destruct (execSync h _) as [out | e]; [| discriminate].
  destruct (negb (String.eqb (firstLine out) "") && existsSync h (firstLine out)) eqn:E;
    [| discriminate].
  intros H. injection H as <-. now apply andb_true_iff in E as [_ E].
Qed.

(** A path returned by [resolveCodexExecutable] names a file that
    exists, wherever it was found; [undefined] is returned only when none
    of the well-known installation places exists, and the path handed to
    the SDK is then the bare command name. *)
Theorem resolveCodexExecutable_exists (h : Host) :
  (forall p, resolveCodexExecutable join h = Some p -> existsSync h p = true) /\
  (resolveCodexExecutable join h = None ->
   (forall c, In c (candidates join h) -> existsSync h c = false) /\
   codexPathOverride join h = "codex") /\
  (codexPathOverride join h = "codex" \/
   existsSync h (codexPathOverride join h) = true).
Proof.
  assert (Hsound : forall p, resolveCodexExecutable join h = Some p ->
                             existsSync h p = true).
  { intros p. unfold resolveCodexExecutable.
    destruct (fromEnvironment h) as [envPath |] eqn:Henv.
    { intros H. injection H as <-. now apply fromEnvironment_exists. }
    destruct (lookupOnPath h) as [output |] eqn:Hpath.
    { intros H. injection H as <-. now apply lookupOnPath_exists. }
    intros H. now apply List.find_some in H as [_ H]. }
  split; [exact Hsound |]. split.
  - intros Hnone. split.
    + intros c Hin. unfold resolveCodexExecutable in Hnone.
      destruct (fromEnvironment h); [discriminate |].
      destruct (lookupOnPath h); [discriminate |].
      exact (List.find_none _ _ Hnone c Hin).
    + unfold codexPathOverride. now rewrite Hnone.
  - unfold codexPathOverride.
    destruct (resolveCodexExecutable join h) as [p |] eqn:E; cbn.
    + right. now apply Hsound.
    + now left.
Qed.

(** The override of the environment comes first: [CODEX_PATH], when it
    is set to a file that exists, is the result whatever the PATH query
    and the installation places give.  [CODEX_CLI_PATH] is read only when
    [CODEX_PATH] is unset or empty: a [CODEX_PATH] that names a missing
    file hides it. *)
Theorem resolveCodexExecutable_override (h : Host) (p : string) :
  processEnv h !! "CODEX_PATH" = Some p -> p <> "" ->
  (existsSync h p = true -> resolveCodexExecutable join h = Some p) /\
  (existsSync h p = false -> fromEnvironment h = None).
Proof.
  intros Henv Hne.
  assert (Hp : String.eqb p "" = false) by now apply String.eqb_neq.
  unfold resolveCodexExecutable, fromEnvironment, orElse.
  rewrite Henv, Hp. cbn beta iota. rewrite Hp. cbn [negb andb].
  split; intros ->; reflexivity.
Qed.

End SetupProperties.

(** A machine with [CODEX_PATH] set to an installed executable and no
    [codex] on the PATH. *)
Definition hostWithOverride : CodexSetup.Host :=
  {| CodexSetup.processEnv := {[ "CODEX_PATH" := "/opt/codex/bin/codex" ]};
     CodexSetup.platform := "linux";
     CodexSetup.existsSync := fun p => String.eqb p "/opt/codex/bin/codex";
     CodexSetup.execSync := fun _ => JS.Throw (JS.OtherError "exit status 1");
     CodexSetup.homedir := "/home/u" |}.

Lemma resolveCodexExecutable_override_witness :
  CodexSetup.resolveCodexExecutable (JS.join "/") hostWithOverride =
    Some "/opt/codex/bin/codex".
Proof.
  apply (resolveCodexExecutable_override (JS.join "/") hostWithOverride
           "/opt/codex/bin/codex").
  - reflexivity.
  - discriminate.
  - reflexivity.
Defined.

Section EnvironmentProperties.
Import JS CodexSetup.

Definition proxyVariables : list string := ["HTTP_PROXY"; "HTTPS_PROXY"; "ALL_PROXY"].

(** Closes a goal [k ∉ [k1; ...; kn]] for strings that differ. *)
Ltac not_listed :=
  let H := fresh "H" in
  intros H;
  repeat (apply elem_of_cons in H as [H | H]; [discriminate H |]);
  now apply elem_of_nil in H.

(** No credential variable is a proxy variable. *)
Lemma credentials_not_proxy (k : string) :
  k ∈ inheritedCredentials -> k ∉ proxyVariables.
Proof.
  unfold inheritedCredentials, proxyVariables. intros Hk.
  repeat (apply elem_of_cons in Hk as [-> | Hk]; [not_listed |]).
  now apply elem_of_nil in Hk.
Qed.

Lemma deleteCredentials_lookup (env : gmap string string) (k : string) :
  deleteCredentials env !! k = if bool_decide (k ∈ inheritedCredentials) then None else env !! k.
Proof.
  unfold deleteCredentials, inheritedCredentials.
  case_bool_decide as Hk.
  - repeat (apply elem_of_cons in Hk as [-> | Hk];
            [now repeat first [rewrite lookup_delete_eq | rewrite lookup_delete_ne by discriminate] |]).
    now apply elem_of_nil in Hk.
  - rewrite !lookup_delete_ne; [reflexivity | ..];
      intros <-; apply Hk; repeat first [apply list_elem_of_here | apply list_elem_of_further].
Qed.

Lemma setProxy_lookup (url : string) (env : gmap string string) (k : string) :
  setProxy url env !! k = if bool_decide (k ∈ proxyVariables) then Some url else env !! k.
Proof.
  unfold setProxy, proxyVariables.
  case_bool_decide as Hk.
  - repeat (apply elem_of_cons in Hk as [-> | Hk];
            [now repeat first [rewrite lookup_insert_eq | rewrite lookup_insert_ne by discriminate] |]).
    now apply elem_of_nil in Hk.
  - rewrite !lookup_insert_ne; [reflexivity | ..];
      intros <-; apply Hk; repeat first [apply list_elem_of_here | apply list_elem_of_further].
Qed.

(** The environment of an agent with subscription login holds none of
    the six inherited credential variables; with any other
    authentication type they are passed on as they are.  The proxy
    variables are set to the configured proxy, and every other variable
    is the one of the process. *)
Theorem agentEnv_variables (env : gmap string string)
    (proxyUrl authType : option string) (k : string) :
  (k ∈ inheritedCredentials ->
   agentEnv env proxyUrl authType !! k =
     if bool_decide (authType = Some "codex_oauth") then None else env !! k) /\
  (k ∈ proxyVariables ->
   agentEnv env proxyUrl authType !! k =
     match truthyOption proxyUrl with
     | Some url => Some url
     | None => env !! k
     end) /\
  (k ∉ inheritedCredentials -> k ∉ proxyVariables ->
   agentEnv env proxyUrl authType !! k = env !! k).
Proof.
  assert (Hauth : forall e : gmap string string,
            match authType with
            | Some a => if String.eqb a "codex_oauth" then deleteCredentials e else e
            | None => e
            end !! k =
            if bool_decide (authType = Some "codex_oauth")
            then deleteCredentials e !! k else e !! k).
  { intros e. destruct authType as [a |].
    - destruct (String.eqb a "codex_oauth") eqn:E.
      + apply String.eqb_eq in E as ->. now rewrite bool_decide_eq_true_2.
      + rewrite bool_decide_eq_false_2; [reflexivity |].
        intros H. injection H as ->. now rewrite String.eqb_refl in E.
    - now rewrite bool_decide_eq_false_2. }
  unfold agentEnv. cbv zeta. rewrite Hauth, deleteCredentials_lookup.
  assert (Hproxy : match truthyOption proxyUrl with
                   | Some url => setProxy url env
                   | None => env
                   end !! k =
                   if bool_decide (k ∈ proxyVariables)
                   then match truthyOption proxyUrl with
                        | Some url => Some url
                        | None => env !! k
                        end
                   else env !! k).
  { destruct (truthyOption proxyUrl) as [url |].
    - apply setProxy_lookup.
    - now destruct (bool_decide (k ∈ proxyVariables)). }
  rewrite Hproxy.
  split; [| split].
  - intros Hk. rewrite (bool_decide_eq_true_2 _ Hk).
    rewrite (bool_decide_eq_false_2 (k ∈ proxyVariables)); [reflexivity |].
    now apply credentials_not_proxy.
  - intros Hk. rewrite (bool_decide_eq_true_2 _ Hk).
    rewrite (bool_decide_eq_false_2 (k ∈ inheritedCredentials)).
    + now destruct (bool_decide (authType = Some "codex_oauth")).
    + intros Hc. now apply credentials_not_proxy in Hc.
  - intros Hc Hp. rewrite (bool_decide_eq_false_2 _ Hc), (bool_decide_eq_false_2 _ Hp).
    now destruct (bool_decide (authType = Some "codex_oauth")).
Qed.

Lemma agentEnv_variables_witness :
  agentEnv {[ "OPENAI_API_KEY" := "sk-1" ]} None (Some "codex_oauth") !! "OPENAI_API_KEY" = None.
Proof.
  apply (proj1 (agentEnv_variables {[ "OPENAI_API_KEY" := "sk-1" ]} None
                  (Some "codex_oauth") "OPENAI_API_KEY")).
  apply elem_of_cons. now left.
Defined.

(** The title generator prepares the same environment as an agent with
    subscription login and the same proxy, although it removes the
    credentials before it sets the proxy and the agent after. *)
Theorem titleEnv_agentEnv (env : gmap string string) (proxyEnabled : bool)
    (proxyUrl : option string) :
  titleEnv env proxyEnabled proxyUrl =
  agentEnv env (if proxyEnabled then proxyUrl else None) (Some "codex_oauth").
Proof.
  apply map_eq. intros k.
  unfold titleEnv, agentEnv. cbv zeta.
  replace (String.eqb "codex_oauth" "codex_oauth") with true by reflexivity.
  assert (Hsame : truthyOption (if proxyEnabled then proxyUrl else None) =
                  if proxyEnabled then truthyOption proxyUrl else None)
    by now destruct proxyEnabled.
  rewrite Hsame.
  destruct (if proxyEnabled then truthyOption proxyUrl else None) as [url |];
    [| reflexivity].
  rewrite setProxy_lookup, !deleteCredentials_lookup, setProxy_lookup.
  destruct (decide (k ∈ inheritedCredentials)) as [Hc | Hc].
  - rewrite !(bool_decide_eq_true_2 _ Hc).
    now rewrite (bool_decide_eq_false_2 _ (credentials_not_proxy k Hc)).
  - rewrite !(bool_decide_eq_false_2 _ Hc). reflexivity.
Qed.

End EnvironmentProperties.

(* ===================================================================== *)
(** * Properties: the thread of an agent                                  *)
(* ===================================================================== *)

Section ThreadProperties.
Import JS CodexAgent ThinkingLevels.

(** The options of a thread always skip the repository check and always
    carry a reasoning effort, one of low, medium, high and xhigh; with the
    ultrathink override the effort is xhigh (high for a mini model)
    whatever the thinking level is.  The model is left out exactly when
    it is unset or empty and is the agent's model otherwise, and so is
    the working directory. *)
Theorem buildThreadOptions_effort (a : Agent) :
  opt_skipGitRepoCheck (buildThreadOptions a) = true /\
  (exists effort,
     opt_modelReasoningEffort (buildThreadOptions a) = Some effort /\
     effort ∈ [Low; Medium; High; XHigh] /\
     (ultrathinkOverride a = true ->
      effort = if isMini (model a) then High else XHigh)) /\
  (opt_model (buildThreadOptions a) = None <->
   model a = None \/ model a = Some "") /\
  (forall m, model a = Some m -> m <> "" ->
             opt_model (buildThreadOptions a) = Some m) /\
  (opt_workingDirectory (buildThreadOptions a) = None <->
   workingDirectory a = None \/ workingDirectory a = Some "") /\
  (forall d, workingDirectory a = Some d -> d <> "" ->
             opt_workingDirectory (buildThreadOptions a) = Some d).
Proof.
  split; [reflexivity |]. split.
  - eexists. split; [reflexivity |]. split.
    + unfold normalizeThinkingLevelForCodex.
      destruct (isMini (model a)), (ultrathinkOverride a), (thinkingLevel a);
        cbn; set_solver.
    + intros ->. unfold normalizeThinkingLevelForCodex.
      now destruct (isMini (model a)).
  - assert (Hleft : forall s, truthyString s = None <-> s = None \/ s = Some "").
    { intros [x |]; cbn; [| tauto].
      destruct (String.eqb x "") eqn:E.
      - apply String.eqb_eq in E as ->. tauto.
      - apply String.eqb_neq in E. split; [discriminate |].
        intros [H | H]; [discriminate | congruence]. }
    assert (Hkept : forall s x, s = Some x -> x <> "" -> truthyString s = Some x).
    { intros s x -> Hne. cbn. apply String.eqb_neq in Hne. now rewrite Hne. }
    split; [apply Hleft |]. split; [apply Hkept |].
    split; [apply Hleft | apply Hkept].
Qed.

(** An agent whose connection exists or can be made. *)
Definition canConnect (create : Exc Codex) (a : Agent) : Prop :=
  (exists c, codex a = Some c) \/ (exists c, create = Ok c).

Lemma ensureCodex_connects (create : Exc Codex) (a : Agent) :
  canConnect create a ->
  exists c, ensureCodex create a = (Ok c, withCodex (Some c) a).
Proof.
  unfold ensureCodex. intros [[c Hc] | [c ->]].
  - rewrite Hc. exists c. f_equal. destruct a. cbn in *. now subst.
  - destruct (codex a) as [c0 |] eqn:Hc.
    + exists c0. f_equal. destruct a. cbn in *. now subst.
    + now exists c.
Qed.

(** [ensureThread] hands out the cached handle: once it has returned a
    thread, calling it again returns the same thread, leaves the agent as
    it is and notifies nobody, whether or not a connection could still be
    made. *)
Theorem ensureThread_cached (create again : Exc Codex) (a a' : Agent) (t : CodexThread) :
  ensureThread create a = (Ok t, a') ->
  ensureThread again a' = (Ok t, a').
Proof.
  unfold ensureThread at 1.
  destruct (thread a) as [t0 |] eqn:Ht.
  - intros H. simplify_eq. unfold ensureThread. now rewrite Ht.
  - destruct (ensureCodex create a) as [[c | e] a1]; [| discriminate].
    intros H. simplify_eq. unfold ensureThread.
    destruct (truthyString (thread_id _)); reflexivity.
Qed.

(** When the connection cannot be made, [ensureThread] fails with the
    error of the attempt and leaves the agent as it was, so that a later
    call can try again. *)
Theorem ensureThread_failure (e : JsError) (a : Agent) :
  thread a = None -> codex a = None ->
  ensureThread (Throw e) a = (Throw e, a) /\
  forall c, exists t, fst (ensureThread (Ok c) a) = Ok t.
Proof.
  intros Ht Hc. unfold ensureThread, ensureCodex. rewrite Ht, Hc.
  split; [reflexivity |]. intros c. eexists. reflexivity.
Qed.

(** What [ensureThread] does when no thread is cached and the connection
    exists or can be made. *)
Lemma ensureThread_creates (create : Exc Codex) (a : Agent) :
  thread a = None -> canConnect create a ->
  exists t a',
    ensureThread create a = (Ok t, a') /\
    thread a' = Some t /\
    thread_options t = buildThreadOptions a /\
    thread_id t = truthyString (sdkSessionId a) /\
    sdkSessionIdUpdates a' =
      sdkSessionIdUpdates a ++
      match truthyString (sdkSessionId a) with
      | Some id => [id]
      | None => []
      end.
Proof.
  intros Ht Hcan. unfold ensureThread. rewrite Ht.
  destruct (ensureCodex_connects create a Hcan) as [c ->].
  change (sdkSessionId (withCodex (Some c) a)) with (sdkSessionId a).
  change (buildThreadOptions (withCodex (Some c) a)) with (buildThreadOptions a).
  destruct (truthyString (sdkSessionId a)) as [id |] eqn:Hid.
  - assert (Htruthy : truthyString (Some id) = Some id).
    { destruct (sdkSessionId a) as [x |]; [| discriminate]. cbn in Hid.
      destruct (String.eqb x "") eqn:E; [discriminate |].
      injection Hid as ->. cbn. now rewrite E. }
    cbn [resumeThread thread_id]. rewrite Htruthy.
    eexists _, _. split; [reflexivity |]. repeat split.
  - cbn. eexists _, _. split; [reflexivity |]. repeat split.
    cbn. now rewrite app_nil_r.
Qed.

(** The first [ensureThread] of an agent resumes the stored session when
    its id is known: the thread carries that id, is made with the current
    options, and the id is reported once; without a stored id a new thread
    is started, which has no id yet, and nothing is reported. *)
Theorem ensureThread_first (create : Exc Codex) (a : Agent) :
  thread a = None -> canConnect create a ->
  exists t a',
    ensureThread create a = (Ok t, a') /\
    thread a' = Some t /\
    thread_options t = buildThreadOptions a /\
    thread_id t = truthyString (sdkSessionId a) /\
    sdkSessionIdUpdates a' =
      sdkSessionIdUpdates a ++
      match truthyString (sdkSessionId a) with
      | Some id => [id]
      | None => []
      end.
Proof.
  intros Ht Hcan.
  destruct (ensureThread_creates create a Ht Hcan)
    as (t & a' & Hrun & Hcached & Hopts & Hid & Hupdates).
  exists t, a'. repeat split; assumption.
Qed.

Lemma knownThreadId_truthy (a : Agent) (id : string) :
  knownThreadId a = Some id -> truthyString (Some id) = Some id.
Proof.
  unfold knownThreadId. destruct (thread a) as [t |]; [| discriminate].
  destruct (thread_id t) as [x |]; [| discriminate]. cbn.
  destruct (String.eqb x "") eqn:E; [discriminate |].
  intros H. injection H as ->. now rewrite E.
Qed.

(** A change of model or of thinking level reaches the next turn: the
    thread that [ensureThread] returns afterwards is made with the
    options built after the change, and when the thread id was known the
    thread keeps it. *)
Theorem setting_reaches_next_thread (create : Exc Codex) (a : Agent)
    (m : string) (level : ThinkingLevel) :
  canConnect create a ->
  (exists t,
     fst (ensureThread create (setModel m a)) = Ok t /\
     thread_options t = buildThreadOptions (withModel (Some m) a) /\
     opt_model (thread_options t) = truthyString (Some m) /\
     (forall id c, knownThreadId a = Some id -> codex a = Some c ->
                   thread_id t = Some id)) /\
  (exists t,
     fst (ensureThread create (setThinkingLevel level a)) = Ok t /\
     thread_options t = buildThreadOptions (withThinkingLevel level a) /\
     (forall id c, knownThreadId a = Some id -> codex a = Some c ->
                   thread_id t = Some id)).
Proof.
  intros Hcan. split.
  - destruct (knownThreadId a) as [id |] eqn:Hid; [destruct (codex a) as [c |] eqn:Hc |].
    + destruct (setModel_resumes m a id c Hid Hc) as [Hthread _].
      exists (resumeThread id (buildThreadOptions (withModel (Some m) a))).
      unfold ensureThread. rewrite Hthread. repeat split; intros; simplify_eq; reflexivity.
    + assert (Hnone : thread (setModel m a) = None).
      { unfold setModel.
        change (knownThreadId (withModel (Some m) a)) with (knownThreadId a).
        change (codex (withModel (Some m) a)) with (codex a).
        now rewrite Hid, Hc. }
      assert (Hcan' : canConnect create (setModel m a)).
      { destruct Hcan as [[c H] | H]; [congruence | now right]. }
      destruct (ensureThread_creates create (setModel m a) Hnone Hcan')
        as (t & a' & Hrun & _ & Hopts & _).
      exists t. rewrite Hrun. split; [reflexivity |].
      assert (Hbuild : buildThreadOptions (setModel m a) =
                       buildThreadOptions (withModel (Some m) a)).
      { unfold setModel.
        change (knownThreadId (withModel (Some m) a)) with (knownThreadId a).
        change (codex (withModel (Some m) a)) with (codex a).
        now rewrite Hid, Hc. }
      rewrite Hopts, Hbuild. repeat split; intros; simplify_eq.
    + assert (Hset : setModel m a = withThread None (withModel (Some m) a)).
      { unfold setModel.
        change (knownThreadId (withModel (Some m) a)) with (knownThreadId a).
        now rewrite Hid. }
      assert (Hcan' : canConnect create (setModel m a)).
      { rewrite Hset. exact Hcan. }
      destruct (ensureThread_creates create (setModel m a)) as (t & a' & Hrun & _ & Hopts & _);
        [now rewrite Hset | exact Hcan' |].
      exists t. rewrite Hrun. split; [reflexivity |].
      rewrite Hopts, Hset. repeat split; intros; simplify_eq.
  - destruct (knownThreadId a) as [id |] eqn:Hid; [destruct (codex a) as [c |] eqn:Hc |].
    + pose proof (setThinkingLevel_resumes level a id c Hid Hc) as Hthread.
      exists (resumeThread id (buildThreadOptions (withThinkingLevel level a))).
      unfold ensureThread. rewrite Hthread. repeat split; intros; simplify_eq; reflexivity.
    + assert (Hset : setThinkingLevel level a =
                     withThread None (withThinkingLevel level a)).
      { unfold setThinkingLevel.
        change (knownThreadId (withThinkingLevel level a)) with (knownThreadId a).
        change (codex (withThinkingLevel level a)) with (codex a).
        now rewrite Hid, Hc. }
      assert (Hcan' : canConnect create (setThinkingLevel level a)).
      { rewrite Hset. destruct Hcan as [[c H] | H]; [congruence | now right]. }
      destruct (ensureThread_creates create (setThinkingLevel level a))
        as (t & a' & Hrun & _ & Hopts & _); [now rewrite Hset | exact Hcan' |].
      exists t. rewrite Hrun. split; [reflexivity |].
      rewrite Hopts, Hset. repeat split; intros; simplify_eq.
    + assert (Hset : setThinkingLevel level a =
                     withThread None (withThinkingLevel level a)).
      { unfold setThinkingLevel.
        change (knownThreadId (withThinkingLevel level a)) with (knownThreadId a).
        now rewrite Hid. }
      assert (Hcan' : canConnect create (setThinkingLevel level a)).
      { rewrite Hset. exact Hcan. }
      destruct (ensureThread_creates create (setThinkingLevel level a))
        as (t & a' & Hrun & _ & Hopts & _); [now rewrite Hset | exact Hcan' |].
      exists t. rewrite Hrun. split; [reflexivity |].
      rewrite Hopts, Hset. repeat split; intros; simplify_eq.
Qed.

(** A new agent has no connection and no thread, thinks at the
    configured level or at [think], and its first [ensureThread] resumes
    the session of its configuration when that has an id. *)
Theorem newAgent_first_thread (config : CodexAgentConfig) (c : Codex) :
  thread (newAgent config) = None /\
  codex (newAgent config) = None /\
  getSessionId (newAgent config) = None /\
  thinkingLevel (newAgent config) = default Think (cfg_thinkingLevel config) /\
  exists t a',
    ensureThread (Ok c) (newAgent config) = (Ok t, a') /\
    getSessionId a' = truthyString (cfg_sdkSessionId config) /\
    thread_options t = buildThreadOptions (newAgent config).
Proof.
  repeat (split; [reflexivity |]).
  destruct (ensureThread_creates (Ok c) (newAgent config) eq_refl) as
    (t & a' & Hrun & Hthread & Hopts & Hid & _).
  { right. now exists c. }
  exists t, a'. split; [exact Hrun |]. split; [| exact Hopts].
  unfold getSessionId. now rewrite Hthread.
Qed.

End ThreadProperties.

(** A stored session on the connection of the examples. *)
Definition storedSession : CodexAgent.CodexAgentConfig :=
  {| CodexAgent.cfg_sdkSessionId := Some "th_7";
     CodexAgent.cfg_workingDirectory := Some "/work";
     CodexAgent.cfg_model := Some "gpt-5.2-codex";
     CodexAgent.cfg_thinkingLevel := None;
     CodexAgent.cfg_proxyUrl := None;
     CodexAgent.cfg_authType := Some "codex_oauth" |}.

Definition theCodex : CodexAgent.Codex := {| CodexAgent.codexPathOverride := "codex" |}.

Lemma ensureThread_cached_witness :
  fst (CodexAgent.ensureThread (JS.Throw (JS.OtherError "offline"))
         (snd (CodexAgent.ensureThread (JS.Ok theCodex) (CodexAgent.newAgent storedSession)))) =
  fst (CodexAgent.ensureThread (JS.Ok theCodex) (CodexAgent.newAgent storedSession)).
Proof.
  destruct (CodexAgent.ensureThread (JS.Ok theCodex) (CodexAgent.newAgent storedSession))
    as [r a'] eqn:Hrun.
  assert (Hok : exists t, r = JS.Ok t) by (vm_compute in Hrun; injection Hrun as <- _; eauto).
  destruct Hok as [t ->]. cbn [fst snd].
  now rewrite (ensureThread_cached _ (JS.Throw (JS.OtherError "offline")) _ _ _ Hrun).
Defined.

Lemma ensureThread_failure_witness :
  CodexAgent.ensureThread (JS.Throw (JS.OtherError "offline")) (CodexAgent.newAgent storedSession) =
    (JS.Throw (JS.OtherError "offline"), CodexAgent.newAgent storedSession).
Proof.
  exact (proj1 (ensureThread_failure (JS.OtherError "offline")
                  (CodexAgent.newAgent storedSession) eq_refl eq_refl)).
Defined.

Lemma ensureThread_first_witness :
  exists t a',
    CodexAgent.ensureThread (JS.Ok theCodex) (CodexAgent.newAgent storedSession) = (JS.Ok t, a') /\
    CodexAgent.thread_id t = Some "th_7" /\
    CodexAgent.sdkSessionIdUpdates a' = ["th_7"].
Proof.
  destruct (ensureThread_first (JS.Ok theCodex) (CodexAgent.newAgent storedSession) eq_refl)
    as (t & a' & Hrun & _ & _ & Hid & Hupdates).
  - right. now exists theCodex.
  - exists t, a'. repeat split; assumption.
Defined.

Lemma setting_reaches_next_thread_witness :
  exists t,
    fst (CodexAgent.ensureThread (JS.Ok theCodex)
           (CodexAgent.setModel "gpt-5.2" (CodexAgent.newAgent storedSession))) = JS.Ok t /\
    CodexAgent.opt_model (CodexAgent.thread_options t) = Some "gpt-5.2".
Proof.
  destruct (setting_reaches_next_thread (JS.Ok theCodex) (CodexAgent.newAgent storedSession)
              "gpt-5.2" ThinkingLevels.High) as [(t & Hrun & _ & Hmodel & _) _].
  - right. now exists theCodex.
  - exists t. split; assumption.
Defined.

(* ===================================================================== *)
(** * Properties: the events of a turn                                    *)
(* ===================================================================== *)

Section EventProperties.
Import JS CodexAgent.

(** ** Events are yielded in the order of the stream *)

Lemma runLoop_app (body : ChatState -> JsVal -> Step) (earlier later : list JsVal) :
  forall st,
    runLoop body st (earlier ++ later) =
      match runLoop body st earlier with
      | (st1, out1, Some e) => (st1, out1, Some e)
      | (st1, out1, None) =>
          let '(st2, out2, r) := runLoop body st1 later in
          (st2, out1 ++ out2, r)
      end.
Proof.
  induction earlier as [| event rest IH]; intros st.
  - cbn. now destruct (runLoop body st later) as [[st2 out2] r].
  - cbn. destruct (body st event) as [[st1 first] [e |]]; [reflexivity |].
    rewrite IH. destruct (runLoop body st1 rest) as [[st2 out2] [e |]]; [reflexivity |].
    destruct (runLoop body st2 later) as [[st3 out3] r].
    now rewrite app_assoc.
Qed.

(** What a streamed turn has yielded for the events received so far is
    not changed by the events that follow: the events of a longer stream
    start with the events of the shorter one and go on with those of the
    later events, processed from the state reached; after an error
    nothing more is processed. *)
Theorem streamed_events_are_stable (earlier later : list JsVal)
    (parents : gmap JsVal JsVal) (message : string)
    (st1 : ChatState) (out1 : list AgentEvent) (thrown : option JsError) :
  chatLoop (streamOf earlier) parents message = (st1, out1, thrown) ->
  (thrown = None ->
   exists st2 out2 r,
     runLoop streamedStep st1 later = (st2, out2, r) /\
     chatLoop (streamOf (earlier ++ later)) parents message = (st2, out1 ++ out2, r)) /\
  (thrown <> None ->
   chatLoop (streamOf (earlier ++ later)) parents message = (st1, out1, thrown)).
Proof.
  unfold chatLoop, streamOf. cbn [runStreamed]. intros Hrun.
  rewrite runLoop_app, Hrun. split.
  - intros ->.
    destruct (runLoop streamedStep st1 later) as [[st2 out2] r] eqn:Hlater.
    now exists st2, out2, r.
  - intros Hthrown. destruct thrown as [e |]; [reflexivity | contradiction].
Qed.

Lemma streamed_events_are_stable_witness :
  exists st2 out2 r,
    chatLoop (streamOf ([toolCall "p1"] ++ [toolCompleted])) ∅ "hi" =
      (st2, [tool_start (JStr "Read") (JStr "t1") (JObj []) None None (Some (JStr "p1"))]
              ++ out2, r).
Proof.
  destruct (streamed_events_are_stable [toolCall "p1"] [toolCompleted] ∅ "hi"
              {| finalText := ""; toolParents := {[ JStr "t1" := JStr "p1" ]};
                 sessionIdUpdates := [] |}
              [tool_start (JStr "Read") (JStr "t1") (JObj []) None None (Some (JStr "p1"))]
              None) as [Hmore _].
  - vm_compute. reflexivity.
  - destruct (Hmore eq_refl) as (st2 & out2 & r & _ & H).
    now exists st2, out2, r.
Defined.

(** ** Parent updates *)

(** Every [parent_update] of the list is followed at once by the
    [tool_result] of the same id. *)
Fixpoint updatesPaired (out : list AgentEvent) : Prop :=
  match out with
  | [] => True
  | parent_update child _ :: rest =>
      match rest with
      | tool_result id _ _ :: _ => id = child
      | _ => False
      end /\ updatesPaired rest
  | _ :: rest => updatesPaired rest
  end.

Lemma updatesPaired_app (xs ys : list AgentEvent) :
  updatesPaired xs -> updatesPaired ys -> updatesPaired (xs ++ ys).
Proof.
  induction xs as [| e xs IH]; [easy |].
  intros Hxs Hys. destruct e; cbn in *; auto.
  destruct Hxs as [Hnext Hxs]. split; [| auto].
  destruct xs as [| [] xs']; cbn in *; easy.
Qed.

Lemma StepShape_paired (st st' : ChatState) (out : list AgentEvent) (r : option JsError) :
  StepShape st (st', out, r) -> updatesPaired out.
Proof. intros H. inversion H; subst; cbn; auto. Qed.

Lemma runLoop_paired (body : ChatState -> JsVal -> Step) (Hbody : Shaped body)
    (events : list JsVal) :
  forall st st' out r,
    runLoop body st events = (st', out, r) -> updatesPaired out.
Proof.
  induction events as [| event rest IH]; intros st st' out r Hrun; cbn in Hrun.
  - unfold continue in Hrun. now simplify_eq.
  - pose proof (Hbody st event) as Hshape.
    destruct (body st event) as [[st1 first] [e |]].
    + simplify_eq. now apply StepShape_paired in Hshape.
    + destruct (runLoop body st1 rest) as [[st2 later] r2] eqn:Hrest.
      simplify_eq. apply updatesPaired_app.
      * now apply StepShape_paired in Hshape.
      * eapply IH; eauto.
Qed.

Lemma chatLoop_paired (thread : ThreadRuns) (parents : gmap JsVal JsVal)
    (message : string) (st : ChatState) (fromLoop : list AgentEvent)
    (thrown : option JsError) :
  chatLoop thread parents message = (st, fromLoop, thrown) -> updatesPaired fromLoop.
Proof.
  unfold chatLoop. destruct (runStreamed thread) as [stream |].
  - intros H. eapply runLoop_paired; [| exact H].
    intros ? ?. apply streamedStep_shape.
  - destruct (run thread message) as [runResult events].
    rewrite fallbackPath_unfold.
    destruct (nullish runResult); [intros H; now simplify_eq |].
    destruct (fallbackLoop _ events) as [[st2 out] thrown2] eqn:Hloop.
    assert (Hout : updatesPaired out).
    { destruct events as [| events | events]; cbn in Hloop.
      - unfold continue in Hloop. now simplify_eq.
      - eapply runLoop_paired; [| exact Hloop].
        intros ? ?. apply asyncFallbackStep_shape.
      - eapply runLoop_paired; [| exact Hloop].
        intros ? ?. apply syncFallbackStep_shape. }
    destruct thrown2; [intros H; now simplify_eq |].
    destruct (when _ _); intros H; now simplify_eq.
Qed.

Lemma updatesPaired_split (out before after : list AgentEvent) (child parent : JsVal) :
  updatesPaired out ->
  out = before ++ parent_update child parent :: after ->
  exists result isError rest, after = tool_result child result isError :: rest.
Proof.
  revert out. induction before as [| e before IH]; intros out Hout ->.
  - cbn in Hout. destruct Hout as [Hnext _].
    destruct after as [| [] rest]; try contradiction. subst. eauto.
  - apply (IH (before ++ parent_update child parent :: after)); [| reflexivity].
    destruct e; cbn in Hout; try exact Hout. now destruct Hout.
Qed.

(** In the events of a turn, every [parent_update] is followed at once
    by the [tool_result] of the same tool call. *)
Theorem parent_update_precedes_its_result (thread : ThreadRuns)
    (parents : gmap JsVal JsVal) (message : string)
    (attachments : option (list FileAttachment))
    (before after : list AgentEvent) (child parent : JsVal) :
  yielded (chat thread parents message attachments) =
    before ++ parent_update child parent :: after ->
  exists result isError rest, after = tool_result child result isError :: rest.
Proof.
  intros Hsplit. eapply updatesPaired_split; [| exact Hsplit].
  destruct (chatLoop thread parents message) as [[st fromLoop] thrown] eqn:Hloop.
  pose proof (chatLoop_paired _ _ _ _ _ _ Hloop) as Hpaired.
  unfold chat. rewrite Hloop.
  assert (Hnotice : forall rest, updatesPaired rest ->
            updatesPaired (match attachments with
                           | Some (_ :: _) =>
                               [info "Codex SDK currently ignores file attachments."]
                           | _ => []
                           end ++ rest)).
  { intros rest Hrest. now destruct attachments as [[| ? ?] |]. }
  destruct thrown as [e |]; cbn [yielded].
  - now apply Hnotice.
  - unfold finishTurn. destruct (String.eqb (finalText st) ""); cbn [yielded];
      apply Hnotice, updatesPaired_app; cbn; auto.
Qed.

(** A completion that names a parent, for a tool call whose start was
    not seen: [{type: "tool.completed", id: "t1", result: "ok",
    parent_id: "p1"}]. *)
Definition lateParent : JsVal :=
  JObj [("type", JStr "tool.completed"); ("id", JStr "t1");
        ("result", JStr "ok"); ("parent_id", JStr "p1")].

Lemma parent_update_precedes_its_result_witness :
  exists result isError rest,
    [tool_result (JStr "t1") "ok" false] = tool_result (JStr "t1") result isError :: rest.
Proof.
  apply (parent_update_precedes_its_result (streamOf [lateParent]) ∅ "hi" None
           [] [tool_result (JStr "t1") "ok" false] (JStr "t1") (JStr "p1")).
  vm_compute. reflexivity.
Defined.

End EventProperties.

Section EventInvariants.
Import JS CodexAgent.

(** ** The parts of a turn *)

(** The notice about attachments, yielded before the thread is used. *)
Definition noticeOf (attachments : option (list FileAttachment)) : list AgentEvent :=
  match attachments with
  | Some (_ :: _) => [info "Codex SDK currently ignores file attachments."]
  | _ => []
  end.

(** The events after the loop. *)
Definition trailingOf (st : ChatState) (thrown : option JsError) : list AgentEvent :=
  match thrown with
  | Some _ => []
  | None => fst (finishTurn st)
  end.

Lemma chat_parts (thread : ThreadRuns) (parents : gmap JsVal JsVal)
    (message : string) (attachments : option (list FileAttachment))
    (st : ChatState) (fromLoop : list AgentEvent) (thrown : option JsError) :
  chatLoop thread parents message = (st, fromLoop, thrown) ->
  yielded (chat thread parents message attachments) =
    noticeOf attachments ++ fromLoop ++ trailingOf st thrown /\
  finalState (chat thread parents message attachments) = st.
Proof.
  intros Hloop. unfold chat, noticeOf, trailingOf. rewrite Hloop.
  destruct thrown as [e |]; cbn [yielded finalState].
  - now rewrite app_nil_r.
  - now destruct (finishTurn st) as [last how].
Qed.

Lemma trailingOf_cases (st : ChatState) (thrown : option JsError) :
  trailingOf st thrown = [] \/
  (finalText st <> "" /\ trailingOf st thrown = [text_complete (finalText st); complete]).
Proof.
  unfold trailingOf, finishTurn. destruct thrown; [now left |].
  destruct (String.eqb (finalText st) "") eqn:E; [now left |].
  right. split; [now apply String.eqb_neq | reflexivity].
Qed.

(** ** One parent update for a tool call *)

(** The number of [parent_update] events for [child]. *)
Definition updatesFor (child : JsVal) (out : list AgentEvent) : nat :=
  List.length
    (List.filter (fun e => match e with
                           | parent_update id _ => bool_decide (id = child)
                           | _ => false
                           end) out).

Lemma updatesFor_app (child : JsVal) (xs ys : list AgentEvent) :
  updatesFor child (xs ++ ys) = (updatesFor child xs + updatesFor child ys)%nat.
Proof. unfold updatesFor. now rewrite List.filter_app, List.length_app. Qed.

(** One iteration: no update for a child that is mapped, at most one
    otherwise, and a child is mapped afterwards when it was before or was
    updated. *)
Lemma StepShape_updates (st st' : ChatState) (out : list AgentEvent)
    (r : option JsError) (child : JsVal) :
  StepShape st (st', out, r) ->
  (updatesFor child out <= 1)%nat /\
  (is_Some (toolParents st !! child) ->
   updatesFor child out = 0%nat /\ is_Some (toolParents st' !! child)) /\
  (updatesFor child out = 1%nat -> is_Some (toolParents st' !! child)).
Proof.
  intros H. inversion H as
    [st1 [_ Hp] | st1 e [_ Hp] | st1 d [_ Hp] | st1 t [_ Hp]
    | st1 t fields par [_ Hp] | st1 tr [_ Hp] | st1 tr par [_ Hp] Hnew];
    subst; cbn [updatesFor List.filter List.length toolStartEvent toolResultEvent];
    try (split; [lia |]; split; [intros Hs; split; [reflexivity | cbn; now rewrite Hp] | lia]).
  - split; [lia |]. split; [| lia]. intros Hs. split; [reflexivity |].
    destruct par as [p |]; cbn; [| now rewrite Hp].
    rewrite lookup_insert. case_decide; [eauto | now rewrite Hp].
  - case_bool_decide as Hid; cbn [List.length].
    + subst child. split; [lia |]. split.
      * intros [p Hs]. rewrite Hp in Hnew. congruence.
      * intros _. cbn. rewrite lookup_insert_eq. eauto.
    + split; [lia |]. split; [| lia]. intros Hs. split; [reflexivity |].
      cbn. rewrite lookup_insert_ne by exact Hid. now rewrite Hp.
Qed.

Lemma runLoop_updates (body : ChatState -> JsVal -> Step) (Hbody : Shaped body)
    (events : list JsVal) (child : JsVal) :
  forall st st' out r,
    runLoop body st events = (st', out, r) ->
    (updatesFor child out <= 1)%nat /\
    (is_Some (toolParents st !! child) ->
     updatesFor child out = 0%nat /\ is_Some (toolParents st' !! child)) /\
    (updatesFor child out = 1%nat -> is_Some (toolParents st' !! child)).
Proof.
  induction events as [| event rest IH]; intros st st' out r Hrun; cbn in Hrun.
  - unfold continue in Hrun. simplify_eq. cbn. repeat split; auto; lia.
  - pose proof (Hbody st event) as Hshape.
    destruct (body st event) as [[st1 first] [e |]].
    + simplify_eq. exact (StepShape_updates _ _ _ _ child Hshape).
    + destruct (runLoop body st1 rest) as [[st2 later] r2] eqn:Hrest.
      simplify_eq.
      destruct (StepShape_updates _ _ _ _ child Hshape) as (H1 & H2 & H3).
      destruct (IH _ _ _ _ Hrest) as (I1 & I2 & I3).
      rewrite updatesFor_app.
      assert (Hcases : updatesFor child first = 0%nat \/ updatesFor child first = 1%nat) by lia.
      destruct Hcases as [H0 | H0].
      * rewrite H0. split; [lia |]. split.
        -- intros Hs. destruct (H2 Hs) as [_ Hs1]. destruct (I2 Hs1). split; [lia | assumption].
        -- intros Hone. apply I3. lia.
      * destruct (I2 (H3 H0)) as [Hz Hs2]. rewrite H0, Hz. split; [lia |]. split.
        -- intros Hs. destruct (H2 Hs). lia.
        -- intros _. exact Hs2.
Qed.

Lemma chatLoop_updates (thread : ThreadRuns) (parents : gmap JsVal JsVal)
    (message : string) (st : ChatState) (fromLoop : list AgentEvent)
    (thrown : option JsError) (child : JsVal) :
  chatLoop thread parents message = (st, fromLoop, thrown) ->
  (updatesFor child fromLoop <= 1)%nat /\
  (is_Some (parents !! child) -> updatesFor child fromLoop = 0%nat) /\
  (updatesFor child fromLoop = 1%nat -> is_Some (toolParents st !! child)).
Proof.
  unfold chatLoop. destruct (runStreamed thread) as [stream |].
  - intros H.
    eapply (runLoop_updates streamedStep) in H as (H1 & H2 & H3);
      [| intros ? ?; apply streamedStep_shape].
    split; [exact H1 |]. split; [| exact H3].
    intros Hs. now destruct (H2 Hs).
  - destruct (run thread message) as [runResult events].
    rewrite fallbackPath_unfold.
    destruct (nullish runResult).
    { intros H. simplify_eq. cbn. repeat split; auto; lia. }
    destruct (fallbackLoop _ events) as [[st2 out] thrown2] eqn:Hrun.
    assert (Hout : (updatesFor child out <= 1)%nat /\
                   (is_Some (parents !! child) ->
                    updatesFor child out = 0%nat /\ is_Some (toolParents st2 !! child)) /\
                   (updatesFor child out = 1%nat -> is_Some (toolParents st2 !! child))).
    { destruct events as [| events | events]; cbn in Hrun.
      - unfold continue in Hrun. simplify_eq. cbn. repeat split; auto; lia.
      - eapply (runLoop_updates asyncFallbackStep) in Hrun; [exact Hrun |].
        intros ? ?. apply asyncFallbackStep_shape.
      - eapply (runLoop_updates syncFallbackStep) in Hrun; [exact Hrun |].
        intros ? ?. apply syncFallbackStep_shape. }
    destruct Hout as (H1 & H2 & H3).
    intros H.
    assert (Hst : toolParents st = toolParents st2 /\ fromLoop = out).
    { destruct thrown2; [now simplify_eq |].
      destruct (when _ _); now simplify_eq. }
    destruct Hst as [Hp ->]. rewrite Hp.
    split; [exact H1 |]. split; [| exact H3].
    intros Hs. now destruct (H2 Hs).
Qed.

(** For a tool call id that [Map] compares by value (a string, a number
    or a boolean), a turn yields at most one [parent_update], and none
    when the agent already knows the parent of the tool call; after a
    [parent_update] the agent knows the parent, so later turns on the same
    agent yield none either. *)
Theorem one_parent_update_per_tool_call (thread : ThreadRuns)
    (parents : gmap JsVal JsVal) (message : string)
    (attachments : option (list FileAttachment)) (child : JsVal) :
  isPrimitive child = true ->
  (updatesFor child (yielded (chat thread parents message attachments)) <= 1)%nat /\
  (is_Some (parents !! child) ->
   updatesFor child (yielded (chat thread parents message attachments)) = 0%nat) /\
  (updatesFor child (yielded (chat thread parents message attachments)) = 1%nat ->
   is_Some (toolParents (finalState (chat thread parents message attachments)) !! child)).
Proof.
  intros _.
  destruct (chatLoop thread parents message) as [[st fromLoop] thrown] eqn:Hloop.
  destruct (chat_parts thread parents message attachments _ _ _ Hloop) as [-> ->].
  assert (Hn : updatesFor child (noticeOf attachments) = 0%nat)
    by now destruct attachments as [[| ? ?] |].
  assert (Ht : updatesFor child (trailingOf st thrown) = 0%nat)
    by now destruct (trailingOf_cases st thrown) as [-> | [_ ->]].
  rewrite !updatesFor_app, Hn, Ht, Nat.add_0_r. cbn [Nat.add].
  exact (chatLoop_updates _ _ _ _ _ _ child Hloop).
Qed.

Lemma one_parent_update_per_tool_call_witness :
  updatesFor (JStr "t1")
    (yielded (chat (streamOf [lateParent; lateParent]) ∅ "hi" None)) = 1%nat /\
  updatesFor (JStr "t1")
    (yielded (chat (streamOf [lateParent]) {[ JStr "t1" := JStr "p0" ]} "hi" None)) = 0%nat.
Proof.
  split.
  - vm_compute. reflexivity.
  - apply (proj1 (proj2 (one_parent_update_per_tool_call (streamOf [lateParent])
                           {[ JStr "t1" := JStr "p0" ]} "hi" None (JStr "t1") eq_refl))).
    rewrite lookup_singleton_eq. eauto.
Defined.

End EventInvariants.

(* ===================================================================== *)
(** * Properties: what the events of a turn carry                         *)
(* ===================================================================== *)

(** Splits the goal along the tests of a loop body. *)
Ltac split_tests :=
  repeat match goal with
         | |- context [match ?x with _ => _ end] =>
             lazymatch x with
             | context [match _ with _ => _ end] => fail
             | _ => destruct x eqn:?
             end
         end.

Section EventContents.
Import JS CodexAgent.

(** ** No empty text and no missing id *)

(** What every yielded event satisfies: a text that is not empty, a tool
    name and ids that are truthy. *)
Definition wellFormed (e : AgentEvent) : Prop :=
  match e with
  | text_delta text | text_complete text => text <> ""
  | tool_start name id _ _ _ parent =>
      truthy name = true /\ truthy id = true /\
      forall p, parent = Some p -> truthy p = true
  | tool_result id _ _ => truthy id = true
  | parent_update id parent => truthy id = true /\ truthy parent = true
  | info _ | complete => True
  end.

Lemma asNonEmptyString_Some (v : JsVal) (s : string) :
  asNonEmptyString v = Some s -> v = JStr s /\ s <> "".
Proof.
  destruct v as [| | b | n | x | items | fields]; cbn; try discriminate.
  destruct (String.eqb x "") eqn:E; [discriminate |].
  intros H. injection H as <-. split; [reflexivity | now apply String.eqb_neq].
Qed.

Lemma extractTextDelta_nonempty (event : JsVal) (s : string) :
  extractTextDelta event = Some s -> s <> "".
Proof.
  unfold extractTextDelta. destruct (negb (isObjectLike event)); [discriminate |].
  intros H. now apply asNonEmptyString_Some in H.
Qed.

Lemma extractTextComplete_nonempty (event : JsVal) (s : string) :
  extractTextComplete event = Some s -> s <> "".
Proof.
  unfold extractTextComplete. destruct (negb (isObjectLike event)); [discriminate |].
  intros H. now apply asNonEmptyString_Some in H.
Qed.

Lemma extractToolInfo_truthy (event : JsVal) (t : ToolInfo) :
  extractToolInfo event = Some t ->
  truthy (toolName t) = true /\ truthy (toolUseId t) = true.
Proof.
  unfold extractToolInfo. destruct (negb (isObjectLike event)); [discriminate |].
  cbv zeta.
  match goal with |- context [negb (truthy ?n) || negb (truthy ?i)] =>
    destruct (truthy n) eqn:Hn; destruct (truthy i) eqn:Hi end;
    cbn; try discriminate.
  intros H. injection H as <-. cbn. auto.
Qed.

Lemma extractParentToolUseId_truthy (event p : JsVal) :
  extractParentToolUseId event = Some p -> truthy p = true.
Proof.
  unfold extractParentToolUseId. destruct (negb (isObjectLike event)); [discriminate |].
  cbv zeta.
  match goal with |- context [if truthy ?v then _ else _] => destruct (truthy v) eqn:Hv end;
    [| discriminate].
  intros H. now injection H as <-.
Qed.

Lemma normalizeToolResult_truthy (event : JsVal) (r : ToolResult) :
  normalizeToolResult event = Some r -> truthy (tr_toolUseId r) = true.
Proof.
  unfold normalizeToolResult. destruct (negb (isObjectLike event)); [discriminate |].
  cbv zeta.
  match goal with |- context [negb (truthy ?i)] => destruct (truthy i) eqn:Hi end;
    cbn [negb];
    repeat match goal with
           | |- context [match ?x with _ => _ end] => destruct x
           end; intros H; inversion H; subst; cbn; first [exact Hi | discriminate | reflexivity].
Qed.

Lemma mapCommandItemToTool_truthy (item : JsVal) (t : ToolInfo) :
  mapCommandItemToTool item = Some t ->
  truthy (toolName t) = true /\ truthy (toolUseId t) = true.
Proof.
  unfold mapCommandItemToTool. cbv zeta.
  destruct (truthy (item ~> "id")) eqn:Hid; cbn [negb]; [| discriminate].
  intros H. injection H as <-. cbn. auto.
Qed.

Lemma normalizeMcpToolName_nonempty (name : string) (item : JsVal) :
  name <> "" -> normalizeMcpToolName name item <> "".
Proof.
  intros Hne. destruct (normalizeMcpToolName_cases name item) as [-> | [rest ->]].
  - exact Hne.
  - discriminate.
Qed.

Lemma mapMcpItemToTool_truthy (item : JsVal) (t : ToolInfo) :
  mapMcpItemToTool item = Ok (Some t) ->
  truthy (toolName t) = true /\ truthy (toolUseId t) = true.
Proof.
  unfold mapMcpItemToTool. cbv zeta.
  match goal with |- context [negb (truthy ?n) || negb (truthy ?i)] =>
    destruct (truthy n) eqn:Hn; destruct (truthy i) eqn:Hi; cbn [negb orb];
    try discriminate;
    destruct n as [| | b | z | name | items | fields] eqn:En; try discriminate
  end.
  intros H. injection H as <-. cbn [toolName toolUseId]. split; [| exact Hi].
  cbn in Hn |- *. apply negb_true_iff in Hn. apply String.eqb_neq in Hn.
  apply negb_true_iff, String.eqb_neq. now apply normalizeMcpToolName_nonempty.
Qed.

Lemma when_Some {A} (test : bool) (x : option A) (v : A) :
  when test x = Some v -> test = true /\ x = Some v.
Proof. unfold when. destruct test; [auto | discriminate]. Qed.

Lemma toolStartEvent_wellFormed (t : ToolInfo) (fields : option string * option string)
    (event : JsVal) :
  truthy (toolName t) = true /\ truthy (toolUseId t) = true ->
  wellFormed (toolStartEvent t fields (extractParentToolUseId event)).
Proof.
  intros [Hn Hi]. cbn. repeat split; try assumption.
  intros p Hp. now apply extractParentToolUseId_truthy in Hp.
Qed.

Lemma yieldToolResult_wellFormed (event : JsVal) (r : ToolResult) (st : ChatState) :
  normalizeToolResult event = Some r ->
  Forall wellFormed (snd (fst (yieldToolResult r (extractParentToolUseId event) st))).
Proof.
  intros Hr. apply normalizeToolResult_truthy in Hr.
  unfold yieldToolResult, continue.
  destruct (extractParentToolUseId event) as [p |] eqn:Hp.
  - apply extractParentToolUseId_truthy in Hp.
    destruct (negb (hasToolParent (tr_toolUseId r) st)); cbn;
      repeat constructor; assumption.
  - cbn. repeat constructor. assumption.
Qed.

(** Uses the tests that led to a rule. *)
Ltac use_rule_facts :=
  repeat match goal with
         | H : when _ _ = Some _ |- _ => apply when_Some in H as [_ H]
         end;
  repeat match goal with
         | H : extractTextDelta _ = Some _ |- _ => apply extractTextDelta_nonempty in H
         | H : extractTextComplete _ = Some _ |- _ => apply extractTextComplete_nonempty in H
         | H : extractToolInfo _ = Some _ |- _ => apply extractToolInfo_truthy in H
         | H : mapCommandItemToTool _ = Some _ |- _ => apply mapCommandItemToTool_truthy in H
         | H : mapMcpItemToTool _ = Ok (Some _) |- _ => apply mapMcpItemToTool_truthy in H
         end.

Ltac close_wellFormed :=
  cbn [fst snd];
  first
    [ now apply yieldToolResult_wellFormed
    | apply Forall_nil
    | apply Forall_cons;
      [ first [ apply toolStartEvent_wellFormed; assumption
              | cbn; eauto using normalizeToolResult_truthy ]
      | apply Forall_nil ] ].

Lemma streamedStep_wellFormed (st : ChatState) (event : JsVal) :
  Forall wellFormed (snd (fst (streamedStep st event))).
Proof.
  unfold streamedStep, continue. cbv zeta.
  set (st1 := onThreadStarted _ event st). clearbody st1.
  split_tests; use_rule_facts; close_wellFormed.
Qed.

Lemma asyncFallbackStep_wellFormed (st : ChatState) (event : JsVal) :
  Forall wellFormed (snd (fst (asyncFallbackStep st event))).
Proof.
  unfold asyncFallbackStep, continue. cbv zeta.
  split_tests; use_rule_facts; close_wellFormed.
Qed.

Lemma syncFallbackStep_wellFormed (st : ChatState) (event : JsVal) :
  Forall wellFormed (snd (fst (syncFallbackStep st event))).
Proof.
  unfold syncFallbackStep, continue.
  split_tests; use_rule_facts; close_wellFormed.
Qed.

Lemma runLoop_Forall (P : AgentEvent -> Prop) (body : ChatState -> JsVal -> Step)
    (Hbody : forall st event, Forall P (snd (fst (body st event))))
    (events : list JsVal) :
  forall st, Forall P (snd (fst (runLoop body st events))).
Proof.
  induction events as [| event rest IH]; intros st; cbn; [constructor |].
  pose proof (Hbody st event) as Hfirst.
  destruct (body st event) as [[st1 first] [e |]]; [exact Hfirst |].
  pose proof (IH st1) as Hlater.
  destruct (runLoop body st1 rest) as [[st2 later] r].
  cbn in *. apply Forall_app. auto.
Qed.

(** What holds of every event of the three loop bodies holds of every
    event of the loop of [chat]. *)
Lemma chatLoop_Forall (P : AgentEvent -> Prop)
    (Hbody : forall body, In body loopBodies ->
             forall st event, Forall P (snd (fst (body st event))))
    (thread : ThreadRuns) (parents : gmap JsVal JsVal) (message : string) :
  Forall P (snd (fst (chatLoop thread parents message))).
Proof.
  unfold chatLoop. destruct (runStreamed thread) as [stream |].
  - apply runLoop_Forall, Hbody. now left.
  - destruct (run thread message) as [runResult events].
    rewrite fallbackPath_unfold.
    destruct (nullish runResult); [constructor |].
    set (st0 := {| finalText := ""; toolParents := parents; sessionIdUpdates := [] |}).
    assert (Hout : Forall P (snd (fst (fallbackLoop st0 events)))).
    { destruct events as [| events | events]; cbn.
      - constructor.
      - apply runLoop_Forall, Hbody. right. now left.
      - apply runLoop_Forall, Hbody. right. right. now left. }
    destruct (fallbackLoop st0 events) as [[st2 out] thrown2]. cbn in Hout.
    destruct thrown2; [exact Hout |].
    destruct (when _ _); exact Hout.
Qed.

Lemma loopBodies_wellFormed (body : ChatState -> JsVal -> Step) :
  In body loopBodies ->
  forall st event, Forall wellFormed (snd (fst (body st event))).
Proof.
  intros [<- | [<- | [<- | []]]].
  - apply streamedStep_wellFormed.
  - apply asyncFallbackStep_wellFormed.
  - apply syncFallbackStep_wellFormed.
Qed.

(** Every event of a turn is well formed: no [text_delta] and no
    [text_complete] carries an empty text, and every [tool_start],
    [tool_result] and [parent_update] carries a truthy tool id (and name,
    and parent when it has one), whatever the upstream events hold. *)
Theorem yielded_events_are_well_formed (thread : ThreadRuns)
    (parents : gmap JsVal JsVal) (message : string)
    (attachments : option (list FileAttachment)) :
  Forall wellFormed (yielded (chat thread parents message attachments)).
Proof.
  pose proof (chatLoop_Forall wellFormed loopBodies_wellFormed thread parents message)
    as Hloop.
  destruct (chatLoop thread parents message) as [[st fromLoop] thrown] eqn:E.
  destruct (chat_parts thread parents message attachments _ _ _ E) as [-> _].
  cbn in Hloop. apply Forall_app. split.
  - destruct attachments as [[| ? ?] |]; repeat constructor.
  - apply Forall_app. split; [exact Hloop |].
    destruct (trailingOf_cases st thrown) as [-> | [Hne ->]]; repeat constructor.
    exact Hne.
Qed.

(** ** The notice about attachments *)

Definition isInfo (e : AgentEvent) : bool :=
  match e with info _ => true | _ => false end.

Lemma StepShape_no_info (st st' : ChatState) (out : list AgentEvent)
    (r : option JsError) :
  StepShape st (st', out, r) -> Forall (fun e => isInfo e = false) out.
Proof.
  intros H. inversion H; subst; repeat constructor.
Qed.

Lemma loopBodies_no_info (body : ChatState -> JsVal -> Step) :
  In body loopBodies ->
  forall st event, Forall (fun e => isInfo e = false) (snd (fst (body st event))).
Proof.
  intros Hin st event. pose proof (loopBodies_Shaped body Hin st event) as Hshape.
  destruct (body st event) as [[st1 out] r]. now apply StepShape_no_info in Hshape.
Qed.

(** A turn yields the notice about ignored attachments exactly when it
    is given at least one attachment, and then as its first event; no
    event after it is an [info] event. *)
Theorem info_only_for_attachments (thread : ThreadRuns)
    (parents : gmap JsVal JsVal) (message : string)
    (attachments : option (list FileAttachment)) :
  exists rest,
    yielded (chat thread parents message attachments) = noticeOf attachments ++ rest /\
    Forall (fun e => isInfo e = false) rest.
Proof.
  pose proof (chatLoop_Forall _ loopBodies_no_info thread parents message) as Hloop.
  destruct (chatLoop thread parents message) as [[st fromLoop] thrown] eqn:E.
  destruct (chat_parts thread parents message attachments _ _ _ E) as [-> _].
  exists (fromLoop ++ trailingOf st thrown). split; [reflexivity |].
  apply Forall_app. split; [exact Hloop |].
  destruct (trailingOf_cases st thrown) as [-> | [_ ->]]; repeat constructor.
Qed.

End EventContents.

(* ===================================================================== *)
(** * Properties: the fallback path and the session id                    *)
(* ===================================================================== *)

Section FallbackProperties.
Import JS CodexAgent.

(** ** Complete texts on the fallback path *)

(** [delta?.text] as [extractTextDelta] reads it. *)
Definition deltaText (event : JsVal) : JsVal :=
  (event ~> "delta" ?? event ~> "params" ~> "delta") ~> "text".

Lemma extractTextDelta_without_delta (event : JsVal) :
  nullish (deltaText event) = true ->
  extractTextDelta event = extractTextComplete event.
Proof.
  unfold deltaText, extractTextDelta, extractTextComplete.
  destruct (negb (isObjectLike event)); [reflexivity |]. cbv zeta.
  intros Hnull.
  destruct ((event ~> "delta" ?? event ~> "params" ~> "delta") ~> "text");
    try discriminate; reflexivity.
Qed.

(** The fallback loops do not look at the type of an event before they
    take its text as a delta: an event that carries a complete text and
    no [delta.text] is yielded as a [text_delta], and its text is
    appended to the text so far instead of replacing it. *)
Theorem fallback_appends_complete_text (st : ChatState) (event : JsVal) (t : string) :
  nullish (deltaText event) = true ->
  extractTextComplete event = Some t ->
  asyncFallbackStep st event =
    (withFinalText (finalText st +:+ t) st, [text_delta t], None) /\
  syncFallbackStep st event =
    (withFinalText (finalText st +:+ t) st, [text_delta t], None).
Proof.
  intros Hnull Hcomplete. apply extractTextDelta_without_delta in Hnull.
  unfold asyncFallbackStep, syncFallbackStep, continue. cbv zeta.
  rewrite Hnull, Hcomplete. split; reflexivity.
Qed.

(** ** Reports of the session id *)

(** The thread id a [thread.started] event reports (lines 788-793). *)
Definition startedThreadId (event : JsVal) : option string :=
  if String.eqb (default "" (extractEventType event)) "thread.started"
  then asNonEmptyString (event ~> "thread_id")
  else None.

Lemma yieldToolResult_sessionIdUpdates (r : ToolResult) (parent : option JsVal)
    (st : ChatState) :
  sessionIdUpdates (fst (fst (yieldToolResult r parent st))) = sessionIdUpdates st.
Proof.
  unfold yieldToolResult, continue. destruct parent; [| reflexivity].
  now destruct (negb (hasToolParent (tr_toolUseId r) st)).
Qed.

Lemma recordParent_sessionIdUpdates (id : JsVal) (parent : option JsVal)
    (st : ChatState) :
  sessionIdUpdates (recordParent id parent st) = sessionIdUpdates st.
Proof. now destruct parent. Qed.

Ltac same_updates :=
  cbn [fst snd];
  first [ apply yieldToolResult_sessionIdUpdates
        | apply recordParent_sessionIdUpdates
        | reflexivity ].

Lemma streamedStep_sessionIdUpdates (st : ChatState) (event : JsVal) :
  sessionIdUpdates (fst (fst (streamedStep st event))) =
  sessionIdUpdates st ++ option_list (startedThreadId event).
Proof.
  assert (Hfirst :
    sessionIdUpdates (onThreadStarted (default "" (extractEventType event)) event st) =
    sessionIdUpdates st ++ option_list (startedThreadId event)).
  { unfold onThreadStarted, startedThreadId.
    destruct (String.eqb _ "thread.started"); [| now rewrite app_nil_r].
    destruct (asNonEmptyString _); [reflexivity | now rewrite app_nil_r]. }
  rewrite <- Hfirst. clear Hfirst.
  unfold streamedStep, continue. cbv zeta.
  set (st1 := onThreadStarted _ event st). clearbody st1.
  split_tests; same_updates.
Qed.

Lemma asyncFallbackStep_sessionIdUpdates (st : ChatState) (event : JsVal) :
  sessionIdUpdates (fst (fst (asyncFallbackStep st event))) = sessionIdUpdates st.
Proof.
  unfold asyncFallbackStep, continue. cbv zeta. split_tests; same_updates.
Qed.

Lemma syncFallbackStep_sessionIdUpdates (st : ChatState) (event : JsVal) :
  sessionIdUpdates (fst (fst (syncFallbackStep st event))) = sessionIdUpdates st.
Proof.
  unfold syncFallbackStep, continue. split_tests; same_updates.
Qed.

Lemma runLoop_keeps_sessionIdUpdates (body : ChatState -> JsVal -> Step)
    (Hbody : forall st event,
       sessionIdUpdates (fst (fst (body st event))) = sessionIdUpdates st)
    (events : list JsVal) :
  forall st,
    sessionIdUpdates (fst (fst (runLoop body st events))) = sessionIdUpdates st.
Proof.
  induction events as [| event rest IH]; intros st; cbn; [reflexivity |].
  pose proof (Hbody st event) as Hfirst.
  destruct (body st event) as [[st1 first] [e |]]; [exact Hfirst |].
  pose proof (IH st1) as Hlater.
  destruct (runLoop body st1 rest) as [[st2 later] r].
  cbn in *. congruence.
Qed.

(** The events the streamed loop has gone through: all of them, or the
    events up to the one at which an error was thrown. *)
Lemma runLoop_streamed_sessionIdUpdates (events : list JsVal) :
  forall st st' out r,
    runLoop streamedStep st events = (st', out, r) ->
    exists seen,
      seen `prefix_of` events /\
      (r = None -> seen = events) /\
      sessionIdUpdates st' = sessionIdUpdates st ++ omap startedThreadId seen.
Proof.
  induction events as [| event rest IH]; intros st st' out r Hrun; cbn in Hrun.
  - unfold continue in Hrun. simplify_eq. exists []. cbn.
    rewrite app_nil_r. auto.
  - pose proof (streamedStep_sessionIdUpdates st event) as Hfirst.
    destruct (streamedStep st event) as [[st1 first] [e |]]; cbn in Hfirst.
    + simplify_eq. exists [event]. split; [| split].
      * now exists rest.
      * discriminate.
      * rewrite Hfirst. cbn. now destruct (startedThreadId event).
    + destruct (runLoop streamedStep st1 rest) as [[st2 later] r2] eqn:Hrest.
      simplify_eq. destruct (IH _ _ _ _ Hrest) as (seen & Hprefix & Hall & Hupdates).
      exists (event :: seen). split; [| split].
      * now apply prefix_cons.
      * intros Hr. now rewrite Hall.
      * rewrite Hupdates, Hfirst, <- app_assoc. f_equal. cbn.
        now destruct (startedThreadId event).
Qed.

(** The session id is reported on the streamed path only.  Without
    [runStreamed] a turn never calls [onSdkSessionIdUpdate]; with it, the
    calls are the thread ids, each a non-empty string, of the
    [thread.started] events the loop went through, in their order: of
    all events of the stream when the loop threw no error. *)
Theorem session_id_reported_by_streamed_events (thread : ThreadRuns)
    (parents : gmap JsVal JsVal) (message : string)
    (attachments : option (list FileAttachment)) :
  match runStreamed thread with
  | None =>
      sessionIdUpdates (finalState (chat thread parents message attachments)) = []
  | Some stream =>
      exists seen,
        seen `prefix_of` stream message /\
        (snd (chatLoop thread parents message) = None -> seen = stream message) /\
        sessionIdUpdates (finalState (chat thread parents message attachments)) =
          omap startedThreadId seen
  end.
Proof.
  destruct (chatLoop thread parents message) as [[st fromLoop] thrown] eqn:E.
  destruct (chat_parts thread parents message attachments _ _ _ E) as [_ ->].
  unfold chatLoop in E. destruct (runStreamed thread) as [stream |].
  - destruct (runLoop_streamed_sessionIdUpdates _ _ _ _ _ E) as (seen & H1 & H2 & H3).
    exists seen. cbn in *. auto.
  - destruct (run thread message) as [runResult events].
    rewrite fallbackPath_unfold in E.
    destruct (nullish runResult); [now simplify_eq |].
    set (st0 := {| finalText := ""; toolParents := parents; sessionIdUpdates := [] |}) in *.
    assert (Hloop : sessionIdUpdates (fst (fst (fallbackLoop st0 events))) = []).
    { destruct events as [| events | events]; cbn.
      - reflexivity.
      - apply runLoop_keeps_sessionIdUpdates, asyncFallbackStep_sessionIdUpdates.
      - apply runLoop_keeps_sessionIdUpdates, syncFallbackStep_sessionIdUpdates. }
    destruct (fallbackLoop st0 events) as [[st2 out] thrown2]. cbn in Hloop.
    destruct thrown2; [now simplify_eq |].
    destruct (when _ _); now simplify_eq.
Qed.

End FallbackProperties.

(** [{type: "message", text: "done"}] *)
Definition completedMessage : JS.JsVal :=
  JS.JObj [("type", JS.JStr "message"); ("text", JS.JStr "done")].

Lemma fallback_appends_complete_text_witness :
  CodexAgent.asyncFallbackStep
    {| CodexAgent.finalText := "All ";
       CodexAgent.toolParents := ∅;
       CodexAgent.sessionIdUpdates := [] |} completedMessage =
  ({| CodexAgent.finalText := "All done";
      CodexAgent.toolParents := ∅;
      CodexAgent.sessionIdUpdates := [] |}, [CodexAgent.text_delta "done"], None).
Proof.
  apply (fallback_appends_complete_text
           {| CodexAgent.finalText := "All ";
              CodexAgent.toolParents := ∅;
              CodexAgent.sessionIdUpdates := [] |} completedMessage "done");
    reflexivity.
Defined.

(* ===================================================================== *)
(** * Properties: the shape of a title                                    *)
(* ===================================================================== *)

Section TitleShapeProperties.
Import JS TitleGenerator.

(** ** Only the start of a long message is read *)



(** ** Titles carry no surrounding white space *)

Lemma trimEnd_head (c : ascii) (s : string) :
  isTrimUnit c = false -> exists r, trimEnd (String c s) = String c r.
Proof.
  intros Hc. cbn [trimEnd]. rewrite Hc. destruct (trimEnd s); eauto.
Qed.

Lemma trimStart_head (s : string) :
  trimStart s = "" \/
  exists c r, trimStart s = String c r /\ isTrimUnit c = false.
Proof.
  induction s as [| c s IH]; [now left |]. cbn [trimStart].
  destruct (isTrimUnit c) eqn:Hc; [exact IH |]. right. eauto.
Qed.

Lemma trimEnd_cons (c : ascii) (s : string) :
  trimEnd (String c s) =
    match trimEnd s with
    | EmptyString => if isTrimUnit c then EmptyString else String c EmptyString
    | r => String c r
    end.
Proof. reflexivity. Qed.

Lemma trimEnd_idempotent (s : string) : trimEnd (trimEnd s) = trimEnd s.
Proof.
  induction s as [| c s IH]; [reflexivity |]. rewrite trimEnd_cons.
  destruct (trimEnd s) as [| d r] eqn:E.
  - destruct (isTrimUnit c) eqn:Hc; [reflexivity |]. cbn. now rewrite Hc.
  - rewrite trimEnd_cons, IH. reflexivity.
Qed.

Lemma trim_trimStart (s : string) : trimStart (trim s) = trim s.
Proof.
  unfold trim. destruct (trimStart_head s) as [-> | (c & r & -> & Hc)]; [reflexivity |].
  destruct (trimEnd_head c r Hc) as [r' ->]. cbn [trimStart]. now rewrite Hc.
Qed.

Lemma trim_trimEnd (s : string) : trimEnd (trim s) = trim s.
Proof. unfold trim. apply trimEnd_idempotent. Qed.

Lemma acceptTitle_trim (s t : string) :
  acceptTitle (trim s) = Some t -> trimStart t = t /\ trimEnd t = t.
Proof.
  intros H. apply acceptTitle_Some in H as [-> _].
  split; [apply trim_trimStart | apply trim_trimEnd].
Qed.

(** A title that one of the three entry points returns neither starts
    nor ends with white space. *)
Theorem titles_have_no_surrounding_space (env : Env) (t : string) :
  (forall prompt, generateTitleWithCodex env prompt = Some t ->
     trimStart t = t /\ trimEnd t = t) /\
  (forall userMessage, generateSessionTitle env userMessage = Some t ->
     trimStart t = t /\ trimEnd t = t) /\
  (forall recent last, regenerateSessionTitle env recent last = Some t ->
     trimStart t = t /\ trimEnd t = t).
Proof.
  split; [| split].
  - intros prompt. rewrite generateTitleWithCodex_output.
    destruct (codexOutput env prompt); [apply acceptTitle_trim | discriminate].
  - intros userMessage. rewrite generateSessionTitle_output.
    destruct (modelOutput env _); [apply acceptTitle_trim | discriminate].
  - intros recent last. rewrite regenerateSessionTitle_output.
    destruct (modelOutput env _); [apply acceptTitle_trim | discriminate].
Qed.

End TitleShapeProperties.




